(** * feed-posts-parser: a shallow embedding of [utils.js] and [index.js]

    The program is a GitHub action.  It lists the open issues of a
    repository, reads the JSON block embedded in every issue body, fetches
    the feed the block declares, rewrites the issue body and writes one
    aggregated JSON report.

    The JavaScript is embedded as follows.
    - JavaScript values are the inductive type [value].
    - An [async] function is a function of the monad [M]: it takes the
      state of the outside world and returns an [outcome] (the promise
      resolves, rejects, or never settles), the new state of the world and
      the events the call emitted, oldest first.
    - The built-ins and the third-party libraries the program calls (axios,
      cheerio's parser, dayjs, octokit, [fs], [JSON], [RegExp], [Date]) are
      the fields of the class [Runtime]; every theorem holds for all of
      them.
    - The module-level constants read from the action's inputs are the
      fields of [Config].

    The repository holds two copies of [index.js].  They differ in their
    log lines, in the defaults of the inputs and in the path of the
    report; the embedding follows the copy that reads [data_path], and
    the other copy is embedded in the module [Variant] and compared with
    it. *)

From Stdlib Require Import ZArith List Ascii String Bool Lia Permutation Sorted.
Import ListNotations.
Open Scope string_scope.
Open Scope list_scope.
Open Scope Z_scope.

Set Implicit Arguments.
Set Warnings "-register-all".

(** ** JavaScript values *)

(** Numbers are restricted to integers: the program only counts and
    compares time stamps.  [VBuiltin] stands for a method inherited from a
    built-in prototype, which is what a property read such as
    ["abc".link] yields. *)
#[local] Unset Elimination Schemes.
Inductive value : Type :=
| VUndefined
| VNull
| VBool (b : bool)
| VNum (n : Z)
| VStr (s : string)
| VArr (items : list value)
| VObj (fields : list (string * value))
| VBuiltin (name : string).

(** What the program can catch.  [handleError] tells three shapes apart:
    an error carrying [response], an error carrying only [request], and
    any other error, of which only [message] is read. *)
Inductive error : Type :=
| ResponseError (message : string)
    (status : Z) (statusText : string) (data : value)
| RequestError (message : string)
| PlainError (message : string).

Definition error_message (e : error) : string :=
  match e with
  | ResponseError m _ _ _ | RequestError m | PlainError m => m
  end.

(** ToBoolean. *)
Definition truthy (v : value) : bool :=
  match v with
  | VUndefined | VNull => false
  | VBool b => b
  | VNum n => negb (n =? 0)
  | VStr s => negb (String.eqb s "")
  | VArr _ | VObj _ | VBuiltin _ => true
  end.

(** [a || b]. *)
Definition js_or (a b : value) : value := if truthy a then a else b.

Definition Array_isArray (v : value) : bool :=
  match v with VArr _ => true | _ => false end.

Fixpoint lookup (k : string) (fields : list (string * value)) : value :=
  match fields with
  | [] => VUndefined
  | (k', v) :: rest => if String.eqb k k' then v else lookup k rest
  end.

Definition zlength {A} (l : list A) : Z := Z.of_nat (List.length l).

(** The property read [v.k], for the keys the program reads: [feed],
    [author], [avatar], [name], [posts], [title], [published], [link],
    [length], [data], [newBody].  Reading a property of [undefined] or
    [null] throws a TypeError; [String.prototype] has a [link] method;
    no other prototype defines one of these keys. *)
Definition get (v : value) (k : string) : error + value :=
  match v with
  | VUndefined | VNull =>
      inl (PlainError "Cannot read properties of undefined or null")
  | VObj fields => inr (lookup k fields)
  | VArr items =>
      inr (if String.eqb k "length" then VNum (zlength items) else VUndefined)
  | VStr s =>
      inr (if String.eqb k "length" then VNum (Z.of_nat (String.length s))
           else if String.eqb k "link" then VBuiltin "String.prototype.link"
           else VUndefined)
  | VBool _ | VNum _ | VBuiltin _ => inr VUndefined
  end.

(** The conversion of a value to a primitive, which a template literal
    performs.  The values of the program are made by
    [JSON.parse] and by property reads, so no field of an object holds a
    function an object could be converted with.  An object with a
    property of its own named [toString] hides [Object.prototype.toString];
    [Object.prototype.valueOf] returns the object itself, which is no
    primitive, and the conversion throws a TypeError.  Any other object
    converts to ["[object Object]"].  An array is joined: its elements
    other than [null] and [undefined] are converted in turn.  Every other
    value converts. *)
Fixpoint ToPrimitive_throws (v : value) : bool :=
  match v with
  | VObj fields =>
      existsb (fun field => String.eqb (fst field) "toString") fields
  | VArr items => existsb ToPrimitive_throws items
  | _ => false
  end.

(** [`${v}`]: the value whose text is interpolated, or the TypeError. *)
Definition ToString (v : value) : error + value :=
  if ToPrimitive_throws v
  then inl (PlainError "Cannot convert object to primitive value")
  else inr v.

(** ** Array.prototype.sort

    ECMAScript reads a NaN returned by the comparison as 0 and asks for a
    stable sort.  When the comparison is consistent for the elements of
    the array (the conditions below are those of the standard) the result
    is determined: the elements in ascending order of the comparison,
    equal elements in their original order.  Otherwise the order is left
    to the engine. *)

(** [order > 0]; [None] is NaN. *)
Definition positive (order : option Z) : bool :=
  match order with
  | Some d => 0 <? d
  | None => false
  end.

(** A consistent comparison function for the values of [S]: it returns
    a number that is not NaN, and with [a <CF b] for [comparefn(a, b) < 0],
    [a =CF b] for [= 0] and [a >CF b] for [> 0]: [a =CF a]; [a =CF b]
    implies [b =CF a]; [=CF], [<CF] and [>CF] are transitive. *)
Definition consistent {A} (comparefn : A -> A -> option Z) (S : list A)
  : Prop :=
  forall a b c, In a S -> In b S -> In c S ->
    exists aa ab ba bc ac,
      comparefn a a = Some aa /\ comparefn a b = Some ab /\
      comparefn b a = Some ba /\ comparefn b c = Some bc /\
      comparefn a c = Some ac /\
      aa = 0 /\
      (ab = 0 -> ba = 0) /\
      (ab = 0 -> bc = 0 -> ac = 0) /\
      (ab < 0 -> bc < 0 -> ac < 0) /\
      (0 < ab -> 0 < bc -> 0 < ac).

(** The stable sort, by insertion: every element in turn moves towards
    the front past the elements [tmp] with [comparefn(tmp, element) > 0].
    [insert] works on the sorted prefix in reverse. *)
Fixpoint insert {A} (comparefn : A -> A -> option Z) (element : A)
    (reversed : list A) : list A :=
  match reversed with
  | [] => [element]
  | tmp :: before =>
      if positive (comparefn tmp element)
      then tmp :: insert comparefn element before
      else element :: reversed
  end.

Definition stable_sort {A} (comparefn : A -> A -> option Z) (l : list A)
  : list A :=
  rev (fold_left (fun reversed element => insert comparefn element reversed)
         l []).

(** ** Documents, issues, events *)

(** The tree cheerio builds in [xmlMode]. *)
Inductive node : Type :=
| Element (tag : string) (attrs : list (string * string)) (children : list node)
| Text (data : string).

#[local] Set Elimination Schemes.

(** An issue as the tracker returns it; [body] is [null] for an issue
    without a description. *)
Record issue : Type := Issue {
  number : Z;
  body : option string;
  labels : list string
}.

(** The argument of [dayjs(...)]: a string, or a [Date] object. *)
Inductive dateinput : Type :=
| DateString (s : string)
| DateObject (t : Z).

(** What a call leaves behind.  [EvLog level template args] is a call of
    [logger]: [template] is the text of the template literal and [args]
    are the values interpolated in it, followed by the extra arguments.
    A call of the outside world carries [true] when it succeeded.  The
    pool events record the assignments to the pool's fields; [id] is the
    number of the issue the task belongs to. *)
Inductive event : Type :=
| EvLog (level : string) (template : string) (args : list value)
| EvDelay (ms : Z)
| EvGet (url : value) (ok : bool)
| EvListIssues (ok : bool)
| EvUpdate (issue_number : Z) (body : value) (ok : bool)
| EvMkdir (path : string) (ok : bool)
| EvWriteFile (path : string) (content : string) (ok : bool)
| EvExit (code : Z)
| EvSubmit (id : Z)
| EvEnqueue (id : Z)
| EvStart (id : Z) (running : Z)
| EvFinish (id : Z) (running : Z)
| EvWake (id : Z).

(** A promise resolves, rejects, or never settles. *)
Inductive outcome (A : Type) : Type :=
| Ret (a : A)
| Throw (e : error)
| Hang.
Arguments Ret {A} a.
Arguments Throw {A} e.
Arguments Hang {A}.

(** ** The outside world *)

Class Runtime : Type := {
  World : Type;
  (** [axios.get(url, { timeout: 5000 })]: status and data, or a rejection *)
  axios_get : value -> World -> (error + (Z * value)) * World;
  (** [cheerio.load(data, { xmlMode: true })] *)
  cheerio_load : value -> error + list node;
  (** the parser accepts every string: [cheerio.load] can only throw on
      data that is not a string *)
  cheerio_load_string : forall s e, cheerio_load (VStr s) <> inl e;
  (** dayjs's parser: the time stamp, or [None] for an invalid date *)
  dayjs_parse : string -> option Z;
  (** dayjs's formatter on a valid date *)
  dayjs_render : Z -> string -> string;
  (** the time value of [new Date()] *)
  Date_now : World -> Z;
  (** the time value of [new Date(v)]; [None] is NaN *)
  Date_new : value -> option Z;
  JSON_parse : string -> error + value;
  (** [JSON.stringify(v, null, 2)] *)
  JSON_stringify : value -> string;
  (** [s.match(/```json\s*\{[\s\S]*?\}\s*```/m)], the whole match *)
  match_fence : string -> option string;
  (** [s.match(/\{[\s\S]*\}/m)], the whole match *)
  match_object : string -> option string;
  (** [s.replace(pattern, replacement)] on strings *)
  String_replace : string -> string -> string -> string;
  (** [octokit.paginate(octokit.issues.listForRepo, ...)] *)
  octokit_paginate : World -> (error + list issue) * World;
  (** [octokit.issues.update({ owner, repo, issue_number, body })] *)
  octokit_issues_update : Z -> value -> World -> (error + unit) * World;
  fs_mkdirSync : string -> World -> (error + unit) * World;
  fs_writeFileSync : string -> string -> World -> (error + unit) * World;
  path_dirname : string -> string;
  (** [path.isAbsolute], which depends on the platform *)
  path_isAbsolute : string -> bool;
  (** the array [Array.prototype.sort] leaves *)
  Array_sort : forall A : Type, (A -> A -> option Z) -> list A -> list A;
  (** the engine reorders the elements of the array, whatever the
      comparison *)
  Array_sort_elements :
    forall A (comparefn : A -> A -> option Z) l,
      Permutation (Array_sort comparefn l) l;
  (** with a consistent comparison the standard determines the result,
      which is that of the stable sort; otherwise the order is left to
      the engine *)
  Array_sort_stable :
    forall A (comparefn : A -> A -> option Z) l,
      consistent comparefn l ->
      Array_sort comparefn l = stable_sort comparefn l
}.

Arguments Array_sort {Runtime} {A} comparefn l.

(** The constants of [index.js].  The source fixes [CONCURRENCY_LIMIT] to
    10; the others come from the action's inputs.  A [RETRY_TIMES] or
    [POSTS_COUNT] that is NaN behaves like 0 in the comparisons and in
    [slice]. *)
Record Config : Type := {
  RETRY_TIMES : Z;
  POSTS_COUNT : Z;
  DATAPATH : string;
  DATE_FORMAT : string;
  CONCURRENCY_LIMIT : Z
}.

(** ** The monad of asynchronous calls *)

Section Async.

Context {RT : Runtime}.

Definition M (A : Type) : Type := World -> outcome A * World * list event.

Definition ret {A} (a : A) : M A := fun w => (Ret a, w, []).

Definition bind {A B} (m : M A) (f : A -> M B) : M B :=
  fun w =>
    match m w with
    | (Ret a, w1, t1) => let '(o, w2, t2) := f a w1 in (o, w2, t1 ++ t2)
    | (Throw e, w1, t1) => (Throw e, w1, t1)
    | (Hang, w1, t1) => (Hang, w1, t1)
    end.

Definition throw {A} (e : error) : M A := fun w => (Throw e, w, []).

Definition hang {A} : M A := fun w => (Hang, w, []).

Definition emit (ev : event) : M unit := fun w => (Ret tt, w, [ev]).

(** [try { m } catch (error) { h error }] *)
Definition try_catch {A} (m : M A) (h : error -> M A) : M A :=
  fun w =>
    match m w with
    | (Throw e, w1, t1) => let '(o, w2, t2) := h e w1 in (o, w2, t1 ++ t2)
    | r => r
    end.

(** [try { m } finally { fin }], for a [fin] that completes normally. *)
Definition try_finally {A} (m : M A) (fin : M unit) : M A :=
  fun w =>
    match m w with
    | (Ret a, w1, t1) =>
        let '(o, w2, t2) := fin w1 in
        (match o with Ret _ => Ret a | Throw e => Throw e | Hang => Hang end,
         w2, t1 ++ t2)
    | (Throw e, w1, t1) =>
        let '(o, w2, t2) := fin w1 in
        (match o with Ret _ => Throw e | Throw e' => Throw e' | Hang => Hang end,
         w2, t1 ++ t2)
    | (Hang, w1, t1) => (Hang, w1, t1)
    end.

(** A synchronous expression that may throw. *)
Definition lift {A} (r : error + A) : M A :=
  match r with inl e => throw e | inr a => ret a end.

(** A call of the outside world that may throw. *)
Definition call {A} (f : World -> (error + A) * World) (ev : bool -> event)
  : M A :=
  fun w =>
    match f w with
    | (inr a, w1) => (Ret a, w1, [ev true])
    | (inl e, w1) => (Throw e, w1, [ev false])
    end.

End Async.

Declare Scope async_scope.
Delimit Scope async_scope with async.
Notation "x <- m ;; k" := (bind m (fun x => k))
  (at level 100, m at next level, right associativity) : async_scope.
Notation "m ;; k" := (bind m (fun _ => k))
  (at level 100, right associativity) : async_scope.
Open Scope async_scope.

(** ** utils.js *)

Section Utils.

Context {RT : Runtime}.

(** [dayjs(d)] *)
Definition dayjs (d : dateinput) : option Z :=
  match d with
  | DateString s => dayjs_parse s
  | DateObject t => Some t
  end.

(** [formatDate]: dayjs formats an invalid date as its invalid-date
    string. *)
Definition formatDate (dateString : dateinput) (format : string) : string :=
  match dayjs dateString with
  | Some t => dayjs_render t format
  | None => "Invalid Date"
  end.

Definition logger (level template : string) (args : list value) : M unit :=
  emit (EvLog level template args).

(** [handleError(error, context)]: [context] is the text of the template
    literal the caller passes and [args] the values interpolated in it. *)
Definition handleError (e : error) (context : string) (args : list value)
  : M unit :=
  match e with
  | ResponseError _ status statusText data =>
      logger "error"
        "${context}: ${error.response.status} - ${error.response.statusText} - ${JSON.stringify(error.response.data)}"
        (VStr context :: args ++ [VNum status; VStr statusText; data])
  | RequestError _ =>
      logger "error" "${context}: No response received"
        (VStr context :: args)
  | PlainError message =>
      logger "error" "${context}: ${error.message}"
        (VStr context :: args ++ [VStr message])
  end.

(** [await new Promise(resolve => setTimeout(resolve, delay))] *)
Definition sleep (delay : Z) : M unit := emit (EvDelay delay).

(** The loop of [withRetry]: [todo] iterations are left and the loop
    variable is [i].  Leaving the loop returns [undefined], here [None]. *)
Fixpoint withRetry_loop {A} (fn : M A) (retries delay : Z)
    (todo : nat) (i : Z) : M (option A) :=
  match todo with
  | O => ret None
  | S todo' =>
      fun w =>
        match fn w with
        | (Ret a, w1, t1) => (Ret (Some a), w1, t1)
        | (Throw e, w1, t1) =>
            if i =? retries - 1 then (Throw e, w1, t1)
            else
              let '(o, w2, t2) :=
                (sleep delay ;;
                 withRetry_loop fn retries delay todo' (i + 1)) w1 in
              (o, w2, t1 ++ t2)
        | (Hang, w1, t1) => (Hang, w1, t1)
        end
  end.

(** [withRetry(fn, retries = 3, delay = 1000)] *)
Definition withRetry_delay {A} (fn : M A) (retries delay : Z) : M (option A) :=
  withRetry_loop fn retries delay (Z.to_nat retries) 0.

(** The callers pass no [delay]: it is the default, one second. *)
Definition withRetry {A} (fn : M A) (retries : Z) : M (option A) :=
  withRetry_delay fn retries 1000.

(** *** ConcurrencyPool *)

(** The queue holds the resolvers of the waiting calls of [add]; a
    resolver is represented by the identifier of its task. *)
Record ConcurrencyPool : Type := {
  maxConcurrency : Z;
  running : Z;
  queue : list Z
}.

(** [new ConcurrencyPool(maxConcurrency)] *)
Definition ConcurrencyPool_new (max : Z) : ConcurrencyPool :=
  {| maxConcurrency := max; running := 0; queue := [] |}.

(** The [finally] block of [add]: [this.running--], then the first waiter
    is taken off the queue and its resolver called. *)
Definition add_finally (this : ConcurrencyPool) (id : Z) : M unit :=
  emit (EvFinish id (running this - 1)) ;;
  match queue this with
  | [] => ret tt
  | next :: _ => emit (EvWake next)
  end.

(** The pool once the [finally] block has run. *)
Definition released (this : ConcurrencyPool) : ConcurrencyPool :=
  {| maxConcurrency := maxConcurrency this;
     running := running this - 1;
     queue := tl (queue this) |}.

(** [this.running++] *)
Definition acquired (this : ConcurrencyPool) : ConcurrencyPool :=
  {| maxConcurrency := maxConcurrency this;
     running := running this + 1;
     queue := queue this |}.

(** [pool.add(fn)], for the task of issue [id].  It returns the pool as
    the call leaves it together with the result of [fn].

    When [running >= maxConcurrency] the call pushes its resolver on the
    queue and waits for the [finally] block of a finishing task to call
    it.  [run] awaits every call of [add] before it makes the next one, so
    no task is in flight when [add] is called: nothing is left to call the
    resolver and the promise never settles. *)
Definition add {A} (this : ConcurrencyPool) (id : Z) (fn : M A)
  : M (ConcurrencyPool * A) :=
  emit (EvSubmit id) ;;
  if maxConcurrency this <=? running this then
    emit (EvEnqueue id) ;; hang
  else
    let this1 := acquired this in
    emit (EvStart id (running this1)) ;;
    a <- try_finally fn (add_finally this1 id) ;;
    ret (released this1, a).

(** [add] cut at its two awaits, for callers that do not await one call
    before they make the next.  Between two awaits a call runs alone:
    [Submit] is the call up to its first await, [Resume] the segment of
    the first woken waiter from its wake-up to the call of its task, and
    [Finish] the [finally] block.  [woken] holds the waiters whose
    resolver was called and that have not resumed yet; the engine resumes
    them in the order of the calls. *)
Inductive segment : Type :=
| Submit (id : Z)
| Resume
| Finish (id : Z).

Record pool_state : Type := {
  pool_of : ConcurrencyPool;
  woken : list Z
}.

Definition segment_step (s : pool_state) (a : segment)
  : pool_state * list event :=
  let this := pool_of s in
  match a with
  | Submit id =>
      if maxConcurrency this <=? running this then
        ({| pool_of := {| maxConcurrency := maxConcurrency this;
                          running := running this;
                          queue := queue this ++ [id] |};
            woken := woken s |},
         [EvSubmit id; EvEnqueue id])
      else
        ({| pool_of := acquired this; woken := woken s |},
         [EvSubmit id; EvStart id (running this + 1)])
  | Resume =>
      match woken s with
      | [] => (s, [])
      | id :: rest =>
          ({| pool_of := acquired this; woken := rest |},
           [EvStart id (running this + 1)])
      end
  | Finish id =>
      ({| pool_of := released this;
          woken := woken s ++ firstn 1 (queue this) |},
       EvFinish id (running this - 1) :: map EvWake (firstn 1 (queue this)))
  end.

Fixpoint interleave (s : pool_state) (l : list segment)
  : pool_state * list event :=
  match l with
  | [] => (s, [])
  | a :: rest =>
      let '(s1, t1) := segment_step s a in
      let '(s2, t2) := interleave s1 rest in
      (s2, t1 ++ t2)
  end.

(** *** IssueManager *)

Definition has_excluded_label (exclude_labels : list string) (i : issue)
  : bool :=
  existsb (fun excludeLabel =>
             existsb (String.eqb excludeLabel) (labels i)) exclude_labels.

Definition issue_numbers (issues : list issue) : value :=
  VArr (map (fun i => VNum (number i)) issues).

(** [getIssues(exclude_labels)]; [None] is a call without argument. *)
Definition getIssues (exclude_labels : option (list string))
  : M (list issue) :=
  try_catch
    (issues <- call octokit_paginate EvListIssues ;;
     logger "info"
       "一共有${issues.length}个打开的issues: ${issues.map(item => item.number).join(',')}"
       [VNum (zlength issues); issue_numbers issues] ;;
     match exclude_labels with
     | None | Some [] => ret issues
     | Some excluded =>
         let filteredIssues :=
           filter (fun i => negb (has_excluded_label excluded i)) issues in
         logger "info"
           "经过[${exclude_labels}]过滤后还有${issues.length}个: ${filteredIssues.map(item => item.number).join(',')}"
           [VArr (map VStr excluded); VNum (zlength issues);
            issue_numbers filteredIssues] ;;
         ret filteredIssues
     end)
    (fun error =>
       logger "error" "获取issues失败" [] ;;
       throw error).

End Utils.

(** ** index.js *)

Section Index.

Context {RT : Runtime}.
Variable cfg : Config.

(** *** The cheerio selections [parseFeed] uses *)

(** The nodes of a subtree in document order, each with the tags of its
    ancestors, nearest first. *)
Fixpoint walk (ancestors : list string) (n : node)
  : list (list string * node) :=
  (ancestors, n) ::
  match n with
  | Text _ => []
  | Element t _ cs =>
      (fix walk_all (l : list node) : list (list string * node) :=
         match l with
         | [] => []
         | c :: l' => walk (t :: ancestors) c ++ walk_all l'
         end) cs
  end.

Definition is_element (name : string) (n : node) : bool :=
  match n with
  | Element t _ _ => String.eqb t name
  | Text _ => false
  end.

Fixpoint starts_with (prefix l : list string) : bool :=
  match prefix, l with
  | [], _ => true
  | p :: prefix', x :: l' => String.eqb p x && starts_with prefix' l'
  | _ :: _, [] => false
  end.

(** [$('p1 > ... > pn > name')]: [parents] lists [pn ... p1]. *)
Definition select (parents : list string) (name : string) (doc : list node)
  : list node :=
  map snd
    (filter (fun an => is_element name (snd an) && starts_with parents (fst an))
       (flat_map (walk []) doc)).

(** [$item.find(name)]: the descendants of the item with that tag. *)
Definition find (name : string) (item : node) : list node :=
  filter (is_element name) (map snd (tl (walk [] item))).

Fixpoint text (n : node) : string :=
  match n with
  | Text s => s
  | Element _ _ cs =>
      (fix text_all (l : list node) : string :=
         match l with
         | [] => ""
         | c :: l' => String.append (text c) (text_all l')
         end) cs
  end.

(** [selection.first().text()] *)
Definition first_text (selection : list node) : string :=
  match selection with
  | [] => ""
  | n :: _ => text n
  end.

Fixpoint assoc (k : string) (l : list (string * string)) : option string :=
  match l with
  | [] => None
  | (k', v) :: rest => if String.eqb k k' then Some v else assoc k rest
  end.

(** [selection.attr(name)]: the attribute of the first element, or
    [undefined]. *)
Definition attr (name : string) (selection : list node) : option string :=
  match selection with
  | Element _ attrs _ :: _ => assoc name attrs
  | _ => None
  end.

(** [$item.find('link[rel="alternate"]')] *)
Definition find_link_alternate (item : node) : list node :=
  filter (fun n => match n with
                   | Element _ attrs _ =>
                       match assoc "rel" attrs with
                       | Some r => String.eqb r "alternate"
                       | None => false
                       end
                   | Text _ => false
                   end)
    (find "link" item).

(** [items.slice(0, end)] *)
Definition slice0 {A} (l : list A) (e : Z) : list A :=
  if e <? 0 then firstn (Z.to_nat (zlength l + e)) l
  else firstn (Z.to_nat e) l.

Definition string_truthy (s : string) : bool := negb (String.eqb s "").

Definition opt_truthy (o : option string) : bool :=
  match o with Some s => string_truthy s | None => false end.

Definition opt_value (o : option string) : value :=
  match o with Some s => VStr s | None => VUndefined end.

(** *** parseFeed *)

Definition item_title (el : node) : string := first_text (find "title" el).

Definition item_link (isRss : bool) (el : node) : option string :=
  if isRss then Some (first_text (find "link" el))
  else
    let link := attr "href" (find_link_alternate el) in
    if opt_truthy link then link else attr "href" (find "link" el).

Definition item_publishedDateStr (isRss : bool) (el : node) : string :=
  if isRss then first_text (find "pubDate" el)
  else first_text (find "published" el).

Definition item_formattedPublished (isRss : bool) (el : node) : string :=
  let publishedDateStr := item_publishedDateStr isRss el in
  if string_truthy publishedDateStr
  then formatDate (DateString publishedDateStr) (DATE_FORMAT cfg)
  else "".

Definition make_post (title : string) (link : option string)
    (published : string) : value :=
  VObj [("title", VStr title); ("link", opt_value link);
        ("published", VStr published)].

(** The callback of [items.slice(0, POSTS_COUNT).each(...)], run on the
    items in turn; [posts] is the array the callback pushes to. *)
Fixpoint each_item (isRss : bool) (items : list node) (posts : list value)
  : M (list value) :=
  match items with
  | [] => ret posts
  | el :: rest =>
      let title := item_title el in
      let link := item_link isRss el in
      let formattedPublished := item_formattedPublished isRss el in
      logger "info"
        "Extracted - Title: ${title}, Link: ${link}, Published: ${formattedPublished}"
        [VStr title; opt_value link; VStr formattedPublished] ;;
      each_item isRss rest
        (if string_truthy title && opt_truthy link
         then posts ++ [make_post title link formattedPublished]
         else posts)
  end.

(** The items [parseFeed] iterates over and the flag [isRss]. *)
Definition detect_items (doc : list node) : bool * list node :=
  let items := select ["feed"] "entry" doc in
  if zlength items =? 0 then
    let items := select ["channel"; "rss"] "item" doc in
    if 0 <? zlength items then (true, items) else (false, items)
  else (false, items).

(** [parseFeed] is not exported and [processIssue] is its only caller,
    which has interpolated [feedUrl] in a log line before the call: the
    template literals of [parseFeed] convert a value that converts, and
    they are embedded as log lines that cannot throw. *)
Definition parseFeed (feedUrl : value) : M value :=
  try_catch
    (logger "info" "Fetching feed from URL: ${feedUrl}" [feedUrl] ;;
     response <- call (axios_get feedUrl) (EvGet feedUrl) ;;
     logger "info"
       "Feed response received from ${feedUrl}, status: ${response.status}"
       [feedUrl; VNum (fst response)] ;;
     doc <- lift (cheerio_load (snd response)) ;;
     let '(isRss, items) := detect_items doc in
     logger "info"
       "Feed URL: ${feedUrl}, items found: ${items.length}, isRss: ${isRss}"
       [feedUrl; VNum (zlength items); VBool isRss] ;;
     posts <- each_item isRss (slice0 items (POSTS_COUNT cfg)) [] ;;
     ret (VArr posts))
    (fun error =>
       handleError error "Error parsing feed from ${feedUrl}" [feedUrl] ;;
       ret (VArr [])).

(** *** processIssue *)

Definition error_result : value :=
  VObj [("status", VStr "error"); ("posts", VArr []); ("feedUrl", VNull)].

(** [posts && posts.length > 0] *)
Definition has_posts (posts : value) : bool :=
  truthy posts &&
  match get posts "length" with
  | inr (VNum n) => 0 <? n
  | _ => false
  end.

(** The part of [processIssue] that starts at [JSON.parse]; [b] is the
    body and [json] is [jsonMatch[0]].  The template literal of the line
    logged before the fetch converts [feedUrl] to a string, which can
    throw. *)
Definition process_json (i : issue) (b json : string) : M value :=
  logger "info"
    "Found JSON content in issue #${issue.number}, jsonMatch[0]: ${jsonMatch[0]}"
    [VNum (number i); VStr json] ;;
  jsonData <- lift (JSON_parse json) ;;
  logger "info" "Parsed JSON content from issue #${issue.number}"
    [VNum (number i); jsonData] ;;
  feedUrl <- lift (get jsonData "feed") ;;
  fetched <-
    (if truthy feedUrl then
       lift (ToString feedUrl) ;;
       logger "info" "Fetching feed data from ${feedUrl}" [feedUrl] ;;
       r <- withRetry (parseFeed feedUrl) (RETRY_TIMES cfg) ;;
       let posts := match r with Some p => p | None => VUndefined end in
       ret (posts, if has_posts posts then "active" else "error")
     else ret (VArr [], "error")) ;;
  let '(posts, status) := fetched in
  posts_length <- lift (get posts "length") ;;
  logger "info"
    "Processed feed data for issue #${issue.number}, posts count: ${posts.length}, status: ${status}"
    [VNum (number i); posts_length; VStr status] ;;
  let newBody := String_replace b json (JSON_stringify jsonData) in
  author <- lift (get jsonData "author") ;;
  avatar <- lift (get jsonData "avatar") ;;
  ret (VObj [("data", jsonData); ("newBody", VStr newBody);
             ("posts", posts); ("status", VStr status);
             ("feedUrl", feedUrl);
             ("author", js_or author (VStr ""));
             ("avatar", js_or avatar (VStr ""))]).

Definition processIssue (i : issue) : M value :=
  try_catch
    (logger "info" "Processing issue #${issue.number}" [VNum (number i)] ;;
     match body i with
     | Some b =>
         if string_truthy b then
           let jsonMatch :=
             match match_fence b with
             | Some m => match_object m
             | None => None
             end in
           match jsonMatch with
           | Some json => process_json i b json
           | None =>
               logger "warn" "No JSON content found in issue #${issue.number}"
                 [VNum (number i)] ;;
               ret error_result
           end
         else
           logger "warn"
             "Issue #${issue.number} has no body content, skipping..."
             [VNum (number i)] ;;
           ret error_result
     | None =>
         logger "warn"
           "Issue #${issue.number} has no body content, skipping..."
           [VNum (number i)] ;;
         ret error_result
     end)
    (fun error =>
       handleError error "Error processing issue #${issue.number}"
         [VNum (number i)] ;;
       ret error_result).

(** *** run *)

(** An element of [article_data]. *)
Record article : Type := {
  title : value;
  created : value;
  link : value;
  author : value;
  avatar : value
}.

(** The variables of [run] the tasks assign to. *)
Record counters : Type := {
  allArticles : list article;
  active_num : Z;
  error_num : Z;
  article_num : Z
}.

(** [allData] *)
Record report : Type := {
  friends_num : Z;
  report_active_num : Z;
  report_error_num : Z;
  report_article_num : Z;
  last_updated_time : string;
  article_data : list article
}.

Definition article_value (a : article) : value :=
  VObj [("title", title a); ("created", created a); ("link", link a);
        ("author", author a); ("avatar", avatar a)].

Definition report_value (r : report) : value :=
  VObj [("statistical_data",
         VObj [("friends_num", VNum (friends_num r));
               ("active_num", VNum (report_active_num r));
               ("error_num", VNum (report_error_num r));
               ("article_num", VNum (report_article_num r));
               ("last_updated_time", VStr (last_updated_time r))]);
        ("article_data", VArr (map article_value (article_data r)))].

(** The callback of [result.data.posts.forEach]: the article pushed for
    one post.  Reading a property of a [null] post throws. *)
Definition post_article (author avatar : value) (post : value)
  : error + article :=
  match get post "title", get post "published", get post "link" with
  | inr t, inr p, inr l =>
      inr {| title := t; created := p; link := l;
             author := author; avatar := avatar |}
  | inl e, _, _ | _, inl e, _ | _, _, inl e => inl e
  end.

(** [result.data.posts.forEach(...)], pushing to [articles]. *)
Fixpoint forEach_push (author avatar : value) (posts : list value)
    (articles : list article) : error + list article :=
  match posts with
  | [] => inr articles
  | post :: rest =>
      match post_article author avatar post with
      | inr a => forEach_push author avatar rest (articles ++ [a])
      | inl e => inl e
      end
  end.

(** The elements of an array. *)
Definition array_items (v : value) : list value :=
  match v with
  | VArr items => items
  | _ => []
  end.

(** The statement [if (result.data && Array.isArray(result.data.posts))
    { ... }] of the task. *)
Definition merge_articles (result : value) (acc : counters) : M counters :=
  data <- lift (get result "data") ;;
  if truthy data then
    posts <- lift (get data "posts") ;;
    if Array_isArray posts then
      name <- lift (get data "name") ;;
      avatar <- lift (get data "avatar") ;;
      articles <-
        lift (forEach_push (js_or name (VStr "")) (js_or avatar (VStr ""))
                (array_items posts) (allArticles acc)) ;;
      ret {| allArticles := articles;
             active_num := active_num acc;
             error_num := error_num acc;
             article_num := article_num acc + zlength (array_items posts) |}
    else ret acc
  else ret acc.

(** The function [run] hands to [pool.add] for one issue. *)
Definition task (i : issue) (acc : counters) : M counters :=
  logger "info" "Processing issue #${issue.number}" [VNum (number i)] ;;
  result <- processIssue i ;;
  if truthy result then
    let acc :=
      {| allArticles := allArticles acc;
         active_num := active_num acc + 1;
         error_num := error_num acc;
         article_num := article_num acc |} in
    logger "info" "Issue #${issue.number} processed successfully"
      [VNum (number i)] ;;
    newBody <- lift (get result "newBody") ;;
    call (octokit_issues_update (number i) newBody)
      (EvUpdate (number i) newBody) ;;
    logger "info" "Updated issue body for issue #${issue.number}"
      [VNum (number i)] ;;
    merge_articles result acc
  else
    let acc :=
      {| allArticles := allArticles acc;
         active_num := active_num acc;
         error_num := error_num acc + 1;
         article_num := article_num acc |} in
    logger "warn" "Issue #${issue.number} failed to process"
      [VNum (number i)] ;;
    ret acc.

(** [for (const issue of allIssues) { await pool.add(...) }] *)
Fixpoint for_issues (pool : ConcurrencyPool) (acc : counters)
    (allIssues : list issue) : M (ConcurrencyPool * counters) :=
  match allIssues with
  | [] => ret (pool, acc)
  | i :: rest =>
      r <- add pool (number i) (task i acc) ;;
      for_issues (fst r) (snd r) rest
  end.

(** [(a, b) => new Date(b.created) - new Date(a.created)]; [None] is
    NaN.  A [created] that does not convert to a primitive, on which
    [new Date] throws, is read as an invalid date. *)
Definition compare_created (a b : article) : option Z :=
  match Date_new (created b), Date_new (created a) with
  | Some tb, Some ta => Some (tb - ta)
  | _, _ => None
  end.

Definition no_counters : counters :=
  {| allArticles := []; active_num := 0; error_num := 0; article_num := 0 |}.

Definition now : M Z := fun w => (Ret (Date_now w), w, []).

(** The part of the [try] block of [run] that follows the listing of the
    issues, up to the construction of [allData]. *)
Definition run_aggregate (allIssues : list issue) : M report :=
  logger "info" "Fetched all issues, total count: ${allIssues.length}"
    [VNum (zlength allIssues)] ;;
  let friends_num := zlength allIssues in
  let pool := ConcurrencyPool_new (CONCURRENCY_LIMIT cfg) in
  r <- for_issues pool no_counters allIssues ;;
  let acc := snd r in
  logger "info"
    "All issues processed, active: ${active_num}, errors: ${error_num}, articles: ${article_num}"
    [VNum (active_num acc); VNum (error_num acc); VNum (article_num acc)] ;;
  let sorted := Array_sort compare_created (allArticles acc) in
  t <- now ;;
  let last_updated_time := formatDate (DateObject t) (DATE_FORMAT cfg) in
  logger "info" "Last updated time: ${last_updated_time}"
    [VStr last_updated_time] ;;
  ret {| friends_num := friends_num;
         report_active_num := active_num acc;
         report_error_num := error_num acc;
         report_article_num := article_num acc;
         last_updated_time := last_updated_time;
         article_data := sorted |}.

(** [p.replace(/^\/+/, '')] *)
Fixpoint strip_slashes (p : string) : string :=
  match p with
  | String "/"%char rest => strip_slashes rest
  | _ => p
  end.

(** The end of the [try] block: the report is written. *)
Definition run_persist (allData : report) : M unit :=
  let dataPath :=
    if path_isAbsolute (DATAPATH cfg) then strip_slashes (DATAPATH cfg)
    else DATAPATH cfg in
  call (fs_mkdirSync (path_dirname dataPath))
    (EvMkdir (path_dirname dataPath)) ;;
  let content := JSON_stringify (report_value allData) in
  call (fs_writeFileSync (DATAPATH cfg) content)
    (EvWriteFile (DATAPATH cfg) content) ;;
  logger "info" "json written successfully to ${DATAPATH}"
    [VStr (DATAPATH cfg)] ;;
  logger "info" ">> 结束" [].

(** [process.exit(1)] *)
Definition process_exit (code : Z) : M unit := emit (EvExit code).

Definition run : M unit :=
  try_catch
    (logger "info" ">> 开始" [] ;;
     allIssues <- getIssues None ;;
     allData <- run_aggregate allIssues ;;
     run_persist allData)
    (fun error =>
       handleError error "Error processing issues" [] ;;
       logger "error" "Error processing issues: ${error.message}"
         [VStr (error_message error)] ;;
       process_exit 1).

End Index.

(** ** The second copy of index.js

    The sources hold a second copy of [index.js] (unnamed/part_000).  It
    logs less, writes the report to [all.json] without making a directory
    first, does not read [posts.length] for a log line, and does not
    report the error [run] catches through [handleError].  Its functions
    are modelled here under the names they have there; the callback of
    [each], the selection of the items and the merge of the articles are
    the same text as in the first copy and are shared.  It reads
    [RETRY_TIMES] and [POSTS_COUNT] from the inputs as they are, with 3
    and 2 for an empty input; the comparisons and [slice] convert them to
    the numbers [cfg] holds. *)

Module Variant.

Section Index.

Context {RT : Runtime}.
Variable cfg : Config.

Definition parseFeed (feedUrl : value) : M value :=
  try_catch
    (response <- call (axios_get feedUrl) (EvGet feedUrl) ;;
     doc <- lift (cheerio_load (snd response)) ;;
     let '(isRss, items) := detect_items doc in
     logger "info" "Feed URL: ${items.length} isRss: ${isRss}"
       [VNum (zlength items); VBool isRss] ;;
     posts <- each_item cfg isRss (slice0 items (POSTS_COUNT cfg)) [] ;;
     ret (VArr posts))
    (fun error =>
       handleError error "Error parsing feed from ${feedUrl}" [feedUrl] ;;
       ret (VArr [])).

(** The part of [processIssue] that starts at [JSON.parse]. *)
Definition process_json (i : issue) (b json : string) : M value :=
  logger "info"
    "Found JSON content in issue #${issue.number}, jsonMatch[0]: ${jsonMatch[0]}"
    [VNum (number i); VStr json] ;;
  jsonData <- lift (JSON_parse json) ;;
  logger "info" "Got JSON content in issue #${issue.number}"
    [VNum (number i); jsonData] ;;
  feedUrl <- lift (get jsonData "feed") ;;
  fetched <-
    (if truthy feedUrl then
       lift (ToString feedUrl) ;;
       logger "info" "Getting feed data from ${feedUrl}" [feedUrl] ;;
       r <- withRetry (parseFeed feedUrl) (RETRY_TIMES cfg) ;;
       let posts := match r with Some p => p | None => VUndefined end in
       ret (posts, if has_posts posts then "active" else "error")
     else ret (VArr [], "error")) ;;
  let '(posts, status) := fetched in
  logger "info" "Converted JSON content in issue #${issue.number}"
    [VNum (number i); jsonData] ;;
  let newBody := String_replace b json (JSON_stringify jsonData) in
  author <- lift (get jsonData "author") ;;
  avatar <- lift (get jsonData "avatar") ;;
  ret (VObj [("data", jsonData); ("newBody", VStr newBody);
             ("posts", posts); ("status", VStr status);
             ("feedUrl", feedUrl);
             ("author", js_or author (VStr ""));
             ("avatar", js_or avatar (VStr ""))]).

Definition processIssue (i : issue) : M value :=
  try_catch
    (logger "info" "Processing issue #${issue.number}" [VNum (number i)] ;;
     match body i with
     | Some b =>
         if string_truthy b then
           let jsonMatch :=
             match match_fence b with
             | Some m => match_object m
             | None => None
             end in
           match jsonMatch with
           | Some json => process_json i b json
           | None =>
               logger "warn" "No JSON content found in issue #${issue.number}"
                 [VNum (number i)] ;;
               ret error_result
           end
         else
           logger "warn"
             "Issue #${issue.number} has no body content, skipping..."
             [VNum (number i)] ;;
           ret error_result
     | None =>
         logger "warn"
           "Issue #${issue.number} has no body content, skipping..."
           [VNum (number i)] ;;
         ret error_result
     end)
    (fun error =>
       handleError error "Error processing issue #${issue.number}"
         [VNum (number i)] ;;
       ret error_result).

(** The function [run] hands to [pool.add] for one issue. *)
Definition task (i : issue) (acc : counters) : M counters :=
  result <- processIssue i ;;
  if truthy result then
    let acc :=
      {| allArticles := allArticles acc;
         active_num := active_num acc + 1;
         error_num := error_num acc;
         article_num := article_num acc |} in
    newBody <- lift (get result "newBody") ;;
    call (octokit_issues_update (number i) newBody)
      (EvUpdate (number i) newBody) ;;
    logger "info" "Updated issue #${issue.number}" [VNum (number i)] ;;
    merge_articles result acc
  else
    ret {| allArticles := allArticles acc;
           active_num := active_num acc;
           error_num := error_num acc + 1;
           article_num := article_num acc |}.

Fixpoint for_issues (pool : ConcurrencyPool) (acc : counters)
    (allIssues : list issue) : M (ConcurrencyPool * counters) :=
  match allIssues with
  | [] => ret (pool, acc)
  | i :: rest =>
      r <- add pool (number i) (task i acc) ;;
      for_issues (fst r) (snd r) rest
  end.

(** The part of the [try] block of [run] that follows the listing of the
    issues, up to the construction of [allData]. *)
Definition run_aggregate (allIssues : list issue) : M report :=
  let friends_num := zlength allIssues in
  let pool := ConcurrencyPool_new (CONCURRENCY_LIMIT cfg) in
  r <- for_issues pool no_counters allIssues ;;
  let acc := snd r in
  let sorted := Array_sort compare_created (allArticles acc) in
  t <- now ;;
  let last_updated_time := formatDate (DateObject t) (DATE_FORMAT cfg) in
  ret {| friends_num := friends_num;
         report_active_num := active_num acc;
         report_error_num := error_num acc;
         report_article_num := article_num acc;
         last_updated_time := last_updated_time;
         article_data := sorted |}.

(** The end of the [try] block: the report is written to [all.json]. *)
Definition run_persist (allData : report) : M unit :=
  let content := JSON_stringify (report_value allData) in
  call (fs_writeFileSync "all.json" content)
    (EvWriteFile "all.json" content) ;;
  logger "info" "all.json 写入完成" [] ;;
  logger "info" ">> 结束" [].

Definition run : M unit :=
  try_catch
    (logger "info" ">> 开始" [] ;;
     allIssues <- getIssues None ;;
     allData <- run_aggregate allIssues ;;
     run_persist allData)
    (fun error =>
       logger "error" "Error processing issues" [] ;;
       process_exit 1).

End Index.

End Variant.

(** * Vocabulary of the statements *)

Section Vocabulary.

Context {RT : Runtime}.

(** [post m Q]: whatever the state of the world, the outcome of [m] and
    the events it emits satisfy [Q]. *)
Definition post {A} (m : M A) (Q : outcome A -> list event -> Prop) : Prop :=
  forall w, Q (fst (fst (m w))) (snd (m w)).

(** [failed_attempts fn delay k w]: the first [k] attempts of [fn] from
    the world [w] all throw, and each is followed by a pause of [delay]
    milliseconds; the result is the world and the events after the [k]-th
    pause. *)
Fixpoint failed_attempts {A} (fn : M A) (delay : Z) (k : nat) (w : World)
  : option (World * list event) :=
  match k with
  | O => Some (w, [])
  | S k' =>
      match fn w with
      | (Throw _, w1, t1) =>
          match failed_attempts fn delay k' w1 with
          | Some (w2, t2) => Some (w2, t1 ++ EvDelay delay :: t2)
          | None => None
          end
      | _ => None
      end
  end.

(** The outcome of [withRetry] for the outcome of its last attempt. *)
Definition settled {A} (o : outcome A) : outcome (option A) :=
  match o with
  | Ret a => Ret (Some a)
  | Throw e => Throw e
  | Hang => Hang
  end.

Definition is_throw {A} (o : outcome A) : bool :=
  match o with Throw _ => true | _ => false end.

(** Kinds of events. *)
Definition is_log (ev : event) : bool :=
  match ev with EvLog _ _ _ => true | _ => false end.

Definition is_get (ev : event) : bool :=
  match ev with EvGet _ _ => true | _ => false end.

Definition is_delay (ev : event) : bool :=
  match ev with EvDelay _ => true | _ => false end.

Definition is_error_log (ev : event) : bool :=
  match ev with EvLog level _ _ => String.eqb level "error" | _ => false end.

(** The events of a fetch: log lines and calls of [axios.get]. *)
Definition feed_event (ev : event) : Prop := is_log ev || is_get ev = true.

Definition count (p : event -> bool) (t : list event) : nat :=
  List.length (filter p t).

(** What the [each] callback of [parseFeed] pushes for one item: one post
    when the title and the link are both truthy, nothing otherwise. *)
Definition item_post (cfg : Config) (isRss : bool) (el : node) : list value :=
  if string_truthy (item_title el) && opt_truthy (item_link isRss el)
  then [make_post (item_title el) (item_link isRss el)
          (item_formattedPublished cfg isRss el)]
  else [].

(** The line the callback logs for one item. *)
Definition item_log (cfg : Config) (isRss : bool) (el : node) : event :=
  EvLog "info"
    "Extracted - Title: ${title}, Link: ${link}, Published: ${formattedPublished}"
    [VStr (item_title el); opt_value (item_link isRss el);
     VStr (item_formattedPublished cfg isRss el)].

(** The [published] field of a post for the raw date text of its item:
    empty when there is no text, and whatever dayjs prints otherwise, its
    invalid-date string included. *)
Definition expected_published (cfg : Config) (raw : string) : string :=
  if String.eqb raw "" then ""
  else
    match dayjs_parse raw with
    | Some t => dayjs_render t (DATE_FORMAT cfg)
    | None => "Invalid Date"
    end.

(** The posts [parseFeed] returns for a parsed document. *)
Definition feed_posts (cfg : Config) (doc : list node) : list value :=
  flat_map (item_post cfg (fst (detect_items doc)))
    (slice0 (snd (detect_items doc)) (POSTS_COUNT cfg)).

(** The line [handleError] logs. *)
Definition handleError_event (e : error) (context : string)
    (args : list value) : event :=
  match e with
  | ResponseError _ status statusText data =>
      EvLog "error"
        "${context}: ${error.response.status} - ${error.response.statusText} - ${JSON.stringify(error.response.data)}"
        (VStr context :: args ++ [VNum status; VStr statusText; data])
  | RequestError _ =>
      EvLog "error" "${context}: No response received" (VStr context :: args)
  | PlainError message =>
      EvLog "error" "${context}: ${error.message}"
        (VStr context :: args ++ [VStr message])
  end.

(** The events of [processIssue]: log lines, calls of [axios.get] and
    pauses. *)
Definition inner_event (ev : event) : Prop :=
  is_log ev || is_get ev || is_delay ev = true.

(** The structured block of an issue: the value [JSON.parse] returns for
    the text the two regular expressions extract from a non-empty body. *)
Definition parsed_block (i : issue) : option value :=
  match body i with
  | Some b =>
      if string_truthy b then
        match match_fence b with
        | Some m =>
            match match_object m with
            | Some json =>
                match JSON_parse json with
                | inr d => Some d
                | inl _ => None
                end
            | None => None
            end
        | None => None
        end
      else None
  | None => None
  end.

(** [v.k], [undefined] when the read throws. *)
Definition field (v : value) (k : string) : value :=
  match get v k with
  | inr x => x
  | inl _ => VUndefined
  end.

(** [processIssue] reaches its [return] statement with the structured
    block [d]: the block can be read, and it declares no feed, or its feed
    converts to a string and [withRetry] is allowed an attempt.  Otherwise
    the [catch] block answers. *)
Definition returned (cfg : Config) (d : value) : bool :=
  match get d "feed" with
  | inr feedUrl =>
      negb (truthy feedUrl) ||
      (negb (ToPrimitive_throws feedUrl) && (1 <=? RETRY_TIMES cfg))
  | inl _ => false
  end.

(** The [data] field of the result of [processIssue]: the structured block
    when it is parsed and [processIssue] reaches its [return] statement,
    nothing otherwise. *)
Definition data_of (cfg : Config) (i : issue) : value :=
  match parsed_block i with
  | Some d => if returned cfg d then d else VUndefined
  | None => VUndefined
  end.

(** The issues whose structured block reaches the report. *)
Definition processed (cfg : Config) (i : issue) : bool :=
  match parsed_block i with
  | Some d => returned cfg d
  | None => false
  end.

(** The [posts] array embedded in a structured block; no post when the
    block has no such field or the field is not an array. *)
Definition block_posts (d : value) : list value :=
  match get d "posts" with
  | inr (VArr items) => items
  | _ => []
  end.

(** The articles [run] makes of the posts embedded in a block. *)
Definition block_articles (d : value) : error + list article :=
  forEach_push (js_or (field d "name") (VStr ""))
    (js_or (field d "avatar") (VStr "")) (block_posts d) [].

(** The posts embedded in the body of an issue. *)
Definition entry_posts (i : issue) : list value :=
  match parsed_block i with
  | Some d => block_posts d
  | None => []
  end.

Definition entry_articles (i : issue) : error + list article :=
  match parsed_block i with
  | Some d => block_articles d
  | None => inr []
  end.

(** The articles of the posts embedded in the bodies of a list of issues,
    in the order of the list. *)
Fixpoint embedded_articles (issues : list issue) : error + list article :=
  match issues with
  | [] => inr []
  | i :: rest =>
      match entry_articles i, embedded_articles rest with
      | inr a, inr b => inr (a ++ b)
      | inl e, _ => inl e
      | _, inl e => inl e
      end
  end.

(** What the merge of [run] adds for a result whose [data] field is
    [d]. *)
Definition merged (d : value) (acc : counters) : outcome counters :=
  match block_articles d with
  | inr pushed =>
      Ret {| allArticles := allArticles acc ++ pushed;
             active_num := active_num acc;
             error_num := error_num acc;
             article_num := article_num acc + zlength (block_posts d) |}
  | inl e => Throw e
  end.

Definition is_update (ev : event) : bool :=
  match ev with EvUpdate _ _ _ => true | _ => false end.

Definition is_failed_update (ev : event) : bool :=
  match ev with EvUpdate _ _ ok => negb ok | _ => false end.

(** A report was written. *)
Definition is_write (ev : event) : bool :=
  match ev with EvWriteFile _ _ ok => ok | _ => false end.

(** The events of a task: those of [processIssue] and the update of the
    issue. *)
Definition task_event (ev : event) : Prop :=
  is_log ev || is_get ev || is_delay ev || is_update ev = true.

(** The identifiers of the tasks handed to [add], in the order of the
    calls. *)
Fixpoint submitted (t : list event) : list Z :=
  match t with
  | [] => []
  | EvSubmit id :: t' => id :: submitted t'
  | _ :: t' => submitted t'
  end.

(** The identifiers of the tasks whose body was started, in the order of
    the starts. *)
Fixpoint started (t : list event) : list Z :=
  match t with
  | [] => []
  | EvStart id _ :: t' => id :: started t'
  | _ :: t' => started t'
  end.

(** The number of tasks in their body after the events [t], when [n]
    were before. *)
Fixpoint in_flight (n : Z) (t : list event) : Z :=
  match t with
  | [] => n
  | EvStart _ _ :: t' => in_flight (n + 1) t'
  | EvFinish _ _ :: t' => in_flight (n - 1) t'
  | _ :: t' => in_flight n t'
  end.

(** The largest number of tasks in their body at once during [t], when
    [n] were before. *)
Fixpoint peak (n : Z) (t : list event) : Z :=
  match t with
  | [] => n
  | EvStart _ _ :: t' => Z.max n (peak (n + 1) t')
  | EvFinish _ _ :: t' => Z.max n (peak (n - 1) t')
  | _ :: t' => peak n t'
  end.

(** The identifiers of the tasks that had to wait, in the order in which
    they joined the queue. *)
Fixpoint enqueued (t : list event) : list Z :=
  match t with
  | [] => []
  | EvEnqueue id :: t' => id :: enqueued t'
  | _ :: t' => enqueued t'
  end.

(** The identifiers of the waiting tasks that were admitted, in the order
    of the admissions. *)
Fixpoint admitted (t : list event) : list Z :=
  match t with
  | [] => []
  | EvWake id :: t' => id :: admitted t'
  | _ :: t' => admitted t'
  end.

(** A pool that was just made, with nobody woken. *)
Definition fresh (ceiling : Z) : pool_state :=
  {| pool_of := ConcurrencyPool_new ceiling; woken := [] |}.

(** A task waits only while the running tasks and the woken waiters fill
    the pool: no task is in the queue next to a free slot. *)
Definition no_idle_slot (s : pool_state) : Prop :=
  queue (pool_of s) <> [] ->
  maxConcurrency (pool_of s) <= running (pool_of s) + zlength (woken s).

(** A burst of calls that are not awaited: the tasks [ids] are submitted
    at once, then the first [j] of them finish one after the other, and
    after each the waiter it woke resumes. *)
Definition burst (ids : list Z) (j : nat) : list segment :=
  map Submit ids ++ flat_map (fun id => [Finish id; Resume]) (firstn j ids).

(** A caller is disciplined when it submits no task while a woken waiter
    has yet to resume; [run], which awaits every call, is. *)
Fixpoint disciplined (s : pool_state) (l : list segment) : Prop :=
  match l with
  | [] => True
  | a :: rest =>
      match a with
      | Submit _ => woken s = []
      | _ => True
      end /\
      disciplined (fst (segment_step s a)) rest
  end.

Definition is_pool (ev : event) : bool :=
  match ev with
  | EvSubmit _ | EvEnqueue _ | EvStart _ _ | EvFinish _ _ | EvWake _ => true
  | _ => false
  end.

(** The value the pool's [running] takes: 1 when a task starts, which
    requires a ceiling of at least 1, and 0 when it finishes. *)
Definition running_ok (ceiling : Z) (ev : event) : Prop :=
  match ev with
  | EvStart _ r => r = 1 /\ 1 <= ceiling
  | EvFinish _ r => r = 0
  | _ => True
  end.

Definition is_exit_1 (ev : event) : bool :=
  match ev with EvExit code => code =? 1 | _ => false end.

(** The run was aborted: the process exited with status 1 after an error
    was logged, and no report was written. *)
Definition aborted (t : list event) : Prop :=
  In (EvExit 1) t /\
  Forall (fun ev => is_write ev = false) t /\
  Exists (fun ev => is_error_log ev = true) t.

(** The events of the loop of [run]: those of the tasks and those of the
    pool. *)
Definition loop_event (ev : event) : Prop :=
  is_log ev || is_get ev || is_delay ev || is_update ev || is_pool ev = true.

(** [neighbours R l]: every element of [l] and its successor are related
    by [R]. *)
Fixpoint neighbours {A} (R : A -> A -> Prop) (l : list A) : Prop :=
  match l with
  | a :: (b :: _) as rest => R a b /\ neighbours R rest
  | _ => True
  end.

(** [b] may follow [a] in the sorted array: [comparefn(a, b) > 0] does
    not hold. *)
Definition may_follow {A} (comparefn : A -> A -> option Z) (a b : A) : Prop :=
  positive (comparefn a b) = false.

(** What [withRetry(fn, retries)] does from the world [w]: some attempt
    [k + 1 <= retries] ends the call, after [k] failed attempts each
    followed by a pause of one second; that attempt either does not throw
    or is the last one allowed; the call settles as this attempt does, in
    the world this attempt leaves, and nothing is attempted after it. *)
Definition withRetry_contract {A} (fn : M A) (retries : Z) (w : World)
  : Prop :=
  (exists k w1 t1,
      Z.of_nat k < retries /\
      failed_attempts fn 1000 k w = Some (w1, t1) /\
      (is_throw (fst (fst (fn w1))) = true -> Z.of_nat k = retries - 1)) /\
  (forall k w1 t1 o w2 t2,
      Z.of_nat k < retries ->
      failed_attempts fn 1000 k w = Some (w1, t1) ->
      fn w1 = (o, w2, t2) ->
      (is_throw o = true -> Z.of_nat k = retries - 1) ->
      withRetry fn retries w = (settled o, w2, t1 ++ t2)).

End Vocabulary.

(** * Scenarios *)

(** The stable sort keeps the elements of the array: it is a sort an
    engine may run whatever the comparison. *)
Definition insert_permutation {A} (comparefn : A -> A -> option Z)
    (element : A) :
  forall reversed,
    Permutation (insert comparefn element reversed) (element :: reversed).
Proof.
  induction reversed as [| tmp before IH]; [reflexivity |].
  cbn [insert]. destruct (positive (comparefn tmp element)); [| reflexivity].
  rewrite IH. apply perm_swap.
Qed.

Definition stable_sort_permutation {A} (comparefn : A -> A -> option Z)
    (l : list A) :
  Permutation (stable_sort comparefn l) l.
Proof.
  unfold stable_sort. rewrite <- Permutation_rev.
  assert (H : forall l reversed,
             Permutation
               (fold_left
                  (fun reversed element => insert comparefn element reversed)
                  l reversed)
               (l ++ reversed)).
  { clear l. induction l as [| a l IH]; intros reversed; [reflexivity |].
    cbn. rewrite IH, insert_permutation. symmetry. apply Permutation_middle. }
  rewrite H, app_nil_r. reflexivity.
Qed.

(** [path.isAbsolute] on a POSIX platform. *)
Definition posix_isAbsolute (p : string) : bool :=
  match p with
  | String "/"%char _ => true
  | _ => false
  end.

(** A world for the examples.  Its state counts the calls of
    [axios.get]; the [n]-th call answers [feed n].  cheerio makes the
    document [markup s] of the string [s], throws on [null], [undefined]
    and the other primitives, and finds no element in an object.
    The tracker lists [issues] and refuses the update of the issues
    [update_ok] rejects.  dayjs knows one date and [Date] two, read in
    UTC.  The platform is POSIX and the engine sorts by insertion.
    [JSON.stringify] and [replace] are placeholders: no statement reads
    the text they produce. *)
Definition scenario (issues : list issue)
    (feed : nat -> error + (Z * value))
    (markup : string -> list node)
    (fence object : string -> option string)
    (json : string -> error + value)
    (update_ok : Z -> bool) : Runtime :=
  {| World := nat;
     axios_get := fun _ n => (feed n, S n);
     cheerio_load := fun data =>
       match data with
       | VStr s => inr (markup s)
       | VUndefined | VNull =>
           inl (PlainError "cheerio.load() expects a string")
       | VBool _ | VNum _ =>
           inl (PlainError "Cannot create property 'prev' on a primitive")
       | VArr _ | VObj _ | VBuiltin _ => inr []
       end;
     cheerio_load_string := fun s e H =>
       match H in _ = r return match r with inl _ => False | inr _ => True end
       with eq_refl => I end;
     dayjs_parse := fun s =>
       if String.eqb s "2024-01-01" then Some 1704067200000 else None;
     dayjs_render := fun t _ =>
       if t =? 1704067200000 then "2024-01-01 00:00:00" else "1970-01-01 00:00:00";
     Date_now := fun _ => 1704067200000;
     Date_new := fun v =>
       match v with
       | VStr s =>
           if String.eqb s "2024-01-01 00:00:00" then Some 1704067200000
           else if String.eqb s "2024-01-02 00:00:00" then Some 1704153600000
           else None
       | VNum n => Some n
       | _ => None
       end;
     JSON_parse := json;
     JSON_stringify := fun _ => "{}";
     match_fence := fence;
     match_object := object;
     String_replace := fun s _ _ => s;
     octokit_paginate := fun w => (inr issues, w);
     octokit_issues_update := fun n _ w =>
       (if update_ok n then inr tt else inl (RequestError "socket hang up"), w);
     fs_mkdirSync := fun _ w => (inr tt, w);
     fs_writeFileSync := fun _ _ w => (inr tt, w);
     path_dirname := fun _ => ".";
     path_isAbsolute := posix_isAbsolute;
     Array_sort := @stable_sort;
     Array_sort_elements := @stable_sort_permutation;
     Array_sort_stable := fun A comparefn l _ => eq_refl |}.

(** The defaults of the action's inputs. *)
Definition defaults : Config :=
  {| RETRY_TIMES := 3;
     POSTS_COUNT := 2;
     DATAPATH := "all.json";
     DATE_FORMAT := "YYYY-MM-DD HH:mm:ss";
     CONCURRENCY_LIMIT := 10 |}.

(** The defaults, with a pool of two slots. *)
Definition two_slots : Config :=
  {| RETRY_TIMES := 3;
     POSTS_COUNT := 2;
     DATAPATH := "all.json";
     DATE_FORMAT := "YYYY-MM-DD HH:mm:ss";
     CONCURRENCY_LIMIT := 2 |}.

Definition no_match (s : string) : option string := None.

Definition no_json (s : string) : error + value :=
  inl (PlainError "Unexpected end of JSON input").

(** A feed that times out twice and then answers. *)
Definition flaky_feed (n : nat) : error + (Z * value) :=
  if (n <? 2)%nat then inl (RequestError "timeout of 5000ms exceeded")
  else inr (200, VStr "<rss><channel></channel></rss>").

Definition flaky : Runtime :=
  scenario [] flaky_feed (fun _ => []) no_match no_match no_json
    (fun _ => true).

(** One attempt at fetching, without the catch-all of [parseFeed]. *)
Definition fetch_once : @M flaky (Z * value) :=
  call (axios_get (VStr "https://example.com/rss"))
    (EvGet (VStr "https://example.com/rss")).


(** A feed whose body is the JSON text [null], which axios parses:
    [cheerio.load] throws on it. *)
Definition nullfeed : Runtime :=
  scenario [] (fun _ => inr (200, VNull))
    (fun s => [Text s])
    no_match no_match no_json (fun _ => true).

(** An RSS item whose [pubDate] is no date. *)
Definition undated_item : node :=
  Element "item" []
    [Element "title" [] [Text "Hello"];
     Element "link" [] [Text "https://x/1"];
     Element "pubDate" [] [Text "yesterday"]].

(** An RSS item with a date dayjs knows. *)
Definition dated_item : node :=
  Element "item" []
    [Element "title" [] [Text "Hello"];
     Element "link" [] [Text "https://x/1"];
     Element "pubDate" [] [Text "2024-01-01"]].

(** The double quote. *)
Definition dq : string := String (ascii_of_nat 34) EmptyString.

Definition quoted (s : string) : string := String.append dq (String.append s dq).

Definition cat (l : list string) : string := fold_right String.append "" l.

(** The JSON text of a block that declares no feed and embeds three
    posts: two dated, the older first, and one without a date. *)
Definition friend_json : string :=
  cat ["{"; quoted "name"; ":"; quoted "Ann"; ","; quoted "posts"; ":[";
       "{"; quoted "title"; ":"; quoted "Old"; ",";
            quoted "published"; ":"; quoted "2024-01-01 00:00:00"; ",";
            quoted "link"; ":"; quoted "https://x/1"; "},";
       "{"; quoted "title"; ":"; quoted "New"; ",";
            quoted "published"; ":"; quoted "2024-01-02 00:00:00"; ",";
            quoted "link"; ":"; quoted "https://x/2"; "},";
       "{"; quoted "title"; ":"; quoted "Draft"; ",";
            quoted "link"; ":"; quoted "https://x/0"; "}]}"].

Definition friend_body : string := cat ["```json "; friend_json; " ```"].

(** What [JSON.parse] returns for [friend_json]. *)
Definition friend_data : value :=
  VObj [("name", VStr "Ann");
        ("posts",
         VArr [VObj [("title", VStr "Old");
                     ("published", VStr "2024-01-01 00:00:00");
                     ("link", VStr "https://x/1")];
               VObj [("title", VStr "New");
                     ("published", VStr "2024-01-02 00:00:00");
                     ("link", VStr "https://x/2")];
               VObj [("title", VStr "Draft"); ("link", VStr "https://x/0")]])].

(** Two issues: the second has no body. *)
Definition friend_issues : list issue :=
  [ {| number := 2; body := Some friend_body; labels := [] |};
    {| number := 1; body := None; labels := [] |} ].

Definition friend_fence (s : string) : option string :=
  if String.eqb s friend_body then Some friend_body else None.

Definition friend_object (s : string) : option string :=
  if String.eqb s friend_body then Some friend_json else None.

Definition friend_parse (s : string) : error + value :=
  if String.eqb s friend_json then inr friend_data
  else inl (PlainError "Unexpected token in JSON").

(** The tracker accepts every update. *)
Definition friends : Runtime :=
  scenario friend_issues flaky_feed (fun _ => [])
    friend_fence friend_object friend_parse (fun _ => true).

(** The tracker refuses the update of issue 2. *)
Definition refused : Runtime :=
  scenario friend_issues flaky_feed (fun _ => [])
    friend_fence friend_object friend_parse (fun n => negb (n =? 2)).

Definition friend_article (t published l : value) : article :=
  {| title := t; created := published; link := l;
     author := VStr "Ann"; avatar := VStr "" |}.

Definition article_Old : article :=
  friend_article (VStr "Old") (VStr "2024-01-01 00:00:00") (VStr "https://x/1").

Definition article_New : article :=
  friend_article (VStr "New") (VStr "2024-01-02 00:00:00") (VStr "https://x/2").

Definition article_Draft : article :=
  friend_article (VStr "Draft") VUndefined (VStr "https://x/0").

(** The report of the two issues. *)
Definition friend_report : report :=
  {| friends_num := 2;
     report_active_num := 2;
     report_error_num := 0;
     report_article_num := 3;
     last_updated_time := "2024-01-01 00:00:00";
     article_data := [article_New; article_Old; article_Draft] |}.

(** The first scenario of the specification: one issue whose block
    declares a feed and embeds no post; the feed answers with one RSS
    item. *)
Definition live_json : string :=
  cat ["{"; quoted "feed"; ":"; quoted "https://example.com/rss"; "}"].

Definition live_body : string := cat ["```json "; live_json; " ```"].

Definition live_data : value := VObj [("feed", VStr "https://example.com/rss")].

Definition live_issue : issue :=
  {| number := 3; body := Some live_body; labels := [] |}.

Definition live_feed : list node :=
  [Element "rss" [] [Element "channel" [] [dated_item]]].

Definition live : Runtime :=
  scenario [live_issue]
    (fun _ => inr (200, VStr "<rss>...</rss>"))
    (fun _ => live_feed)
    (fun s => if String.eqb s live_body then Some live_body else None)
    (fun s => if String.eqb s live_body then Some live_json else None)
    (fun s => if String.eqb s live_json then inr live_data
              else inl (PlainError "Unexpected token in JSON"))
    (fun _ => true).

(** An issue whose block embeds one post and declares as its feed an
    object whose [toString] is no function: the template literal of the
    line logged before the fetch cannot convert it to a string. *)
Definition opaque_json : string :=
  cat ["{"; quoted "feed"; ":{"; quoted "toString"; ":1},";
       quoted "posts"; ":[";
       "{"; quoted "title"; ":"; quoted "Old"; ",";
            quoted "published"; ":"; quoted "2024-01-01 00:00:00"; ",";
            quoted "link"; ":"; quoted "https://x/1"; "}]}"].

Definition opaque_body : string := cat ["```json "; opaque_json; " ```"].

Definition opaque_post : value :=
  VObj [("title", VStr "Old");
        ("published", VStr "2024-01-01 00:00:00");
        ("link", VStr "https://x/1")].

Definition opaque_data : value :=
  VObj [("feed", VObj [("toString", VNum 1)]); ("posts", VArr [opaque_post])].

Definition opaque_issue : issue :=
  {| number := 4; body := Some opaque_body; labels := [] |}.

Definition opaque : Runtime :=
  scenario [opaque_issue] flaky_feed (fun _ => [])
    (fun s => if String.eqb s opaque_body then Some opaque_body else None)
    (fun s => if String.eqb s opaque_body then Some opaque_json else None)
    (fun s => if String.eqb s opaque_json then inr opaque_data
              else inl (PlainError "Unexpected token in JSON"))
    (fun _ => true).

(** * Vocabulary of the further properties *)

Section MoreVocabulary.

Context {RT : Runtime}.

(** The labels a call of [getIssues] excludes: none when the argument is
    missing. *)
Definition excluded_of (exclude_labels : option (list string)) : list string :=
  match exclude_labels with
  | Some l => l
  | None => []
  end.

(** The numbers of the issues whose update was requested, in the order of
    the requests. *)
Fixpoint updated (t : list event) : list Z :=
  match t with
  | [] => []
  | EvUpdate n _ _ :: t' => n :: updated t'
  | _ :: t' => updated t'
  end.

(** The path [run] computes for the directory of the report:
    [DATAPATH] without its leading slashes when it is absolute. *)
Definition dataPath (cfg : Config) : string :=
  if path_isAbsolute (DATAPATH cfg) then strip_slashes (DATAPATH cfg)
  else DATAPATH cfg.

(** The report of a run that found no issue, made in the world [w]. *)
Definition empty_report (cfg : Config) (w : World) : report :=
  {| friends_num := 0;
     report_active_num := 0;
     report_error_num := 0;
     report_article_num := 0;
     last_updated_time :=
       formatDate (DateObject (Date_now w)) (DATE_FORMAT cfg);
     article_data := [] |}.

(** An article whose [created] field [Date] can read. *)
Definition dated (a : article) : Prop := Date_new (created a) <> None.

(** [a] is at least as recent as [b], both dates being valid. *)
Definition not_older (a b : article) : Prop :=
  exists ta tb,
    Date_new (created a) = Some ta /\ Date_new (created b) = Some tb /\
    tb <= ta.

(** The text of the structured block of an issue: what the two regular
    expressions extract from a non-empty body, [jsonMatch[0]]. *)
Definition block_text (i : issue) : option string :=
  match body i with
  | Some b =>
      if string_truthy b then
        match match_fence b with
        | Some m => match_object m
        | None => None
        end
      else None
  | None => None
  end.

(** What a run does to the outside world, apart from its log lines and
    the directory it makes: the requests, the updates, the write of the
    report, the exit, and the moves of the pool. *)
Definition is_effect (ev : event) : bool :=
  match ev with
  | EvLog _ _ _ | EvMkdir _ _ => false
  | _ => true
  end.

Definition effects (t : list event) : list event := filter is_effect t.

(** Two programs settle alike, leave the same world and have the same
    effects, from every world. *)
Definition same {A} (m1 m2 : M A) : Prop :=
  forall w,
    fst (fst (m1 w)) = fst (fst (m2 w)) /\
    snd (fst (m1 w)) = snd (fst (m2 w)) /\
    effects (snd (m1 w)) = effects (snd (m2 w)).

End MoreVocabulary.

(** Calls of [add] that were not awaited, for a pool of [c] slots: [c]
    tasks fill the pool and one more joins the queue; the first task
    finishes and wakes it; before it resumes, another task is submitted
    and finds a free slot; then the woken task resumes. *)
Definition overload (c : nat) : list segment :=
  map (fun n => Submit (Z.of_nat n)) (seq 1 c) ++
  [Submit (Z.of_nat (S c)); Finish 1; Submit (Z.of_nat (S (S c))); Resume].

(** Two issues, the first of which carries the label [blocked]. *)
Definition labelled_issues : list issue :=
  [ {| number := 5; body := None; labels := ["friend"; "blocked"] |};
    {| number := 4; body := None; labels := ["friend"] |} ].

Definition labelled : Runtime :=
  scenario labelled_issues flaky_feed (fun _ => []) no_match no_match
    no_json (fun _ => true).

(** The configuration of a run whose [retry_times] input is 0. *)
Definition no_retry : Config :=
  {| RETRY_TIMES := 0;
     POSTS_COUNT := 2;
     DATAPATH := "all.json";
     DATE_FORMAT := "YYYY-MM-DD HH:mm:ss";
     CONCURRENCY_LIMIT := 10 |}.

(** A configuration whose pool has no slot. *)
Definition no_slot : Config :=
  {| RETRY_TIMES := 3;
     POSTS_COUNT := 2;
     DATAPATH := "all.json";
     DATE_FORMAT := "YYYY-MM-DD HH:mm:ss";
     CONCURRENCY_LIMIT := 0 |}.

(** The world of [friends] with a tracker that refuses to list the
    issues. *)
Definition unlisted : Runtime :=
  {| World := nat;
     axios_get := @axios_get friends;
     cheerio_load := @cheerio_load friends;
     cheerio_load_string := @cheerio_load_string friends;
     dayjs_parse := @dayjs_parse friends;
     dayjs_render := @dayjs_render friends;
     Date_now := @Date_now friends;
     Date_new := @Date_new friends;
     JSON_parse := @JSON_parse friends;
     JSON_stringify := @JSON_stringify friends;
     match_fence := @match_fence friends;
     match_object := @match_object friends;
     String_replace := @String_replace friends;
     octokit_paginate := fun w => (inl (RequestError "connect ETIMEDOUT"), w);
     octokit_issues_update := @octokit_issues_update friends;
     fs_mkdirSync := @fs_mkdirSync friends;
     fs_writeFileSync := @fs_writeFileSync friends;
     path_dirname := @path_dirname friends;
     path_isAbsolute := @path_isAbsolute friends;
     Array_sort := @Array_sort friends;
     Array_sort_elements := @Array_sort_elements friends;
     Array_sort_stable := @Array_sort_stable friends |}.

(** A block that embeds two dated posts, the older first. *)
Definition pair_json : string :=
  cat ["{"; quoted "name"; ":"; quoted "Ann"; ","; quoted "posts"; ":[";
       "{"; quoted "title"; ":"; quoted "Old"; ",";
            quoted "published"; ":"; quoted "2024-01-01 00:00:00"; ",";
            quoted "link"; ":"; quoted "https://x/1"; "},";
       "{"; quoted "title"; ":"; quoted "New"; ",";
            quoted "published"; ":"; quoted "2024-01-02 00:00:00"; ",";
            quoted "link"; ":"; quoted "https://x/2"; "}]}"].

Definition pair_body : string := cat ["```json "; pair_json; " ```"].

Definition pair_data : value :=
  VObj [("name", VStr "Ann");
        ("posts",
         VArr [VObj [("title", VStr "Old");
                     ("published", VStr "2024-01-01 00:00:00");
                     ("link", VStr "https://x/1")];
               VObj [("title", VStr "New");
                     ("published", VStr "2024-01-02 00:00:00");
                     ("link", VStr "https://x/2")]])].

Definition pair_issue : issue :=
  {| number := 7; body := Some pair_body; labels := [] |}.

Definition pair : Runtime :=
  scenario [pair_issue] flaky_feed (fun _ => [])
    (fun s => if String.eqb s pair_body then Some pair_body else None)
    (fun s => if String.eqb s pair_body then Some pair_json else None)
    (fun s => if String.eqb s pair_json then inr pair_data
              else inl (PlainError "Unexpected token in JSON"))
    (fun _ => true).

(** A block whose array of posts holds a [null]. *)
Definition nulled_json : string :=
  cat ["{"; quoted "name"; ":"; quoted "Bob"; ","; quoted "posts"; ":[null]}"].

Definition nulled_body : string := cat ["```json "; nulled_json; " ```"].

Definition nulled_data : value :=
  VObj [("name", VStr "Bob"); ("posts", VArr [VNull])].

Definition nulled_issue : issue :=
  {| number := 9; body := Some nulled_body; labels := [] |}.

(** Two issues: the block of the second holds the [null] post. *)
Definition nulled : Runtime :=
  scenario [pair_issue; nulled_issue] flaky_feed (fun _ => [])
    (fun s => if String.eqb s pair_body then Some pair_body
              else if String.eqb s nulled_body then Some nulled_body
              else None)
    (fun s => if String.eqb s pair_body then Some pair_json
              else if String.eqb s nulled_body then Some nulled_json
              else None)
    (fun s => if String.eqb s pair_json then inr pair_data
              else if String.eqb s nulled_json then inr nulled_data
              else inl (PlainError "Unexpected token in JSON"))
    (fun _ => true).

Unset Implicit Arguments.

(** The trace of an aborted run: it ends with the exit, holds no written
    report and holds the error line of the [catch] block of [run]. *)
Ltac run_aborted :=
  unfold aborted; split;
  [ cbn; rewrite ?in_app_iff; cbn;
    repeat first [left; reflexivity | right]
  | split;
    [ repeat match goal with
        | |- Forall _ (_ ++ _) => apply Forall_app; split
        | |- Forall _ (_ :: _) => apply Forall_cons; [reflexivity |]
        | |- Forall _ [] => apply Forall_nil
        | H : Forall _ ?t |- Forall _ ?t =>
            eapply Forall_impl; [| exact H]; cbv beta;
            let ev := fresh "ev" in
            intros ev; destruct ev; unfold loop_event; cbn; intros;
            (reflexivity || congruence)
        end
    | repeat first [ apply Exists_cons_hd; reflexivity
                   | apply Exists_cons_tl
                   | apply Exists_app; right ] ] ].

(** [written_event H]: where in a trace the write [H] speaks of can be.
    The traces of the listing and of the loop hold no write. *)
Ltac written_event H :=
  cbn in H;
  repeat (rewrite in_app_iff in H || cbn [In] in H);
  repeat match goal with
    | H' : _ \/ _ |- _ => destruct H' as [H' | H']
    | H' : False |- _ => destruct H'
    | H' : In _ ?t, HF : Forall _ ?t |- _ =>
        rewrite Forall_forall in HF; specialize (HF _ H');
        cbn in HF; first [contradiction | discriminate HF]
    | H' : handleError_event ?e _ _ = EvWriteFile _ _ _ |- _ =>
        destruct e; discriminate H'
    | H' : _ = EvWriteFile _ _ _ |- _ =>
        first [discriminate H' | injection H' as <- <- <-]
    end.

(** * The logic of [post] *)

Section PostRules.

Context {RT : Runtime}.

Lemma post_ret {A} (a : A) (Q : outcome A -> list event -> Prop) :
  Q (Ret a) [] -> post (ret a) Q.
Proof. intros H w. exact H. Qed.

Lemma post_throw {A} (e : error) (Q : outcome A -> list event -> Prop) :
  Q (Throw e) [] -> post (throw e) Q.
Proof. intros H w. exact H. Qed.

Lemma post_hang {A} (Q : outcome A -> list event -> Prop) :
  Q Hang [] -> post hang Q.
Proof. intros H w. exact H. Qed.

Lemma post_emit (ev : event) (Q : outcome unit -> list event -> Prop) :
  Q (Ret tt) [ev] -> post (emit ev) Q.
Proof. intros H w. exact H. Qed.

Lemma post_logger level template args
    (Q : outcome unit -> list event -> Prop) :
  Q (Ret tt) [EvLog level template args] -> post (logger level template args) Q.
Proof. intros H w. exact H. Qed.

Lemma post_lift {A} (r : error + A) (Q : outcome A -> list event -> Prop) :
  (forall a, r = inr a -> Q (Ret a) []) ->
  (forall e, r = inl e -> Q (Throw e) []) ->
  post (lift r) Q.
Proof. intros Hr He w. destruct r; cbn; auto. Qed.

Lemma post_call {A} (f : World -> (error + A) * World) (ev : bool -> event)
    (Q : outcome A -> list event -> Prop) :
  (forall a, Q (Ret a) [ev true]) ->
  (forall e, Q (Throw e) [ev false]) ->
  post (call f ev) Q.
Proof.
  intros Hr He w. unfold call. destruct (f w) as [[e | a] w1]; cbn; auto.
Qed.

Lemma post_bind {A B} (m : M A) (f : A -> M B)
    (Q : outcome B -> list event -> Prop) :
  post m (fun o t =>
            match o with
            | Ret a => post (f a) (fun o' t' => Q o' (t ++ t'))
            | Throw e => Q (Throw e) t
            | Hang => Q Hang t
            end) ->
  post (bind m f) Q.
Proof.
  intros H w. specialize (H w). unfold bind.
  destruct (m w) as [[[a | e |] w1] t1]; cbn in *; auto.
  specialize (H w1). destruct (f a w1) as [[o w2] t2]. exact H.
Qed.

Lemma post_try_catch {A} (m : M A) (h : error -> M A)
    (Q : outcome A -> list event -> Prop) :
  post m (fun o t =>
            match o with
            | Ret a => Q (Ret a) t
            | Throw e => post (h e) (fun o' t' => Q o' (t ++ t'))
            | Hang => Q Hang t
            end) ->
  post (try_catch m h) Q.
Proof.
  intros H w. specialize (H w). unfold try_catch.
  destruct (m w) as [[[a | e |] w1] t1]; cbn in *; auto.
  specialize (H w1). destruct (h e w1) as [[o w2] t2]. exact H.
Qed.

Lemma post_try_finally {A} (m : M A) (fin : M unit)
    (Q : outcome A -> list event -> Prop) :
  post m (fun o t =>
            match o with
            | Ret a =>
                post fin (fun o' t' =>
                            Q (match o' with
                               | Ret _ => Ret a
                               | Throw e => Throw e
                               | Hang => Hang
                               end) (t ++ t'))
            | Throw e =>
                post fin (fun o' t' =>
                            Q (match o' with
                               | Ret _ => Throw e
                               | Throw e' => Throw e'
                               | Hang => Hang
                               end) (t ++ t'))
            | Hang => Q Hang t
            end) ->
  post (try_finally m fin) Q.
Proof.
  intros H w. specialize (H w). unfold try_finally.
  destruct (m w) as [[[a | e |] w1] t1]; cbn in *; auto;
    specialize (H w1); destruct (fin w1) as [[o w2] t2]; exact H.
Qed.

Lemma post_conseq {A} (m : M A) (P Q : outcome A -> list event -> Prop) :
  post m P -> (forall o t, P o t -> Q o t) -> post m Q.
Proof. intros H HPQ w. apply HPQ, H. Qed.

Lemma post_run {A} (m : M A) (Q : outcome A -> list event -> Prop) w o w' t :
  post m Q -> m w = (o, w', t) -> Q o t.
Proof. intros H E. specialize (H w). rewrite E in H. exact H. Qed.

Lemma post_handleError e context args
    (Q : outcome unit -> list event -> Prop) :
  Q (Ret tt) [handleError_event e context args] ->
  post (handleError e context args) Q.
Proof. intros H w. destruct e; exact H. Qed.

Lemma post_now (Q : outcome Z -> list event -> Prop) :
  (forall t, Q (Ret t) []) -> post now Q.
Proof. intros H w. apply H. Qed.

End PostRules.

(** One step of the rules, chosen by the shape of the program. *)
Ltac wp_step :=
  lazymatch goal with
  | |- post (bind _ _) _ => apply post_bind
  | |- post (try_catch _ _) _ => apply post_try_catch
  | |- post (try_finally _ _) _ => apply post_try_finally
  | |- post (ret _) _ => apply post_ret
  | |- post (throw _) _ => apply post_throw
  | |- post hang _ => apply post_hang
  | |- post (logger _ _ _) _ => apply post_logger
  | |- post (handleError _ _ _) _ => apply post_handleError
  | |- post (emit _) _ => apply post_emit
  | |- post (lift _) _ => apply post_lift; intros
  | |- post (call _ _) _ => apply post_call; intros
  | |- post now _ => apply post_now; intros
  | |- post (if ?b then _ else _) _ => destruct b eqn:?
  | |- post (match ?x with _ => _ end) _ => destruct x eqn:?
  end; cbn beta iota.

Ltac wp := repeat wp_step.

Ltac splits := repeat match goal with |- _ /\ _ => split end.

(** Facts on the events of a trace built by the rules. *)
Ltac events :=
  repeat match goal with
    | |- Forall _ (_ ++ _) => apply Forall_app; split
    | |- Forall _ (_ :: _) => apply Forall_cons
    | |- Forall _ [] => apply Forall_nil
    | H : Forall _ ?t |- Forall _ ?t =>
        first [ exact H
              | eapply Forall_impl; [| exact H]; cbv beta;
                let ev := fresh "ev" in
                intros ev; destruct ev;
                unfold feed_event, inner_event, task_event, loop_event,
                  running_ok;
                cbn; intros;
                (reflexivity || congruence || assumption || tauto) ]
    end;
  try reflexivity; try exact I.

(** * withRetry *)

Section WithRetry.

Context {RT : Runtime}.

Lemma withRetry_loop_attempts {A} (fn : M A) (retries delay : Z) :
  forall (k todo : nat) (i : Z) (w w1 w2 : World) t1 t2 (o : outcome A),
    i + Z.of_nat todo = retries ->
    (k < todo)%nat ->
    failed_attempts fn delay k w = Some (w1, t1) ->
    fn w1 = (o, w2, t2) ->
    (is_throw o = true -> S k = todo) ->
    withRetry_loop fn retries delay todo i w = (settled o, w2, t1 ++ t2).
Proof.
  induction k as [| k IH]; intros todo i w w1 w2 t1 t2 o Hi Hk Hf Hfn Hlast.
  - cbn in Hf. injection Hf as <- <-.
    destruct todo as [| todo]; [lia |]. cbn. rewrite Hfn.
    destruct o as [a | e |]; cbn; try reflexivity.
    specialize (Hlast eq_refl).
    replace (i =? retries - 1) with true by (symmetry; apply Z.eqb_eq; lia).
    reflexivity.
  - cbn in Hf.
    destruct (fn w) as [[[a | e |] wa] ta] eqn:Ew; try discriminate.
    destruct (failed_attempts fn delay k wa) as [[wb tb] |] eqn:Ef;
      try discriminate.
    injection Hf as Hw Ht. subst w1 t1.
    destruct todo as [| todo]; [lia |]. cbn. rewrite Ew.
    replace (i =? retries - 1) with false by (symmetry; apply Z.eqb_neq; lia).
    unfold bind, sleep, emit.
    rewrite (IH todo (i + 1) wa wb w2 tb t2 o);
      [| lia | lia | assumption | assumption
       | intros H; specialize (Hlast H); lia].
    cbn. rewrite <- app_assoc. reflexivity.
Qed.

Lemma withRetry_loop_total {A} (fn : M A) (retries delay : Z) :
  forall (todo : nat) (i : Z) (w : World),
    i + Z.of_nat todo = retries ->
    (0 < todo)%nat ->
    exists k w1 t1,
      (k < todo)%nat /\
      failed_attempts fn delay k w = Some (w1, t1) /\
      (is_throw (fst (fst (fn w1))) = true -> S k = todo).
Proof.
  induction todo as [| todo IH]; intros i w Hi Hpos; [lia |].
  destruct (fn w) as [[o wa] ta] eqn:Ew.
  destruct (is_throw o) eqn:Eo.
  - destruct todo as [| todo'].
    + exists O, w, []. cbn. repeat split; auto.
    + destruct (IH (i + 1) wa) as (k & w1 & t1 & Hk & Hf & Hl); try lia.
      exists (S k), w1, (ta ++ EvDelay delay :: t1). repeat split; try lia.
      * cbn. rewrite Ew. destruct o; try discriminate. rewrite Hf. reflexivity.
      * intros H. specialize (Hl H). lia.
  - exists O, w, []. cbn. repeat split; try lia.
    rewrite Ew. cbn. congruence.
Qed.

(** A first attempt that resolves ends the call. *)
Lemma withRetry_first_attempt {A} (fn : M A) (retries : Z) w a w1 t1 :
  1 <= retries ->
  fn w = (Ret a, w1, t1) ->
  withRetry fn retries w = (Ret (Some a), w1, t1).
Proof.
  intros Hn Hfn. unfold withRetry, withRetry_delay.
  destruct (Z.to_nat retries) as [| todo] eqn:Htodo; [lia |].
  cbn [withRetry_loop]. rewrite Hfn. reflexivity.
Qed.

(** C5: for every attempt function and every [retries >= 1],
    [withRetry] makes at most [retries] attempts with a pause of one
    second after every failed attempt but the last; the first attempt that
    does not throw ends the call and its result is returned, so a success
    on the last attempt after [retries - 1] failures is returned; when all
    [retries] attempts throw, the error of the last one is thrown. *)
Theorem withRetry_attempts {A} (fn : M A) (retries : Z) (w : World) :
  1 <= retries -> withRetry_contract fn retries w.
Proof.
  intros Hn. unfold withRetry_contract, withRetry, withRetry_delay. split.
  - destruct (withRetry_loop_total fn retries 1000 (Z.to_nat retries) 0 w)
      as (k & w1 & t1 & Hk & Hf & Hl); try lia.
    exists k, w1, t1. repeat split; try lia; auto.
    intros H. specialize (Hl H). lia.
  - intros k w1 t1 o w2 t2 Hk Hf Hfn Hl.
    apply (withRetry_loop_attempts fn retries 1000 k) with (w1 := w1);
      auto; try lia.
    intros H. specialize (Hl H). lia.
Qed.

End WithRetry.

Lemma withRetry_attempts_witness :
  1 <= 3 /\
  Z.of_nat 2 < 3 /\
  failed_attempts fetch_once 1000 2 0%nat =
  Some (2%nat,
        [EvGet (VStr "https://example.com/rss") false; EvDelay 1000;
         EvGet (VStr "https://example.com/rss") false; EvDelay 1000]) /\
  fetch_once 2%nat =
  (Ret (200, VStr "<rss><channel></channel></rss>"), 3%nat,
   [EvGet (VStr "https://example.com/rss") true]) /\
  withRetry fetch_once 3 0%nat =
  (Ret (Some (200, VStr "<rss><channel></channel></rss>")), 3%nat,
   [EvGet (VStr "https://example.com/rss") false; EvDelay 1000;
    EvGet (VStr "https://example.com/rss") false; EvDelay 1000]
   ++ [EvGet (VStr "https://example.com/rss") true]).
Proof.
  split; [lia |]. split; [reflexivity |]. split; [reflexivity |].
  split; [reflexivity |].
  apply (proj2 (withRetry_attempts fetch_once 3 0%nat ltac:(lia))
           2%nat 2%nat _ (Ret (200, VStr "<rss><channel></channel></rss>"))
           3%nat [EvGet (VStr "https://example.com/rss") true]).
  - reflexivity.
  - reflexivity.
  - reflexivity.
  - discriminate.
Defined.

(** The scenario of the witness, evaluated: two timeouts, two pauses of
    one second, and the answer of the third attempt. *)
Example withRetry_third_attempt :
  withRetry fetch_once 3 0%nat =
  (Ret (Some (200, VStr "<rss><channel></channel></rss>")), 3%nat,
   [EvGet (VStr "https://example.com/rss") false; EvDelay 1000;
    EvGet (VStr "https://example.com/rss") false; EvDelay 1000;
    EvGet (VStr "https://example.com/rss") true]).
Proof. reflexivity. Qed.

(** With two attempts allowed the second timeout is thrown. *)
Example withRetry_exhausted :
  withRetry fetch_once 2 0%nat =
  (Throw (RequestError "timeout of 5000ms exceeded"), 2%nat,
   [EvGet (VStr "https://example.com/rss") false; EvDelay 1000;
    EvGet (VStr "https://example.com/rss") false]).
Proof. reflexivity. Qed.

(** * ConcurrencyPool *)

Section Pool.

Context {RT : Runtime}.

Lemma enqueued_app t1 t2 : enqueued (t1 ++ t2) = enqueued t1 ++ enqueued t2.
Proof.
  induction t1 as [| ev t1 IH]; [reflexivity |].
  destruct ev; cbn; rewrite IH; reflexivity.
Qed.

Lemma admitted_app t1 t2 : admitted (t1 ++ t2) = admitted t1 ++ admitted t2.
Proof.
  induction t1 as [| ev t1 IH]; [reflexivity |].
  destruct ev; cbn; rewrite IH; reflexivity.
Qed.

Lemma firstn_1_tl {A} (l : list A) : firstn 1 l ++ tl l = l.
Proof. destruct l; reflexivity. Qed.

Lemma submitted_app t1 t2 : submitted (t1 ++ t2) = submitted t1 ++ submitted t2.
Proof.
  induction t1 as [| ev t1 IH]; [reflexivity |].
  destruct ev; cbn; rewrite IH; reflexivity.
Qed.

Lemma started_app t1 t2 : started (t1 ++ t2) = started t1 ++ started t2.
Proof.
  induction t1 as [| ev t1 IH]; [reflexivity |].
  destruct ev; cbn; rewrite IH; reflexivity.
Qed.

Lemma interleave_app : forall l1 s l2,
  interleave s (l1 ++ l2) =
  (fst (interleave (fst (interleave s l1)) l2),
   snd (interleave s l1) ++ snd (interleave (fst (interleave s l1)) l2)).
Proof.
  induction l1 as [| a l1 IH]; intros s l2.
  - cbn. destruct (interleave s l2). reflexivity.
  - cbn [app interleave]. destruct (segment_step s a) as [s1 t1].
    rewrite IH. destruct (interleave s1 l1) as [s2 t2]. cbn [fst snd].
    rewrite app_assoc. reflexivity.
Qed.

(** No segment changes the ceiling. *)
Lemma segment_step_ceiling s a :
  maxConcurrency (pool_of (fst (segment_step s a))) =
  maxConcurrency (pool_of s).
Proof.
  destruct a as [id | | id]; cbn.
  - destruct (maxConcurrency (pool_of s) <=? running (pool_of s)); reflexivity.
  - destruct (woken s); reflexivity.
  - reflexivity.
Qed.

Lemma interleave_max : forall l s,
  maxConcurrency (pool_of (fst (interleave s l))) = maxConcurrency (pool_of s).
Proof.
  induction l as [| a l IH]; intros s; [reflexivity |].
  cbn [interleave]. pose proof (segment_step_ceiling s a) as Hstep.
  destruct (segment_step s a) as [s1 t1]. specialize (IH s1).
  destruct (interleave s1 l) as [s2 t2]. cbn [fst] in *.
  rewrite IH. exact Hstep.
Qed.

(** No segment leaves a task in the queue next to a free slot. *)
Lemma segment_step_no_idle_slot s a :
  no_idle_slot s -> no_idle_slot (fst (segment_step s a)).
Proof.
  unfold no_idle_slot, zlength. intros Hs.
  pose proof (Zle_0_nat (List.length (woken s))) as Hlen.
  destruct a as [id | | id]; cbn.
  - destruct (maxConcurrency (pool_of s) <=? running (pool_of s)) eqn:Hfull;
      cbn; intros Hq.
    + apply Z.leb_le in Hfull. lia.
    + specialize (Hs Hq). lia.
  - destruct (woken s) as [| next rest] eqn:Hw; cbn; intros Hq.
    + rewrite Hw. exact (Hs Hq).
    + specialize (Hs Hq). cbn [List.length] in Hs. lia.
  - intros Hq. destruct (queue (pool_of s)) as [| next rest] eqn:Hqueue;
      [contradiction |].
    specialize (Hs ltac:(discriminate)).
    rewrite length_app. cbn [firstn List.length]. lia.
Qed.

Lemma interleave_no_idle_slot : forall l s,
  no_idle_slot s -> no_idle_slot (fst (interleave s l)).
Proof.
  induction l as [| a l IH]; intros s Hs; [exact Hs |].
  cbn [interleave]. pose proof (segment_step_no_idle_slot s a Hs) as Hstep.
  destruct (segment_step s a) as [s1 t1]. specialize (IH s1 Hstep).
  destruct (interleave s1 l) as [s2 t2]. exact IH.
Qed.

(** For a disciplined caller the tasks start in the order in which they
    were submitted: the submitted tasks are those that started, then the
    woken waiters, then the queue. *)
Lemma interleave_in_order : forall l s past,
  disciplined s l ->
  no_idle_slot s ->
  submitted past = started past ++ woken s ++ queue (pool_of s) ->
  submitted (past ++ snd (interleave s l)) =
  started (past ++ snd (interleave s l)) ++
  woken (fst (interleave s l)) ++ queue (pool_of (fst (interleave s l))).
Proof.
  induction l as [| a l IH]; intros s past Hd Hs Hpast.
  - cbn. rewrite app_nil_r. exact Hpast.
  - cbn [interleave]. destruct Hd as [Ha Hd].
    pose proof (segment_step_no_idle_slot s a Hs) as Hidle.
    destruct (segment_step s a) as [s1 t1] eqn:Hstep. cbn [fst] in Hd, Hidle.
    specialize (IH s1 (past ++ t1) Hd Hidle).
    destruct (interleave s1 l) as [s2 t2]. cbn [fst snd] in *.
    rewrite app_assoc. apply IH. clear IH Hd Hidle.
    rewrite submitted_app, started_app, Hpast.
    destruct a as [id | | id]; cbn in Hstep.
    + rewrite Ha in *.
      destruct (maxConcurrency (pool_of s) <=? running (pool_of s)) eqn:Hfull;
        injection Hstep as <- <-; cbn; rewrite ?app_nil_r, <- ?app_assoc;
        [reflexivity |].
      apply Z.leb_gt in Hfull.
      destruct (queue (pool_of s)) as [| next rest] eqn:Hq;
        [rewrite ?app_nil_r; reflexivity |].
      unfold no_idle_slot in Hs. rewrite Hq, Ha in Hs.
      specialize (Hs ltac:(discriminate)). cbn in Hs. lia.
    + destruct (woken s) as [| next rest] eqn:Hw; injection Hstep as <- <-;
        cbn; rewrite ?Hw, ?app_nil_r, <- ?app_assoc; reflexivity.
    + injection Hstep as <- <-. cbn.
      destruct (queue (pool_of s)); cbn; rewrite ?app_nil_r, <- ?app_assoc;
        reflexivity.
Qed.

(** Tasks submitted to a full pool join the queue in the order of the
    calls, and none starts. *)
Lemma submit_full : forall ids ceiling r q,
  ceiling <= r ->
  fst (interleave
         {| pool_of := {| maxConcurrency := ceiling; running := r;
                          queue := q |};
            woken := [] |} (map Submit ids)) =
  {| pool_of := {| maxConcurrency := ceiling; running := r;
                   queue := q ++ ids |};
     woken := [] |} /\
  started
    (snd (interleave
            {| pool_of := {| maxConcurrency := ceiling; running := r;
                             queue := q |};
               woken := [] |} (map Submit ids))) = [].
Proof.
  induction ids as [| id ids IH]; intros ceiling r q Hfull.
  - cbn. rewrite app_nil_r. split; reflexivity.
  - cbn [map interleave segment_step pool_of maxConcurrency running queue
           woken].
    replace (ceiling <=? r) with true by (symmetry; apply Z.leb_le; exact Hfull).
    destruct (IH ceiling r (q ++ [id]) Hfull) as [IHs IHt].
    destruct (interleave _ (map Submit ids)) as [s2 t2]. cbn [fst snd] in *.
    rewrite IHs, <- app_assoc. split; [reflexivity | exact IHt].
Qed.

(** Tasks submitted at once to a pool with free slots and nobody waiting:
    as many start as there are free slots, in the order of the calls, and
    the others wait in that order. *)
Lemma submit_free : forall ids ceiling r,
  r <= ceiling ->
  fst (interleave
         {| pool_of := {| maxConcurrency := ceiling; running := r;
                          queue := [] |};
            woken := [] |} (map Submit ids)) =
  {| pool_of := {| maxConcurrency := ceiling;
                   running := Z.min ceiling (r + zlength ids);
                   queue := skipn (Z.to_nat (ceiling - r)) ids |};
     woken := [] |} /\
  started
    (snd (interleave
            {| pool_of := {| maxConcurrency := ceiling; running := r;
                             queue := [] |};
               woken := [] |} (map Submit ids))) =
  firstn (Z.to_nat (ceiling - r)) ids.
Proof.
  induction ids as [| id ids IH]; intros ceiling r Hr.
  - cbn. rewrite skipn_nil, firstn_nil. unfold zlength. cbn.
    replace (Z.min ceiling (r + 0)) with r by lia. split; reflexivity.
  - destruct (Z.eq_dec r ceiling) as [-> | Hfree].
    + destruct (submit_full (id :: ids) ceiling ceiling [] ltac:(lia))
        as [Hs Ht].
      rewrite Hs, Ht. replace (ceiling - ceiling) with 0 by lia.
      pose proof (Zle_0_nat (List.length (id :: ids))). unfold zlength.
      replace (Z.min ceiling (ceiling + Z.of_nat (List.length (id :: ids))))
        with ceiling by lia.
      split; reflexivity.
    + cbn [map interleave segment_step pool_of maxConcurrency running queue
             woken].
      replace (ceiling <=? r) with false by (symmetry; apply Z.leb_gt; lia).
      unfold acquired. cbn [maxConcurrency running queue].
      destruct (IH ceiling (r + 1) ltac:(lia)) as [IHs IHt].
      destruct (interleave _ (map Submit ids)) as [s2 t2]. cbn [fst snd] in *.
      replace (Z.to_nat (ceiling - r)) with (S (Z.to_nat (ceiling - (r + 1))))
        by lia.
      cbn [skipn firstn started app]. rewrite IHs, IHt.
      unfold zlength. cbn [List.length].
      replace (r + 1 + Z.of_nat (List.length ids))
        with (r + Z.of_nat (S (List.length ids))) by lia.
      split; reflexivity.
Qed.

(** In a full pool with nobody woken, each task that finishes frees a
    slot for the task at the head of the queue, which starts when it
    resumes: after as many finishes, the tasks that the queue held longest
    have started, in the order of the queue. *)
Lemma finish_resume : forall finishing ceiling q,
  (List.length finishing <= List.length q)%nat ->
  fst (interleave
         {| pool_of := {| maxConcurrency := ceiling; running := ceiling;
                          queue := q |};
            woken := [] |}
         (flat_map (fun id => [Finish id; Resume]) finishing)) =
  {| pool_of := {| maxConcurrency := ceiling; running := ceiling;
                   queue := skipn (List.length finishing) q |};
     woken := [] |} /\
  started
    (snd (interleave
            {| pool_of := {| maxConcurrency := ceiling; running := ceiling;
                             queue := q |};
               woken := [] |}
            (flat_map (fun id => [Finish id; Resume]) finishing))) =
  firstn (List.length finishing) q.
Proof.
  induction finishing as [| id finishing IH]; intros ceiling q Hlen.
  - cbn. split; reflexivity.
  - destruct q as [| next q]; [cbn in Hlen; lia |].
    cbn [flat_map app interleave segment_step pool_of woken firstn].
    unfold acquired, released. cbn [maxConcurrency running queue tl].
    replace (ceiling - 1 + 1) with ceiling by lia.
    destruct (IH ceiling q ltac:(cbn in Hlen; lia)) as [IHs IHt].
    destruct (interleave _ (flat_map _ finishing)) as [s2 t2].
    cbn [fst snd] in *. cbn [List.length skipn firstn map app started].
    rewrite IHs, IHt. split; reflexivity.
Qed.

(** A burst: the tasks [ids] are submitted at once to a fresh pool, then
    the first [j] of them finish one after the other.  The pool starts as
    many tasks as it has slots and one more for every task that finishes,
    in the order in which they were submitted; the others wait. *)
Lemma interleave_burst (ceiling : Z) (ids : list Z) (j : nat) :
  0 <= ceiling ->
  (Z.to_nat ceiling + j <= List.length ids)%nat ->
  started (snd (interleave (fresh ceiling) (burst ids j))) =
  firstn (Z.to_nat ceiling + j) ids /\
  fst (interleave (fresh ceiling) (burst ids j)) =
  {| pool_of := {| maxConcurrency := ceiling; running := ceiling;
                   queue := skipn (Z.to_nat ceiling + j) ids |};
     woken := [] |}.
Proof.
  intros Hc Hlen. unfold burst, fresh, ConcurrencyPool_new.
  rewrite interleave_app. cbn [fst snd]. rewrite started_app.
  destruct (submit_free ids ceiling 0 Hc) as [Hs Ht].
  rewrite Hs, Ht. replace (ceiling - 0) with ceiling by lia.
  unfold zlength. replace (Z.min ceiling (0 + Z.of_nat (List.length ids)))
    with ceiling by lia.
  destruct (finish_resume (firstn j ids) ceiling (skipn (Z.to_nat ceiling) ids))
    as [Hs' Ht'].
  { rewrite length_firstn, length_skipn. lia. }
  rewrite Hs', Ht'. rewrite length_firstn.
  replace (Nat.min j (List.length ids)) with j by lia.
  rewrite skipn_skipn. replace (j + Z.to_nat ceiling)%nat
    with (Z.to_nat ceiling + j)%nat by lia.
  split; [| reflexivity].
  rewrite <- (firstn_skipn (Z.to_nat ceiling) (firstn (Z.to_nat ceiling + j) ids)).
  rewrite firstn_firstn, <- firstn_skipn_comm.
  replace (Nat.min (Z.to_nat ceiling) (Z.to_nat ceiling + j))
    with (Z.to_nat ceiling) by lia.
  reflexivity.
Qed.

(** Whatever the interleaving, the waiters are admitted in the order in
    which they joined the queue: those that joined are those admitted,
    followed by those still in the queue. *)
Lemma interleave_fifo : forall l s past,
  enqueued past = admitted past ++ queue (pool_of s) ->
  enqueued (past ++ snd (interleave s l)) =
  admitted (past ++ snd (interleave s l)) ++
  queue (pool_of (fst (interleave s l))).
Proof.
  induction l as [| a l IH]; intros s past Hpast.
  - cbn. rewrite app_nil_r. exact Hpast.
  - cbn [interleave].
    destruct (segment_step s a) as [s1 t1] eqn:Hstep.
    specialize (IH s1 (past ++ t1)).
    destruct (interleave s1 l) as [s2 t2]. cbn [fst snd] in *.
    rewrite app_assoc. apply IH. clear IH.
    rewrite enqueued_app, admitted_app, Hpast.
    destruct a as [id | | id]; cbn in Hstep.
    + destruct (maxConcurrency (pool_of s) <=? running (pool_of s));
        injection Hstep as <- <-; cbn; rewrite ?app_nil_r, <- ?app_assoc;
        reflexivity.
    + destruct (woken s); injection Hstep as <- <-; cbn;
        rewrite ?app_nil_r; reflexivity.
    + injection Hstep as <- <-. cbn.
      destruct (queue (pool_of s)); cbn; rewrite ?app_nil_r, <- ?app_assoc;
        reflexivity.
Qed.

(** Under that discipline the running tasks and the woken waiters never
    outnumber the ceiling. *)
Lemma interleave_ceiling : forall l s,
  disciplined s l ->
  running (pool_of s) + zlength (woken s) <= maxConcurrency (pool_of s) ->
  running (pool_of (fst (interleave s l))) +
  zlength (woken (fst (interleave s l))) <=
  maxConcurrency (pool_of (fst (interleave s l))).
Proof.
  induction l as [| a l IH]; intros s Hd Hs; [exact Hs |].
  cbn [interleave]. destruct Hd as [Ha Hd].
  destruct (segment_step s a) as [s1 t1] eqn:Hstep. cbn [fst] in Hd.
  specialize (IH s1 Hd).
  destruct (interleave s1 l) as [s2 t2]. cbn [fst] in *.
  apply IH. clear IH Hd.
  destruct a as [id | | id]; cbn in Hstep.
  - rewrite Ha in *.
    destruct (maxConcurrency (pool_of s) <=? running (pool_of s)) eqn:Hfull;
      injection Hstep as <- _; cbn; [exact Hs |].
    apply Z.leb_gt in Hfull. unfold zlength. cbn. lia.
  - destruct (woken s) as [| next rest] eqn:Hw; injection Hstep as <- _;
      [rewrite Hw; exact Hs |].
    cbn. unfold zlength in *. cbn [List.length] in Hs. lia.
  - injection Hstep as <- _. cbn. unfold zlength in *.
    rewrite length_app.
    destruct (queue (pool_of s)); cbn [firstn List.length]; lia.
Qed.

End Pool.

(** * parseFeed *)

Section ParseFeed.

Context {RT : Runtime}.
Variable cfg : Config.

Lemma count_app p (t1 t2 : list event) :
  count p (t1 ++ t2) = (count p t1 + count p t2)%nat.
Proof. unfold count. rewrite filter_app, length_app. reflexivity. Qed.

Lemma count_none p (t : list event) :
  Forall (fun ev => p ev = false) t -> count p t = 0%nat.
Proof.
  unfold count. induction 1 as [| ev t Hev _ IH]; cbn; auto.
  rewrite Hev. exact IH.
Qed.

Lemma each_item_eq isRss : forall items posts w,
  each_item cfg isRss items posts w =
  (Ret (posts ++ flat_map (item_post cfg isRss) items), w,
   map (item_log cfg isRss) items).
Proof.
  induction items as [| el rest IH]; intros posts w; cbn.
  - rewrite app_nil_r. reflexivity.
  - unfold bind, logger, emit. rewrite IH. unfold item_post.
    destruct (string_truthy (item_title el) && opt_truthy (item_link isRss el));
      cbn; rewrite <- ?app_assoc; reflexivity.
Qed.

Lemma item_logs_are_logs isRss items :
  Forall (fun ev => is_log ev = true) (map (item_log cfg isRss) items).
Proof. apply Forall_forall. intros ev H. apply in_map_iff in H as (el & <- & _). reflexivity. Qed.

Lemma handleError_eq e context args w :
  handleError e context args w =
  (Ret tt, w, [handleError_event e context args]).
Proof. destruct e; reflexivity. Qed.

(** [axios.get] rejects: the catch block answers with no post. *)
Lemma parseFeed_rejected feedUrl w w1 e :
  axios_get feedUrl w = (inl e, w1) ->
  parseFeed cfg feedUrl w =
  (Ret (VArr []), w1,
   [EvLog "info" "Fetching feed from URL: ${feedUrl}" [feedUrl];
    EvGet feedUrl false;
    handleError_event e "Error parsing feed from ${feedUrl}" [feedUrl]]).
Proof.
  intros Hget. unfold parseFeed, try_catch, bind, logger, emit, call.
  rewrite Hget. cbn. rewrite handleError_eq. reflexivity.
Qed.

(** cheerio cannot parse the body: the catch block answers with no
    post. *)
Lemma parseFeed_unparsable feedUrl w w1 status data e :
  axios_get feedUrl w = (inr (status, data), w1) ->
  cheerio_load data = inl e ->
  parseFeed cfg feedUrl w =
  (Ret (VArr []), w1,
   [EvLog "info" "Fetching feed from URL: ${feedUrl}" [feedUrl];
    EvGet feedUrl true;
    EvLog "info"
      "Feed response received from ${feedUrl}, status: ${response.status}"
      [feedUrl; VNum status];
    handleError_event e "Error parsing feed from ${feedUrl}" [feedUrl]]).
Proof.
  intros Hget Hload. unfold parseFeed, try_catch, bind, logger, emit, call, lift.
  rewrite Hget. cbn. rewrite Hload. cbn. rewrite handleError_eq. reflexivity.
Qed.

(** The body is parsed: the posts of its first items are returned. *)
Lemma parseFeed_parsed feedUrl w w1 status data doc :
  axios_get feedUrl w = (inr (status, data), w1) ->
  cheerio_load data = inr doc ->
  parseFeed cfg feedUrl w =
  (Ret (VArr (feed_posts cfg doc)), w1,
   [EvLog "info" "Fetching feed from URL: ${feedUrl}" [feedUrl];
    EvGet feedUrl true;
    EvLog "info"
      "Feed response received from ${feedUrl}, status: ${response.status}"
      [feedUrl; VNum status];
    EvLog "info"
      "Feed URL: ${feedUrl}, items found: ${items.length}, isRss: ${isRss}"
      [feedUrl; VNum (zlength (snd (detect_items doc)));
       VBool (fst (detect_items doc))]]
   ++ map (item_log cfg (fst (detect_items doc)))
        (slice0 (snd (detect_items doc)) (POSTS_COUNT cfg))).
Proof.
  intros Hget Hload. unfold parseFeed, try_catch, bind, logger, emit, call, lift.
  rewrite Hget. cbn. rewrite Hload. cbn. unfold feed_posts.
  destruct (detect_items doc) as [isRss items]. cbn.
  rewrite each_item_eq. cbn. rewrite app_nil_r. reflexivity.
Qed.

(** [parseFeed] always resolves, with an array; it calls [axios.get] once
    and emits nothing but log lines besides. *)
Lemma parseFeed_post feedUrl :
  post (parseFeed cfg feedUrl)
    (fun o t =>
       (exists posts, o = Ret (VArr posts)) /\
       Forall feed_event t /\ count is_get t = 1%nat).
Proof.
  intros w.
  destruct (axios_get feedUrl w) as [[e | [status data]] w1] eqn:Hget.
  - rewrite (parseFeed_rejected _ _ _ _ Hget). cbn. split; [eauto |].
    split; [| destruct e; reflexivity].
    repeat constructor. destruct e; reflexivity.
  - destruct (cheerio_load data) as [e | doc] eqn:Hload.
    + rewrite (parseFeed_unparsable _ _ _ _ _ _ Hget Hload). cbn.
      split; [eauto |]. split.
      * repeat constructor. destruct e; reflexivity.
      * destruct e; reflexivity.
    + rewrite (parseFeed_parsed _ _ _ _ _ _ Hget Hload).
      cbn [fst snd]. split; [eauto |]. split.
      * apply Forall_app. split; [repeat constructor |].
        eapply Forall_impl; [| apply item_logs_are_logs].
        intros ev Hev. unfold feed_event. rewrite Hev. reflexivity.
      * rewrite count_app. rewrite (count_none is_get (map _ _)).
        -- reflexivity.
        -- eapply Forall_impl; [| apply item_logs_are_logs].
           intros [] Hev; try discriminate; reflexivity.
Qed.



(** C6, amended: the [each] callback never throws, and the [published]
    field of every post it emits is the empty string when the item has no
    date text and otherwise what dayjs prints for that text with the
    configured format: for a text dayjs cannot parse this is its
    invalid-date string, not the empty string. *)
Theorem each_item_published isRss items w :
  each_item cfg isRss items [] w =
  (Ret (flat_map (item_post cfg isRss) items), w,
   map (item_log cfg isRss) items) /\
  forall post,
    In post (flat_map (item_post cfg isRss) items) ->
    exists el,
      In el items /\
      get post "published" =
      inr (VStr (expected_published cfg (item_publishedDateStr isRss el))).
Proof.
  split; [apply each_item_eq |].
  intros post Hin. apply in_flat_map in Hin as (el & Hel & Hpost).
  exists el. split; [exact Hel |].
  unfold item_post in Hpost.
  destruct (string_truthy (item_title el) && opt_truthy (item_link isRss el));
    [| contradiction].
  destruct Hpost as [<- | []]. cbn.
  unfold item_formattedPublished, expected_published, string_truthy, formatDate.
  destruct (String.eqb (item_publishedDateStr isRss el) ""); reflexivity.
Qed.

(** C9: for every feed URL and every [retries >= 1],
    [withRetry(() => parseFeed(feedUrl), retries)] does what one call of
    [parseFeed(feedUrl)] does: it resolves with the array of that call, in
    the world that call leaves, with the events of that call, among which
    there is one call of [axios.get] and no pause. *)
Theorem withRetry_parseFeed_once feedUrl retries w :
  1 <= retries ->
  withRetry (parseFeed cfg feedUrl) retries w =
  (settled (fst (fst (parseFeed cfg feedUrl w))),
   snd (fst (parseFeed cfg feedUrl w)),
   snd (parseFeed cfg feedUrl w)) /\
  (exists posts,
      fst (fst (withRetry (parseFeed cfg feedUrl) retries w)) =
      Ret (Some (VArr posts))) /\
  count is_get (snd (withRetry (parseFeed cfg feedUrl) retries w)) = 1%nat /\
  count is_delay (snd (withRetry (parseFeed cfg feedUrl) retries w)) = 0%nat.
Proof.
  intros Hn.
  pose proof (parseFeed_post feedUrl w) as (Hret & Hev & Hget).
  destruct (parseFeed cfg feedUrl w) as [[o w1] t1] eqn:Hparse.
  cbn [fst snd] in *. destruct Hret as (posts & ->).
  rewrite (withRetry_first_attempt _ _ _ _ _ _ Hn Hparse). cbn [fst snd].
  split; [reflexivity |]. split; [exists posts; reflexivity |].
  split; [exact Hget |].
  apply count_none. eapply Forall_impl; [| exact Hev].
  intros [] H; try discriminate; reflexivity.
Qed.

End ParseFeed.



(** The same when the body cannot be read as markup at all, the JSON text
    [null] that axios has parsed: [cheerio.load] throws, [parseFeed]
    catches, logs the error and resolves with an empty array. *)
Example null_body_not_thrown :
  @parseFeed nullfeed defaults (VStr "https://example.com/feed") 0%nat =
  (Ret (VArr []), 1%nat,
   [EvLog "info" "Fetching feed from URL: ${feedUrl}"
      [VStr "https://example.com/feed"];
    EvGet (VStr "https://example.com/feed") true;
    EvLog "info"
      "Feed response received from ${feedUrl}, status: ${response.status}"
      [VStr "https://example.com/feed"; VNum 200];
    EvLog "error" "${context}: ${error.message}"
      [VStr "Error parsing feed from ${feedUrl}";
       VStr "https://example.com/feed";
       VStr "cheerio.load() expects a string"]]).
Proof. reflexivity. Qed.

Lemma each_item_published_witness :
  In (make_post "Hello" (Some "https://x/1") "2024-01-01 00:00:00")
    (flat_map (@item_post flaky defaults true) [dated_item]) /\
  exists el,
    In el [dated_item] /\
    get (make_post "Hello" (Some "https://x/1") "2024-01-01 00:00:00")
      "published" =
    inr (VStr (@expected_published flaky defaults
                 (item_publishedDateStr true el))).
Proof.
  split; [left; reflexivity |].
  apply (proj2 (@each_item_published flaky defaults true [dated_item] 0%nat)).
  left. reflexivity.
Defined.

(** C6 as the specification states it fails: dayjs cannot parse the date
    text of the item, and the post carries dayjs's invalid-date string, not
    the empty string. *)
Lemma unparsable_date_not_empty :
  item_publishedDateStr true undated_item = "yesterday" /\
  @dayjs_parse flaky "yesterday" = None /\
  fst (fst (@each_item flaky defaults true [undated_item] [] 0%nat)) =
  Ret [VObj [("title", VStr "Hello"); ("link", VStr "https://x/1");
             ("published", VStr "Invalid Date")]] /\
  @item_formattedPublished flaky defaults true undated_item <> "".
Proof.
  split; [reflexivity |]. split; [reflexivity |]. split; [reflexivity |].
  vm_compute. discriminate.
Qed.

Lemma withRetry_parseFeed_once_witness :
  1 <= 3 /\
  @withRetry flaky _ (parseFeed defaults (VStr "https://example.com/rss")) 3
    0%nat =
  (Ret (Some (VArr [])), 1%nat,
   [EvLog "info" "Fetching feed from URL: ${feedUrl}"
      [VStr "https://example.com/rss"];
    EvGet (VStr "https://example.com/rss") false;
    EvLog "error" "${context}: No response received"
      [VStr "Error parsing feed from ${feedUrl}";
       VStr "https://example.com/rss"]]).
Proof.
  split; [lia |].
  rewrite (proj1 (@withRetry_parseFeed_once flaky defaults
                    (VStr "https://example.com/rss") 3 0%nat ltac:(lia))).
  reflexivity.
Defined.

(** * processIssue *)

Section ProcessIssue.

Context {RT : Runtime}.
Variable cfg : Config.

Lemma get_throws v k e :
  get v k = inl e -> forall k', get v k' = inl e.
Proof. destruct v; cbn; intros H k'; try discriminate; exact H. Qed.

Lemma get_returns v k x :
  get v k = inr x -> forall k', exists x', get v k' = inr x'.
Proof. destruct v; cbn; intros H k'; try discriminate; eauto. Qed.

(** [withRetry] around [parseFeed] resolves with an array, or with
    [undefined] when no attempt is allowed. *)
Lemma withRetry_parseFeed_post feedUrl retries :
  post (withRetry (parseFeed cfg feedUrl) retries)
    (fun o t =>
       (((exists posts, o = Ret (Some (VArr posts))) /\ 1 <= retries) \/
        (o = Ret None /\ retries <= 0)) /\
       Forall feed_event t).
Proof.
  intros w. destruct (Z_le_gt_dec retries 0) as [Hle | Hgt].
  - unfold withRetry, withRetry_delay.
    replace (Z.to_nat retries) with O by lia. cbn. auto.
  - pose proof (parseFeed_post cfg feedUrl w) as ((posts & Ho) & Hev & _).
    destruct (parseFeed cfg feedUrl w) as [[o w1] t1] eqn:Hparse.
    cbn [fst snd] in *. subst o.
    rewrite (withRetry_first_attempt _ retries _ _ _ _ ltac:(lia) Hparse).
    cbn. split; [left; split; [eauto | lia] | exact Hev].
Qed.

Lemma ToString_returns v x : ToString v = inr x -> ToPrimitive_throws v = false.
Proof. unfold ToString. destruct (ToPrimitive_throws v); [discriminate | reflexivity]. Qed.

Lemma ToString_throws v e : ToString v = inl e -> ToPrimitive_throws v = true.
Proof. unfold ToString. destruct (ToPrimitive_throws v); [reflexivity | discriminate]. Qed.

Lemma parsed_block_eq i :
  parsed_block i =
  match body i with
  | Some b =>
      if string_truthy b then
        match
          match match_fence b with
          | Some m => match_object m
          | None => None
          end
        with
        | Some json =>
            match JSON_parse json with
            | inr d => Some d
            | inl _ => None
            end
        | None => None
        end
      else None
  | None => None
  end.
Proof.
  unfold parsed_block. destruct (body i) as [b |]; [| reflexivity].
  destruct (string_truthy b); [| reflexivity].
  destruct (match_fence b) as [m |]; reflexivity.
Qed.

(** The path conditions of [processIssue] decide [data_of]. *)
Ltac block_data :=
  unfold data_of, returned; rewrite parsed_block_eq;
  repeat match goal with
    | H : get VUndefined _ = inr _ |- _ => discriminate H
    | H : body _ = _ |- _ => rewrite H
    | H : string_truthy _ = _ |- _ => rewrite H
    | H : match match_fence _ with _ => _ end = _ |- _ => rewrite H
    | H : JSON_parse _ = _ |- _ => rewrite H
    | H : get _ "feed" = _ |- _ => rewrite H
    | H : truthy _ = _ |- _ => rewrite H
    | H : ToString _ = inr _ |- _ => rewrite (ToString_returns _ _ H)
    | H : ToString _ = inl _ |- _ => rewrite (ToString_throws _ _ H)
    | H : 1 <= RETRY_TIMES ?c |- _ =>
        rewrite (proj2 (Z.leb_le 1 (RETRY_TIMES c)) H)
    | H : RETRY_TIMES ?c <= 0 |- _ =>
        replace (1 <=? RETRY_TIMES c) with false
          by (symmetry; apply Z.leb_gt; lia)
    end;
  try reflexivity.

Lemma processIssue_post i :
  post (processIssue cfg i)
    (fun o t =>
       (exists fields,
           o = Ret (VObj fields) /\
           lookup "data" fields = data_of cfg i) /\
       Forall inner_event t).
Proof.
  unfold processIssue, process_json. wp.
  all: try (eapply post_conseq; [apply withRetry_parseFeed_post |];
            cbv beta; intros o t [[[(posts & ->) Hge] | (-> & Hle)] Ht]; wp).
  all: (split; [eexists; split; [reflexivity | block_data]
               | events]).
  all: try (destruct e; reflexivity).
  all: try lia.
  all: try match goal with
         | H : get ?a _ = inl _, H0 : get ?a "feed" = inr _ |- _ =>
             rewrite (get_throws _ _ _ H "feed") in H0; discriminate H0
         | H : get (VArr _) _ = inl _ |- _ => discriminate H
         end.
Qed.

End ProcessIssue.

(** * Array.prototype.sort *)

Section Sort.

Variable A : Type.
Variable comparefn : A -> A -> option Z.

(** The comparison cannot put each of two elements before the other. *)
Hypothesis comparefn_asym :
  forall a b, positive (comparefn a b) = true -> positive (comparefn b a) = false.

Lemma neighbours_tail (R : A -> A -> Prop) a l :
  neighbours R (a :: l) -> neighbours R l.
Proof. destruct l; cbn; tauto. Qed.

Lemma neighbours_snoc (R : A -> A -> Prop) : forall l b a,
  neighbours R (l ++ [b]) -> R b a -> neighbours R ((l ++ [b]) ++ [a]).
Proof.
  induction l as [| c l IH]; intros b a Hl Hba.
  - cbn. auto.
  - destruct l as [| d l].
    + cbn in *. tauto.
    + cbn in Hl. destruct Hl as [Hcd Hl]. cbn. split; [exact Hcd |].
      apply (IH b a); assumption.
Qed.

Lemma neighbours_rev (R : A -> A -> Prop) : forall l,
  neighbours R l -> neighbours (fun a b => R b a) (rev l).
Proof.
  induction l as [| a l IH]; intros Hl; [exact I |].
  destruct l as [| b l]; [exact I |].
  cbn in Hl. destruct Hl as [Hab Hl].
  change (rev (a :: b :: l)) with ((rev l ++ [b]) ++ [a]).
  apply neighbours_snoc; [| exact Hab].
  apply (IH Hl).
Qed.

Lemma neighbours_adjacent (R : A -> A -> Prop) : forall l1 l2 a b,
  neighbours R (l1 ++ a :: b :: l2) -> R a b.
Proof.
  induction l1 as [| c l1 IH]; intros l2 a b H.
  - cbn in H. tauto.
  - apply (IH l2). apply (neighbours_tail R c). exact H.
Qed.

(** In the reversed prefix an element sits in front of one it may
    follow. *)
Lemma insert_neighbours element : forall reversed,
  neighbours (fun later earlier => may_follow comparefn earlier later) reversed ->
  neighbours (fun later earlier => may_follow comparefn earlier later)
    (insert comparefn element reversed).
Proof.
  unfold may_follow.
  induction reversed as [| tmp before IH]; intros H; [exact I |].
  cbn [insert]. destruct (positive (comparefn tmp element)) eqn:Horder.
  - specialize (IH (neighbours_tail _ _ _ H)).
    destruct before as [| tmp' before].
    + cbn. split; [| exact I]. apply comparefn_asym. exact Horder.
    + cbn [insert] in *.
      destruct (positive (comparefn tmp' element)) eqn:Horder'.
      * cbn in H. split; [tauto | exact IH].
      * split; [| exact IH]. apply comparefn_asym. exact Horder.
  - split; [exact Horder | exact H].
Qed.

Lemma stable_sort_neighbours l :
  neighbours (may_follow comparefn) (stable_sort comparefn l).
Proof.
  unfold stable_sort.
  apply (neighbours_rev
           (fun later earlier => may_follow comparefn earlier later)).
  assert (H : forall l reversed,
             neighbours (fun later earlier => may_follow comparefn earlier later)
               reversed ->
             neighbours (fun later earlier => may_follow comparefn earlier later)
               (fold_left
                  (fun reversed element => insert comparefn element reversed)
                  l reversed)).
  { clear l. induction l as [| a l IH]; intros reversed H; [exact H |].
    cbn. apply IH. apply insert_neighbours. exact H. }
  apply H. exact I.
Qed.

End Sort.

(** * run *)

Section Run.

Context {RT : Runtime}.
Variable cfg : Config.

Lemma compare_created_asym a b :
  positive (compare_created a b) = true ->
  positive (compare_created b a) = false.
Proof.
  unfold compare_created, positive.
  destruct (Date_new (created b)), (Date_new (created a)); try discriminate.
  intros H. apply Z.ltb_lt in H. apply Z.ltb_ge. lia.
Qed.

Lemma forEach_push_app author avatar : forall posts articles,
  forEach_push author avatar posts articles =
  match forEach_push author avatar posts [] with
  | inr pushed => inr (articles ++ pushed)
  | inl e => inl e
  end.
Proof.
  induction posts as [| post rest IH]; intros articles; cbn.
  - rewrite app_nil_r. reflexivity.
  - destruct (post_article author avatar post) as [e | a]; [reflexivity |].
    rewrite IH. rewrite (IH [a]).
    destruct (forEach_push author avatar rest []) as [e | pushed];
      [reflexivity |].
    rewrite <- app_assoc. reflexivity.
Qed.

Lemma forEach_push_length author avatar : forall posts articles pushed,
  forEach_push author avatar posts articles = inr pushed ->
  zlength pushed = zlength articles + zlength posts.
Proof.
  unfold zlength.
  induction posts as [| post rest IH]; intros articles pushed H; cbn in *.
  - injection H as <-. lia.
  - destruct (post_article author avatar post) as [e | a]; [discriminate |].
    apply IH in H. rewrite length_app in H. cbn in H. lia.
Qed.

Lemma merge_articles_eq fields acc w :
  merge_articles (VObj fields) acc w =
  (merged (lookup "data" fields) acc, w, []).
Proof.
  unfold merge_articles, merged, block_articles, block_posts, field, bind, lift.
  cbn [get]. set (d := lookup "data" fields). cbn.
  destruct acc as [arts act err num]. cbn.
  destruct (truthy d) eqn:Hd.
  - destruct (get d "posts") as [e | posts] eqn:Hposts.
    + destruct d; discriminate.
    + cbn. destruct posts; cbn; rewrite ?app_nil_r, ?Z.add_0_r;
        try reflexivity.
      destruct (get_returns _ _ _ Hposts "name") as (name & ->).
      destruct (get_returns _ _ _ Hposts "avatar") as (avatar & ->).
      cbn. rewrite forEach_push_app.
      destruct (forEach_push (js_or name (VStr "")) (js_or avatar (VStr ""))
                  items []); reflexivity.
  - assert (Hnone : match get d "posts" with
                    | inr (VArr items) => items
                    | _ => []
                    end = []).
    { destruct d; try discriminate; reflexivity. }
    rewrite Hnone. cbn. rewrite app_nil_r, Z.add_0_r. reflexivity.
Qed.

Lemma block_posts_data_of i :
  block_posts (data_of cfg i) = if processed cfg i then entry_posts i else [].
Proof.
  unfold data_of, processed, entry_posts.
  destruct (parsed_block i) as [d |]; [| reflexivity].
  destruct (returned cfg d); reflexivity.
Qed.

Lemma block_articles_data_of i :
  block_articles (data_of cfg i) =
  if processed cfg i then entry_articles i else inr [].
Proof.
  unfold data_of, processed, entry_articles.
  destruct (parsed_block i) as [d |]; [| reflexivity].
  destruct (returned cfg d); reflexivity.
Qed.

(** The issues whose block reaches the report, one at a time. *)
Lemma embedded_articles_processed i rest :
  embedded_articles (filter (processed cfg) (i :: rest)) =
  match (if processed cfg i then entry_articles i else inr []),
        embedded_articles (filter (processed cfg) rest) with
  | inr a, inr b => inr (a ++ b)
  | inl e, _ => inl e
  | _, inl e => inl e
  end.
Proof.
  cbn [filter]. destruct (processed cfg i); [reflexivity |].
  destruct (embedded_articles (filter (processed cfg) rest)); reflexivity.
Qed.

Lemma entry_posts_processed i rest :
  flat_map entry_posts (filter (processed cfg) (i :: rest)) =
  (if processed cfg i then entry_posts i else []) ++
  flat_map entry_posts (filter (processed cfg) rest).
Proof. cbn [filter]. destruct (processed cfg i); reflexivity. Qed.

Lemma post_merge_articles fields acc
    (Q : outcome counters -> list event -> Prop) :
  Q (merged (lookup "data" fields) acc) [] ->
  post (merge_articles (VObj fields) acc) Q.
Proof. intros H w. rewrite merge_articles_eq. exact H. Qed.

(** A task never hangs; when it returns it has counted the issue as
    active and pushed the articles of the posts embedded in its body,
    provided [processIssue] reached its [return] statement with the
    block; its events are those of [processIssue] and one update, which
    succeeded unless the task throws. *)
Lemma task_post i acc :
  post (task cfg i acc)
    (fun o t =>
       o <> Hang /\
       (forall acc',
           o = Ret acc' ->
           active_num acc' = active_num acc + 1 /\
           error_num acc' = error_num acc /\
           exists pushed,
             (if processed cfg i then entry_articles i else inr []) =
             inr pushed /\
             allArticles acc' = allArticles acc ++ pushed /\
             article_num acc' =
             article_num acc +
             zlength (if processed cfg i then entry_posts i else [])) /\
       Forall task_event t /\
       (is_throw o = false ->
        Forall (fun ev => is_failed_update ev = false) t)).
Proof.
  unfold task. wp_step. wp_step. wp_step.
  eapply post_conseq; [apply processIssue_post |].
  cbv beta. intros o t [(fields & -> & Hdata) Hev].
  cbn [truthy]. wp.
  - apply post_merge_articles. unfold merged.
    destruct (block_articles (lookup "data" fields)) as [e | pushed] eqn:Hb.
    + split; [discriminate |]. split; [discriminate |].
      split; [events | discriminate].
    + split; [discriminate |]. split; [| split; [events | intros _; events]].
      intros acc' Hacc. injection Hacc as <-. cbn.
      split; [reflexivity |]. split; [reflexivity |].
      rewrite Hdata in *.
      rewrite block_articles_data_of in Hb. rewrite block_posts_data_of.
      exists pushed. auto.
  - split; [discriminate |]. split; [discriminate |].
    split; [events | discriminate].
  - discriminate.
Qed.

(** *** The events of the pool *)

Lemma in_flight_app t1 : forall n t2,
  in_flight n (t1 ++ t2) = in_flight (in_flight n t1) t2.
Proof.
  induction t1 as [| ev t1 IH]; intros n t2; [reflexivity |].
  destruct ev; cbn; apply IH.
Qed.

Lemma peak_app t1 : forall n t2,
  peak n (t1 ++ t2) = Z.max (peak n t1) (peak (in_flight n t1) t2).
Proof.
  induction t1 as [| ev t1 IH]; intros n t2.
  - cbn. assert (H : forall t m, m <= peak m t).
    { clear. induction t as [| ev t IH]; intros m; cbn; [lia |].
      destruct ev; try apply IH; lia. }
    specialize (H t2 n). lia.
  - destruct ev; cbn; rewrite IH; lia.
Qed.

(** A task leaves the pool alone. *)
Lemma task_events_quiet t :
  Forall task_event t ->
  submitted t = [] /\ started t = [] /\
  (forall n, in_flight n t = n) /\ (forall n, peak n t = n).
Proof.
  induction 1 as [| ev t Hev _ (Hs & Hst & Hf & Hp)]; [repeat split |].
  destruct ev; cbn in Hev; try discriminate Hev; cbn; auto.
Qed.

Lemma zlength_app {A} (l1 l2 : list A) :
  zlength (l1 ++ l2) = zlength l1 + zlength l2.
Proof. unfold zlength. rewrite length_app. lia. Qed.

Lemma zlength_cons {A} (a : A) (l : list A) : zlength (a :: l) = 1 + zlength l.
Proof. unfold zlength. cbn [List.length]. lia. Qed.

(** The loop of [run] from a fresh pool: when it completes every issue
    has been counted as active and the articles of the posts embedded in
    the blocks that reach the report have been pushed in the order of the
    issues; the updates it made succeeded
    unless it throws; at most one task is in its body at any time, none
    when the ceiling is below one, and the tasks start in the order they
    are submitted. *)
Lemma for_issues_post : forall issues acc,
  post (for_issues cfg (ConcurrencyPool_new (CONCURRENCY_LIMIT cfg)) acc issues)
    (fun o t =>
       (forall r,
           o = Ret r ->
           active_num (snd r) = active_num acc + zlength issues /\
           error_num (snd r) = error_num acc /\
           exists pushed,
             embedded_articles (filter (processed cfg) issues) = inr pushed /\
             allArticles (snd r) = allArticles acc ++ pushed /\
             article_num (snd r) =
             article_num acc +
             zlength (flat_map entry_posts (filter (processed cfg) issues))) /\
       Forall loop_event t /\
       Forall (running_ok (CONCURRENCY_LIMIT cfg)) t /\
       (is_throw o = false ->
        Forall (fun ev => is_failed_update ev = false) t) /\
       in_flight 0 t = 0 /\
       peak 0 t <= 1 /\
       (CONCURRENCY_LIMIT cfg <= 0 -> peak 0 t = 0) /\
       (exists waiting, submitted t = started t ++ waiting)).
Proof.
  induction issues as [| i rest IH]; intros acc.
  - cbn [for_issues]. wp. cbn. splits; try lia; events.
    + intros r [= <-]. cbn. splits; try lia.
      exists []. rewrite app_nil_r. splits; auto; lia.
    + intros _. constructor.
    + exists []. reflexivity.
  - cbn [for_issues]. unfold add.
    cbn [maxConcurrency running ConcurrencyPool_new].
    wp_step. wp_step. wp_step. wp_step.
    + (* the ceiling is below one: the call waits for ever *)
      wp. cbn. splits; try lia; events.
      * discriminate.
      * intros _. events.
      * exists [number i]. reflexivity.
    + apply Z.leb_gt in Heqb.
      wp_step. wp_step. wp_step. wp_step.
      eapply post_conseq; [apply task_post |]. cbv beta.
      intros o t (Hnh & Hacc & Hev & Hupd).
      destruct (task_events_quiet t Hev) as (Hts & Htst & Htf & Htp).
      destruct o as [acc1 | e |]; [| | congruence].
      * unfold add_finally. cbn [queue acquired ConcurrencyPool_new]. wp.
        change (released (acquired (ConcurrencyPool_new (CONCURRENCY_LIMIT cfg))))
          with (ConcurrencyPool_new (CONCURRENCY_LIMIT cfg)). cbn [fst snd].
        eapply post_conseq; [apply IH |]. cbv beta.
        intros o' t' (Hr & Hl & Hk & Hu & Hf & Hp & Hp0 & (waiting & Hw)).
        specialize (Hupd eq_refl).
        destruct (Hacc acc1 eq_refl) as (Hact & Herr & Hart).
        cbn [app running acquired ConcurrencyPool_new].
        rewrite ?app_nil_r, <- ?app_assoc. cbn [app].
        splits.
        -- intros r ->. destruct (Hr r eq_refl) as (Hact' & Herr' & Hart').
           rewrite zlength_cons. splits; try lia.
           destruct Hart as (p1 & Hp1 & Ha1 & Hn1).
           destruct Hart' as (p2 & Hp2 & Ha2 & Hn2).
           exists (p1 ++ p2).
           rewrite embedded_articles_processed, entry_posts_processed.
           rewrite Hp1, Hp2, Ha2, Ha1, Hn2, Hn1, zlength_app, app_assoc.
           splits; auto; lia.
        -- events.
        -- events. cbn. lia.
        -- intros Ho. specialize (Hu Ho). events.
        -- cbn. rewrite in_flight_app, Htf. cbn. exact Hf.
        -- cbn. rewrite peak_app, Htp, Htf. cbn. lia.
        -- lia.
        -- exists waiting. cbn. rewrite submitted_app, started_app, Hts, Htst.
           cbn. rewrite Hw. reflexivity.
      * unfold add_finally. cbn [queue acquired ConcurrencyPool_new]. wp.
        cbn [app running acquired ConcurrencyPool_new].
        rewrite ?app_nil_r, <- ?app_assoc. cbn [app].
        splits.
        -- discriminate.
        -- events.
        -- events. cbn. lia.
        -- discriminate.
        -- cbn. rewrite in_flight_app, Htf. reflexivity.
        -- cbn. rewrite peak_app, Htp, Htf. cbn. lia.
        -- lia.
        -- exists []. cbn. rewrite submitted_app, started_app, Hts, Htst.
           reflexivity.
Qed.

(** The aggregation, for every list of issues. *)
Lemma run_aggregate_post issues :
  post (run_aggregate cfg issues)
    (fun o t =>
       (forall r,
           o = Ret r ->
           friends_num r = zlength issues /\
           report_active_num r = zlength issues /\
           report_error_num r = 0 /\
           exists articles,
             article_data r = Array_sort compare_created articles /\
             embedded_articles (filter (processed cfg) issues) =
             inr articles /\
             report_article_num r =
             zlength (flat_map entry_posts (filter (processed cfg) issues))) /\
       Forall loop_event t /\
       Forall (running_ok (CONCURRENCY_LIMIT cfg)) t /\
       (is_throw o = false ->
        Forall (fun ev => is_failed_update ev = false) t) /\
       in_flight 0 t = 0 /\
       peak 0 t <= 1 /\
       (CONCURRENCY_LIMIT cfg <= 0 -> peak 0 t = 0) /\
       (exists waiting, submitted t = started t ++ waiting)).
Proof.
  unfold run_aggregate. wp_step. wp_step. wp_step.
  eapply post_conseq; [apply for_issues_post |]. cbv beta.
  intros o t (Hr & Hl & Hk & Hu & Hf & Hp & Hp0 & (waiting & Hw)).
  destruct o as [r | e |]; wp; cbn [app]; rewrite ?app_nil_r.
  - specialize (Hu eq_refl).
    destruct (Hr r eq_refl) as (Hact & Herr & Hart). cbn in Hact, Herr, Hart.
    splits.
    + intros r' [= <-]. cbn. splits; try lia.
      exists (allArticles (snd r)). split; [reflexivity |].
      destruct Hart as (pushed & Hpushed & -> & Hnum).
      cbn. split; [exact Hpushed | lia].
    + events.
    + events.
    + intros _. events.
    + cbn. rewrite in_flight_app, Hf. reflexivity.
    + cbn. rewrite peak_app, Hf. cbn. lia.
    + intros HC. cbn. rewrite peak_app, Hf, (Hp0 HC). reflexivity.
    + exists waiting. cbn. rewrite submitted_app, started_app, Hw. cbn.
      rewrite ?app_nil_r. reflexivity.
  - splits; try discriminate; auto.
    + events.
    + events.
    + exists waiting. exact Hw.
  - splits; try discriminate; auto.
    + events.
    + events.
    + exists waiting. exact Hw.
Qed.

(** C1: for every list of issues, when the aggregation completes the
    report satisfies [active_num + error_num = friends_num], where
    [friends_num] is the number of issues, [active_num] the number of
    issues for which [processIssue] returned without throwing, which are
    all of them whatever their status, and [error_num] the number of those
    for which it threw, of which there is none; [world_of i] is the state
    of the world in which the issue [i] was processed. *)
Theorem counts_add_up issues w r w' t :
  run_aggregate cfg issues w = (Ret r, w', t) ->
  report_active_num r + report_error_num r = friends_num r /\
  friends_num r = zlength issues /\
  forall world_of : issue -> World,
    report_active_num r =
    zlength
      (filter (fun i =>
                 negb (is_throw (fst (fst (processIssue cfg i (world_of i))))))
         issues) /\
    report_error_num r =
    zlength
      (filter (fun i => is_throw (fst (fst (processIssue cfg i (world_of i)))))
         issues).
Proof.
  intros Hrun.
  destruct (post_run _ _ _ _ _ _ (run_aggregate_post issues) Hrun)
    as (Hr & _).
  destruct (Hr r eq_refl) as (Hn & Ha & He & _).
  split; [lia |]. split; [lia |]. intros world_of.
  assert (Hreturns : forall i,
             is_throw (fst (fst (processIssue cfg i (world_of i)))) = false).
  { intros i.
    destruct (processIssue_post cfg i (world_of i)) as ((fields & -> & _) & _).
    reflexivity. }
  assert (Hall : filter
                   (fun i =>
                      negb (is_throw
                              (fst (fst (processIssue cfg i (world_of i))))))
                   issues = issues).
  { clear - Hreturns. induction issues as [| i l IH]; [reflexivity |].
    cbn. rewrite (Hreturns i). cbn. rewrite IH. reflexivity. }
  assert (Hnone : filter
                    (fun i =>
                       is_throw (fst (fst (processIssue cfg i (world_of i)))))
                    issues = []).
  { clear - Hreturns. induction issues as [| i l IH]; [reflexivity |].
    cbn. rewrite (Hreturns i). exact IH. }
  rewrite Hall, Hnone. cbn. lia.
Qed.

Lemma embedded_articles_length : forall l pushed,
  embedded_articles l = inr pushed ->
  zlength pushed = zlength (flat_map entry_posts l).
Proof.
  induction l as [| i l IH]; intros pushed H; cbn in H.
  - injection H as <-. reflexivity.
  - destruct (entry_articles i) as [e | a] eqn:Ha; [discriminate |].
    destruct (embedded_articles l) as [e | b]; [discriminate |].
    injection H as <-. cbn [flat_map]. rewrite !zlength_app.
    rewrite (IH b eq_refl). f_equal.
    unfold entry_articles, entry_posts in *.
    destruct (parsed_block i) as [d |].
    + apply forEach_push_length in Ha. exact Ha.
    + injection Ha as <-. reflexivity.
Qed.

(** When the block of every issue that has one reaches the report, the
    issues left out embed no post. *)
Lemma embedded_articles_all : forall l,
  (forall i, In i l -> parsed_block i <> None -> processed cfg i = true) ->
  embedded_articles (filter (processed cfg) l) = embedded_articles l /\
  flat_map entry_posts (filter (processed cfg) l) = flat_map entry_posts l.
Proof.
  induction l as [| i l IH]; intros Hall; [split; reflexivity |].
  destruct IH as [IHa IHp].
  { intros j Hj. apply Hall. right. exact Hj. }
  cbn [filter]. destruct (processed cfg i) eqn:Hi;
    cbn [embedded_articles flat_map].
  - rewrite IHa. split; [reflexivity | f_equal; exact IHp].
  - assert (Hnone : parsed_block i = None).
    { destruct (parsed_block i) as [d |] eqn:Hd; [| reflexivity].
      rewrite Hall in Hi; [discriminate Hi | left; reflexivity |].
      rewrite Hd. discriminate. }
    unfold entry_articles, entry_posts. rewrite Hnone, IHa. cbn [app].
    split; [| exact IHp].
    destruct (embedded_articles l); reflexivity.
Qed.

(** C2, amended: when the aggregation completes, the articles of the
    report are exactly the articles made of the [posts] arrays embedded in
    the structured blocks of the issues for which [processIssue] reached
    its [return] statement, in some order, and [article_num] is their
    number; the posts fetched from the feeds play no role, and a block
    without a [posts] array contributes no article.  [processIssue]
    reaches its [return] statement with a parsed block when the block
    declares no feed, or when its feed converts to a string and
    [withRetry] is allowed an attempt; otherwise its [catch] block answers
    with a result that has no [data], and the posts embedded in the block
    reach no report.  When that happens to no issue, the articles are
    those of the posts embedded in all the blocks. *)
Theorem report_posts_from_returned_blocks issues w r w' t :
  run_aggregate cfg issues w = (Ret r, w', t) ->
  (exists articles,
      embedded_articles (filter (processed cfg) issues) = inr articles /\
      article_data r = Array_sort compare_created articles /\
      Permutation (article_data r) articles /\
      report_article_num r = zlength articles) /\
  report_article_num r =
  zlength (flat_map entry_posts (filter (processed cfg) issues)) /\
  (forall i,
      entry_posts i =
      match parsed_block i with
      | Some d =>
          match field d "posts" with
          | VArr items => items
          | _ => []
          end
      | None => []
      end) /\
  (forall i w0, exists fields,
      fst (fst (processIssue cfg i w0)) = Ret (VObj fields) /\
      lookup "data" fields = data_of cfg i) /\
  (forall i,
      processed cfg i = true <->
      exists d feedUrl,
        parsed_block i = Some d /\
        get d "feed" = inr feedUrl /\
        (truthy feedUrl = false \/
         (ToPrimitive_throws feedUrl = false /\ 1 <= RETRY_TIMES cfg))) /\
  ((forall i, In i issues -> parsed_block i <> None -> processed cfg i = true) ->
   (exists articles,
       embedded_articles issues = inr articles /\
       Permutation (article_data r) articles) /\
   report_article_num r = zlength (flat_map entry_posts issues)).
Proof.
  intros Hrun.
  destruct (post_run _ _ _ _ _ _ (run_aggregate_post issues) Hrun)
    as (Hr & _).
  destruct (Hr r eq_refl) as (_ & _ & _ & articles & Hsort & Hemb & Hnum).
  assert (Hperm : Permutation (article_data r) articles).
  { rewrite Hsort. apply Array_sort_elements. }
  splits.
  - exists articles. splits; auto.
    rewrite Hnum. symmetry. apply embedded_articles_length. exact Hemb.
  - exact Hnum.
  - intros i. unfold entry_posts, block_posts, field.
    destruct (parsed_block i) as [d |]; [| reflexivity].
    destruct (get d "posts") as [e | posts]; reflexivity.
  - intros i w0.
    destruct (processIssue_post cfg i w0) as ((fields & Hret & Hdata) & _).
    exists fields. split; assumption.
  - intros i. unfold processed, returned.
    destruct (parsed_block i) as [d |].
    + destruct (get d "feed") as [e | feedUrl] eqn:Hget.
      * split; [discriminate |]. intros (d' & f & Hd' & Hf & _).
        injection Hd' as <-. rewrite Hget in Hf. discriminate Hf.
      * split.
        -- intros H. exists d, feedUrl. split; [reflexivity |].
           split; [exact Hget |].
           apply orb_true_iff in H as [H | H].
           ++ left. apply negb_true_iff. exact H.
           ++ right. apply andb_true_iff in H as [H1 H2].
              split; [apply negb_true_iff; exact H1 | apply Z.leb_le; exact H2].
        -- intros (d' & f & Hd' & Hf & H).
           injection Hd' as <-. rewrite Hget in Hf. injection Hf as <-.
           destruct H as [H | [H1 H2]].
           ++ rewrite H. reflexivity.
           ++ rewrite H1, (proj2 (Z.leb_le _ _) H2). apply orb_true_r.
    + split; [discriminate |]. intros (d & f & Hd & _). discriminate Hd.
  - intros Hall.
    rewrite (proj1 (embedded_articles_all issues Hall)) in Hemb.
    rewrite (proj2 (embedded_articles_all issues Hall)) in Hnum.
    split; [exists articles; split; assumption | exact Hnum].
Qed.

(** C10: in every aggregation that completes, [error_num] is 0 and
    [active_num] is the number of issues, because [processIssue] always
    resolves with an object, which is truthy: the branch of [run] that
    increments [error_num] is never taken. *)
Theorem error_count_zero issues w r w' t :
  run_aggregate cfg issues w = (Ret r, w', t) ->
  report_error_num r = 0 /\
  report_active_num r = friends_num r /\
  (forall i w0, exists fields,
      fst (fst (processIssue cfg i w0)) = Ret (VObj fields) /\
      truthy (VObj fields) = true).
Proof.
  intros Hrun. splits.
  - destruct (post_run _ _ _ _ _ _ (run_aggregate_post issues) Hrun)
      as (Hr & _).
    destruct (Hr r eq_refl) as (Hn & Ha & He & _). lia.
  - destruct (post_run _ _ _ _ _ _ (run_aggregate_post issues) Hrun)
      as (Hr & _).
    destruct (Hr r eq_refl) as (Hn & Ha & He & _). lia.
  - intros i w0.
    destruct (processIssue_post cfg i w0) as ((fields & Hret & _) & _).
    exists fields. split; [exact Hret | reflexivity].
Qed.

(** The whole run: it never throws; the pool is used as in the loop; and
    the run is aborted unless every update it made succeeded. *)
Lemma run_post :
  post (run cfg)
    (fun o t =>
       is_throw o = false /\
       Forall (running_ok (CONCURRENCY_LIMIT cfg)) t /\
       peak 0 t <= 1 /\
       (CONCURRENCY_LIMIT cfg <= 0 -> peak 0 t = 0) /\
       (exists waiting, submitted t = started t ++ waiting) /\
       ((o = Ret tt /\ aborted t) \/
        Forall (fun ev => is_failed_update ev = false) t)).
Proof.
  unfold run, getIssues, run_persist, process_exit.
  wp_step. wp_step. wp_step. wp_step. wp_step. wp_step. wp_step.
  - (* the issues are listed *)
    wp_step. wp_step. wp_step. wp_step.
    eapply post_conseq; [apply run_aggregate_post |]. cbv beta.
    intros o t (Hr & Hl & Hk & Hu & Hf & Hp & Hp0 & (waiting & Hw)).
    destruct o as [r | e |]; wp.
    all: cbn [app]; rewrite ?app_nil_r, <- ?app_assoc; cbn [app].
    all: try match goal with e : error |- _ => destruct e end;
      cbn [handleError_event].
    all: splits;
      [ reflexivity
      | events
      | cbn; rewrite ?peak_app, ?Hf; cbn; lia
      | intros HC; cbn; rewrite ?peak_app, ?Hf, ?(Hp0 HC); reflexivity
      | exists waiting; cbn; rewrite ?submitted_app, ?started_app, ?Hw; cbn;
        rewrite ?app_nil_r; reflexivity
      | first [ solve [right; try specialize (Hu eq_refl); events]
              | left; split; [reflexivity | run_aborted] ] ].
  - (* the listing fails *)
    wp. cbn [app].
    all: match goal with e : error |- _ => destruct e end;
      cbn [handleError_event].
    all: splits;
      [ reflexivity
      | events
      | cbn; lia
      | intros _; reflexivity
      | exists []; reflexivity
      | right; events ].
Qed.

(** [getIssues] logs and lists, and never hangs. *)
Lemma getIssues_post exclude_labels :
  post (getIssues exclude_labels)
    (fun o t =>
       o <> Hang /\
       Forall (fun ev => match ev with
                         | EvLog _ _ _ | EvListIssues _ => True
                         | _ => False
                         end) t).
Proof.
  unfold getIssues. wp; (split; [discriminate | repeat constructor]).
Qed.

(** What [run] writes is the report of the aggregation of the issues the
    tracker lists, serialised, at the configured path. *)
Lemma run_writes_report w path content ok :
  In (EvWriteFile path content ok) (snd (run cfg w)) ->
  exists issues w0 t0 r w1 t1,
    getIssues None w = (Ret issues, w0, t0) /\
    run_aggregate cfg issues w0 = (Ret r, w1, t1) /\
    path = DATAPATH cfg /\
    content = JSON_stringify (report_value r).
Proof.
  unfold run, try_catch, bind at 1 2. cbn [logger emit].
  pose proof (getIssues_post None w) as [_ Hlist].
  destruct (getIssues None w) as [[[issues | e |] w0] t0] eqn:Hg;
    cbn [fst snd] in Hlist.
  - pose proof (run_aggregate_post issues w0) as (_ & Hloop & _).
    unfold bind at 1.
    destruct (run_aggregate cfg issues w0) as [[[r | e |] w1] t1] eqn:Ha;
      cbn [fst snd] in Hloop.
    + unfold run_persist, bind, call, logger, emit, process_exit.
      destruct (fs_mkdirSync _ w1) as [[e | []] w2];
        [| destruct (fs_writeFileSync _ _ w2) as [[e | []] w3]];
        try rewrite handleError_eq; cbn [fst snd app];
        intros Hin; written_event Hin;
        exists issues, w0, t0, r, w1, t1; auto.
    + unfold bind, logger, emit, process_exit.
      rewrite handleError_eq. cbn [fst snd app].
      intros Hin. written_event Hin.
    + cbn [fst snd app]. intros Hin. written_event Hin.
  - unfold bind, logger, emit, process_exit.
    rewrite handleError_eq. cbn [fst snd app].
    intros Hin. written_event Hin.
  - cbn [fst snd app]. intros Hin. written_event Hin.
Qed.

(** C3, amended: a failure of the update of an issue is not caught where
    it happens; it is thrown out of the task and of the pool to the
    [catch] block of [run], which logs it and exits with status 1.  No
    report is written, so the posts of that issue reach no report. *)
Theorem update_failure_aborts w :
  existsb is_failed_update (snd (run cfg w)) = true ->
  fst (fst (run cfg w)) = Ret tt /\ aborted (snd (run cfg w)).
Proof.
  intros Hfailed.
  destruct (run_post w) as (_ & _ & _ & _ & _ & [[Hret Hab] | Hclean]);
    [split; assumption |].
  apply existsb_exists in Hfailed as (ev & Hin & Hev).
  rewrite Forall_forall in Hclean. rewrite (Hclean ev Hin) in Hev.
  discriminate Hev.
Qed.

(** The events of a task leave the queue of the pool alone. *)
Lemma task_events_unqueued t : Forall task_event t -> enqueued t = [].
Proof.
  induction 1 as [| ev t Hev _ IH]; [reflexivity |].
  destruct ev; cbn in Hev; try discriminate Hev; cbn; exact IH.
Qed.

(** With at least one slot, no call of [add] in the loop of [run] finds
    the pool full: no task joins the queue, and every task that is
    submitted starts at once. *)
Lemma for_issues_admits : forall issues acc,
  1 <= CONCURRENCY_LIMIT cfg ->
  post (for_issues cfg (ConcurrencyPool_new (CONCURRENCY_LIMIT cfg)) acc issues)
    (fun o t => enqueued t = [] /\ submitted t = started t).
Proof.
  induction issues as [| i rest IH]; intros acc HC.
  - cbn [for_issues]. wp. split; reflexivity.
  - cbn [for_issues]. unfold add.
    cbn [maxConcurrency running ConcurrencyPool_new].
    wp_step. wp_step. wp_step. wp_step.
    + apply Z.leb_le in Heqb. lia.
    + wp_step. wp_step. wp_step. wp_step.
      eapply post_conseq; [apply task_post |]. cbv beta.
      intros o t (Hnh & _ & Hev & _).
      pose proof (task_events_unqueued t Hev) as Hte.
      destruct (task_events_quiet t Hev) as (Hts & Htst & _ & _).
      destruct o as [acc1 | e |]; [| | congruence].
      * unfold add_finally. cbn [queue acquired ConcurrencyPool_new]. wp.
        change (released (acquired (ConcurrencyPool_new (CONCURRENCY_LIMIT cfg))))
          with (ConcurrencyPool_new (CONCURRENCY_LIMIT cfg)). cbn [fst snd].
        eapply post_conseq; [apply (IH _ HC) |]. cbv beta.
        intros o' t' [He Hs].
        rewrite ?enqueued_app, ?submitted_app, ?started_app.
        cbn [enqueued submitted started app].
        rewrite ?enqueued_app, ?submitted_app, ?started_app, Hte, Hts, Htst, He,
          Hs.
        cbn. split; reflexivity.
      * unfold add_finally. cbn [queue acquired ConcurrencyPool_new]. wp.
        rewrite ?enqueued_app, ?submitted_app, ?started_app.
        cbn [enqueued submitted started app].
        rewrite ?enqueued_app, ?submitted_app, ?started_app, Hte, Hts, Htst.
        cbn. split; reflexivity.
Qed.

(** The same of the whole run. *)
Lemma run_admits :
  1 <= CONCURRENCY_LIMIT cfg ->
  post (run cfg) (fun o t => enqueued t = [] /\ submitted t = started t).
Proof.
  intros HC.
  assert (Haggregate : forall issues,
             post (run_aggregate cfg issues)
               (fun o t => enqueued t = [] /\ submitted t = started t)).
  { intros issues. unfold run_aggregate. wp_step. wp_step. wp_step.
    eapply post_conseq; [apply (for_issues_admits _ _ HC) |]. cbv beta.
    intros o t [He Hs].
    destruct o as [r | e |]; wp.
    all: rewrite ?enqueued_app, ?submitted_app, ?started_app, ?He, ?Hs;
      cbn; rewrite ?app_nil_r; split; reflexivity. }
  unfold run, getIssues, run_persist, process_exit.
  wp_step. wp_step. wp_step. wp_step. wp_step. wp_step. wp_step.
  - wp_step. wp_step. wp_step. wp_step.
    eapply post_conseq; [apply Haggregate |]. cbv beta.
    intros o t [He Hs].
    destruct o as [r | e |]; wp.
    all: try match goal with e : error |- _ => destruct e end;
      cbn [handleError_event].
    all: rewrite ?enqueued_app, ?submitted_app, ?started_app, ?He, ?Hs;
      cbn [enqueued submitted started app];
      rewrite ?enqueued_app, ?submitted_app, ?started_app, ?He, ?Hs;
      cbn; rewrite ?app_nil_r; split; reflexivity.
  - wp.
    all: match goal with e : error |- _ => destruct e end;
      cbn [handleError_event].
    all: split; reflexivity.
Qed.

(** C8: whatever the ceiling [C >= 0] and the issues, at no point of a run
    are more than [C] tasks in their body, the pool's [running] never
    exceeds [C], and the tasks start in the order in which they are
    submitted: the started tasks are a prefix of the submitted ones; with
    a slot or more no task of the run ever waits, for [run] awaits every
    call of [add].  The pool itself, however its calls interleave, admits
    the waiting tasks in the order in which they joined the queue and
    leaves no task waiting next to a free slot: a task waits only while
    the running tasks and the waiters already woken fill the pool.  For
    every caller that submits no task while a woken waiter has yet to
    resume, the pool keeps to the ceiling and starts the tasks in the
    order in which they were submitted.  When tasks are submitted at once
    and then finish one after the other, the pool starts as many as it
    has slots and one waiting task for each slot that frees, in the order
    of submission, and the others still wait. *)
Theorem pool_ceiling_and_order w :
  0 <= CONCURRENCY_LIMIT cfg ->
  peak 0 (snd (run cfg w)) <= CONCURRENCY_LIMIT cfg /\
  (forall id r,
      In (EvStart id r) (snd (run cfg w)) -> r <= CONCURRENCY_LIMIT cfg) /\
  (exists waiting,
      submitted (snd (run cfg w)) = started (snd (run cfg w)) ++ waiting) /\
  (1 <= CONCURRENCY_LIMIT cfg ->
   enqueued (snd (run cfg w)) = [] /\
   submitted (snd (run cfg w)) = started (snd (run cfg w))) /\
  (forall l,
      enqueued (snd (interleave (fresh (CONCURRENCY_LIMIT cfg)) l)) =
      admitted (snd (interleave (fresh (CONCURRENCY_LIMIT cfg)) l)) ++
      queue (pool_of (fst (interleave (fresh (CONCURRENCY_LIMIT cfg)) l)))) /\
  (forall l,
      no_idle_slot (fst (interleave (fresh (CONCURRENCY_LIMIT cfg)) l))) /\
  (forall l,
      disciplined (fresh (CONCURRENCY_LIMIT cfg)) l ->
      running (pool_of (fst (interleave (fresh (CONCURRENCY_LIMIT cfg)) l)))
      <= CONCURRENCY_LIMIT cfg /\
      submitted (snd (interleave (fresh (CONCURRENCY_LIMIT cfg)) l)) =
      started (snd (interleave (fresh (CONCURRENCY_LIMIT cfg)) l)) ++
      woken (fst (interleave (fresh (CONCURRENCY_LIMIT cfg)) l)) ++
      queue (pool_of (fst (interleave (fresh (CONCURRENCY_LIMIT cfg)) l)))) /\
  (forall ids j,
      (Z.to_nat (CONCURRENCY_LIMIT cfg) + j <= List.length ids)%nat ->
      started (snd (interleave (fresh (CONCURRENCY_LIMIT cfg)) (burst ids j))) =
      firstn (Z.to_nat (CONCURRENCY_LIMIT cfg) + j) ids /\
      queue (pool_of (fst (interleave (fresh (CONCURRENCY_LIMIT cfg))
                             (burst ids j)))) =
      skipn (Z.to_nat (CONCURRENCY_LIMIT cfg) + j) ids /\
      woken (fst (interleave (fresh (CONCURRENCY_LIMIT cfg)) (burst ids j))) =
      [] /\
      running (pool_of (fst (interleave (fresh (CONCURRENCY_LIMIT cfg))
                               (burst ids j)))) =
      CONCURRENCY_LIMIT cfg).
Proof.
  intros HC.
  destruct (run_post w) as (_ & Hk & Hp & Hp0 & Hw & _).
  assert (Hidle : no_idle_slot (fresh (CONCURRENCY_LIMIT cfg))).
  { intros Hq. contradiction Hq. reflexivity. }
  splits.
  - destruct (Z_le_gt_dec (CONCURRENCY_LIMIT cfg) 0) as [H0 | H1]; [| lia].
    rewrite (Hp0 H0). exact HC.
  - intros id r Hin. rewrite Forall_forall in Hk.
    specialize (Hk _ Hin). cbn in Hk. lia.
  - exact Hw.
  - intros H1. exact (run_admits H1 w).
  - intros l.
    apply (interleave_fifo l (fresh (CONCURRENCY_LIMIT cfg)) []). reflexivity.
  - intros l. apply interleave_no_idle_slot. exact Hidle.
  - intros l Hd. split.
    + pose proof (interleave_ceiling l (fresh (CONCURRENCY_LIMIT cfg)) Hd) as H.
      cbn in H. specialize (H HC).
      rewrite interleave_max in H. cbn in H.
      pose proof (Zle_0_nat
                    (List.length
                       (woken (fst (interleave (fresh (CONCURRENCY_LIMIT cfg))
                                      l))))) as Hlen.
      unfold zlength in H. lia.
    + apply (interleave_in_order l (fresh (CONCURRENCY_LIMIT cfg)) [] Hd Hidle).
      reflexivity.
  - intros ids j Hlen.
    destruct (interleave_burst (CONCURRENCY_LIMIT cfg) ids j HC Hlen)
      as [Hstarted Hstate].
    rewrite Hstarted, Hstate. repeat split.
Qed.

End Run.

Lemma counts_add_up_witness :
  @run_aggregate friends defaults friend_issues 0%nat =
  (Ret friend_report,
   snd (fst (@run_aggregate friends defaults friend_issues 0%nat)),
   snd (@run_aggregate friends defaults friend_issues 0%nat)) /\
  (report_active_num friend_report + report_error_num friend_report =
   friends_num friend_report /\
   friends_num friend_report = zlength friend_issues).
Proof.
  split; [vm_compute; reflexivity |].
  pose proof (@counts_add_up friends defaults friend_issues 0%nat
                friend_report
                (snd (fst (@run_aggregate friends defaults friend_issues
                             0%nat)))
                (snd (@run_aggregate friends defaults friend_issues 0%nat))
                ltac:(vm_compute; reflexivity)) as (H1 & H2 & _).
  split; [exact H1 | exact H2].
Defined.

Lemma report_posts_from_returned_blocks_witness :
  @run_aggregate friends defaults friend_issues 0%nat =
  (Ret friend_report,
   snd (fst (@run_aggregate friends defaults friend_issues 0%nat)),
   snd (@run_aggregate friends defaults friend_issues 0%nat)) /\
  filter (@processed friends defaults) friend_issues =
  [ {| number := 2; body := Some friend_body; labels := [] |} ] /\
  report_article_num friend_report =
  zlength (flat_map (@entry_posts friends)
             (filter (@processed friends defaults) friend_issues)).
Proof.
  split; [vm_compute; reflexivity |]. split; [vm_compute; reflexivity |].
  exact (proj1 (proj2
           (@report_posts_from_returned_blocks friends defaults friend_issues
              0%nat friend_report
              (snd (fst (@run_aggregate friends defaults friend_issues 0%nat)))
              (snd (@run_aggregate friends defaults friend_issues 0%nat))
              ltac:(vm_compute; reflexivity)))).
Defined.

(** C2 as the specification states it fails: the block of the issue
    parses and embeds one post, and the [feed] it declares is an object
    that the template literal of [processIssue] cannot convert to a
    string; the [catch] block answers with a result without [data], the
    issue is counted as active, and the report holds no article and counts
    none. *)
Lemma unconverted_feed_drops_posts :
  @parsed_block opaque opaque_issue = Some opaque_data /\
  @entry_posts opaque opaque_issue = [opaque_post] /\
  ToString (field opaque_data "feed") =
  inl (PlainError "Cannot convert object to primitive value") /\
  fst (fst (@processIssue opaque defaults opaque_issue 0%nat)) =
  Ret (VObj [("status", VStr "error"); ("posts", VArr []);
             ("feedUrl", VNull)]) /\
  exists r,
    fst (fst (@run_aggregate opaque defaults [opaque_issue] 0%nat)) = Ret r /\
    report_active_num r = 1 /\
    report_article_num r = 0 /\
    article_data r = [].
Proof.
  split; [vm_compute; reflexivity |]. split; [vm_compute; reflexivity |].
  split; [reflexivity |]. split; [vm_compute; reflexivity |].
  eexists. split; [vm_compute; reflexivity |]. repeat split.
Qed.


Lemma error_count_zero_witness :
  @run_aggregate friends defaults friend_issues 0%nat =
  (Ret friend_report,
   snd (fst (@run_aggregate friends defaults friend_issues 0%nat)),
   snd (@run_aggregate friends defaults friend_issues 0%nat)) /\
  report_error_num friend_report = 0 /\
  report_active_num friend_report = friends_num friend_report.
Proof.
  split; [vm_compute; reflexivity |].
  pose proof (@error_count_zero friends defaults friend_issues 0%nat
                friend_report
                (snd (fst (@run_aggregate friends defaults friend_issues 0%nat)))
                (snd (@run_aggregate friends defaults friend_issues 0%nat))
                ltac:(vm_compute; reflexivity)) as H.
  split; [exact (proj1 H) | exact (proj1 (proj2 H))].
Defined.

Lemma update_failure_aborts_witness :
  existsb is_failed_update (snd (@run refused defaults 0%nat)) = true /\
  fst (fst (@run refused defaults 0%nat)) = Ret tt /\
  aborted (snd (@run refused defaults 0%nat)).
Proof.
  split; [vm_compute; reflexivity |].
  apply (@update_failure_aborts refused defaults 0%nat).
  vm_compute. reflexivity.
Defined.

(** C3 as the specification states it fails: the tracker refuses the
    update of issue 2, whose block embeds three posts; the run exits with
    status 1 and writes no report, and issue 1 is not processed. *)
Lemma update_failure_not_isolated :
  List.length (@entry_posts refused (Issue 2 (Some friend_body) [])) = 3%nat /\
  existsb is_failed_update (snd (@run refused defaults 0%nat)) = true /\
  existsb is_exit_1 (snd (@run refused defaults 0%nat)) = true /\
  existsb is_write (snd (@run refused defaults 0%nat)) = false /\
  submitted (snd (@run refused defaults 0%nat)) = [2].
Proof. vm_compute. repeat split. Qed.

Lemma pool_ceiling_and_order_witness :
  0 <= CONCURRENCY_LIMIT two_slots /\
  In (EvStart 2 1) (snd (@run friends two_slots 0%nat)) /\
  peak 0 (snd (@run friends two_slots 0%nat)) <= CONCURRENCY_LIMIT two_slots /\
  1 <= CONCURRENCY_LIMIT two_slots /\
  enqueued (snd (@run friends two_slots 0%nat)) = [] /\
  burst [1; 2; 3; 4] 1 =
  [Submit 1; Submit 2; Submit 3; Submit 4; Finish 1; Resume] /\
  disciplined (fresh (CONCURRENCY_LIMIT two_slots)) (burst [1; 2; 3; 4] 1) /\
  enqueued
    (snd (interleave (fresh (CONCURRENCY_LIMIT two_slots))
            (burst [1; 2; 3; 4] 1))) = [3; 4] /\
  admitted
    (snd (interleave (fresh (CONCURRENCY_LIMIT two_slots))
            (burst [1; 2; 3; 4] 1))) = [3] /\
  started
    (snd (interleave (fresh (CONCURRENCY_LIMIT two_slots))
            (burst [1; 2; 3; 4] 1))) = [1; 2; 3] /\
  queue
    (pool_of
       (fst (interleave (fresh (CONCURRENCY_LIMIT two_slots))
               (burst [1; 2; 3; 4] 1)))) = [4] /\
  running
    (pool_of
       (fst (interleave (fresh (CONCURRENCY_LIMIT two_slots))
               (burst [1; 2; 3; 4] 1))))
  <= CONCURRENCY_LIMIT two_slots.
Proof.
  pose proof (@pool_ceiling_and_order friends two_slots 0%nat
                ltac:(vm_compute; discriminate))
    as (H1 & H2 & _ & H4 & _ & _ & H7 & H8).
  assert (Hin : In (EvStart 2 1) (snd (@run friends two_slots 0%nat))).
  { vm_compute. repeat first [left; reflexivity | right]. }
  assert (Hd : disciplined (fresh (CONCURRENCY_LIMIT two_slots))
                 (burst [1; 2; 3; 4] 1)).
  { cbn. repeat split. }
  assert (Hone : 1 <= CONCURRENCY_LIMIT two_slots).
  { vm_compute. discriminate. }
  destruct (H8 [1; 2; 3; 4] 1%nat ltac:(cbn; lia)) as (Hs & Hq & _ & _).
  split; [vm_compute; discriminate |]. split; [exact Hin |].
  split; [exact H1 |]. split; [exact (H2 2 1 Hin) |].
  split; [exact (proj1 (H4 Hone)) |]. split; [reflexivity |].
  split; [exact Hd |]. split; [reflexivity |]. split; [reflexivity |].
  split; [exact Hs |]. split; [exact Hq |].
  exact (proj1 (H7 _ Hd)).
Defined.

(** A pool of two slots and four tasks submitted at once: the third and
    the fourth wait and are admitted in that order. *)
Example four_tasks_two_slots :
  interleave (fresh 2)
    [Submit 1; Submit 2; Submit 3; Submit 4; Finish 2; Resume; Finish 1;
     Resume] =
  ({| pool_of := {| maxConcurrency := 2; running := 2; queue := [] |};
      woken := [] |},
   [EvSubmit 1; EvStart 1 1; EvSubmit 2; EvStart 2 2;
    EvSubmit 3; EvEnqueue 3; EvSubmit 4; EvEnqueue 4;
    EvFinish 2 1; EvWake 3; EvStart 3 2;
    EvFinish 1 1; EvWake 4; EvStart 4 2]).
Proof. reflexivity. Qed.

(** The run of the scenario: the two tasks are submitted and started in
    the order of the issues, one at a time, and the report is written. *)
Example friends_run :
  submitted (snd (@run friends defaults 0%nat)) = [2; 1] /\
  started (snd (@run friends defaults 0%nat)) = [2; 1] /\
  peak 0 (snd (@run friends defaults 0%nat)) = 1 /\
  existsb is_write (snd (@run friends defaults 0%nat)) = true /\
  existsb is_exit_1 (snd (@run friends defaults 0%nat)) = false.
Proof. vm_compute. repeat split. Qed.

(** A ceiling of 0: the first call of [add] waits for ever and no task
    starts. *)
Example zero_ceiling_hangs :
  fst (fst (@run friends
              {| RETRY_TIMES := 3; POSTS_COUNT := 2; DATAPATH := "all.json";
                 DATE_FORMAT := "YYYY-MM-DD HH:mm:ss";
                 CONCURRENCY_LIMIT := 0 |} 0%nat)) = Hang.
Proof. vm_compute. reflexivity. Qed.

(** The first scenario of the specification: the fetch succeeds and the
    result of [processIssue] is active with the post of the feed, yet the
    report holds no article, for the block of the issue embeds none. *)
Example live_posts_not_reported :
  (exists fields,
      fst (fst (@processIssue live defaults live_issue 0%nat)) =
      Ret (VObj fields) /\
      lookup "status" fields = VStr "active" /\
      lookup "posts" fields =
      VArr [VObj [("title", VStr "Hello"); ("link", VStr "https://x/1");
                  ("published", VStr "2024-01-01 00:00:00")]]) /\
  (exists r,
      fst (fst (@run_aggregate live defaults [live_issue] 0%nat)) = Ret r /\
      report_active_num r = 1 /\
      report_article_num r = 0 /\
      article_data r = []).
Proof.
  split.
  - eexists. split; [vm_compute; reflexivity |]. split; reflexivity.
  - eexists. split; [vm_compute; reflexivity |]. repeat split.
Qed.

(** [active_num] counts the issues that were processed, not the feeds
    that are active: both issues of the scenario have the status [error]
    and both count as active. *)
Example active_num_counts_processed :
  map (fun i =>
         match fst (fst (@processIssue friends defaults i 0%nat)) with
         | Ret result => field result "status"
         | _ => VUndefined
         end) friend_issues = [VStr "error"; VStr "error"] /\
  report_active_num friend_report = 2.
Proof. split; [vm_compute |]; reflexivity. Qed.

(** * Further properties *)

(** ** getIssues *)

Section GetIssues.

Context {RT : Runtime}.

Lemma has_excluded_label_iff excluded i :
  has_excluded_label excluded i = true <->
  exists l, In l excluded /\ In l (labels i).
Proof.
  unfold has_excluded_label. rewrite existsb_exists. split.
  - intros (l & Hl & Hex). apply existsb_exists in Hex as (l' & Hl' & Heq).
    apply String.eqb_eq in Heq. subst l'. eauto.
  - intros (l & Hl & Hli). exists l. split; [exact Hl |].
    apply existsb_exists. exists l. split; [exact Hli | apply String.eqb_refl].
Qed.

(** X1: when the listing succeeds, [getIssues] makes one listing call and
    returns, in the order of the listing, exactly the listed issues that
    carry none of the excluded labels; a missing or empty list of labels
    excludes nothing. *)
Theorem getIssues_keeps exclude_labels w issues w1 :
  octokit_paginate w = (inr issues, w1) ->
  exists kept t,
    getIssues exclude_labels w = (Ret kept, w1, t) /\
    kept =
    filter (fun i => negb (has_excluded_label (excluded_of exclude_labels) i))
      issues /\
    (forall i,
        In i kept <->
        In i issues /\
        forall l, In l (excluded_of exclude_labels) -> ~ In l (labels i)) /\
    (excluded_of exclude_labels = [] -> kept = issues) /\
    count (fun ev => match ev with EvListIssues _ => true | _ => false end) t
    = 1%nat.
Proof.
  intros Hlist.
  assert (Hall : forall l : list issue,
             filter (fun i => negb (has_excluded_label [] i)) l = l).
  { induction l as [| i l IH]; [reflexivity |]. cbn [filter]. rewrite IH.
    reflexivity. }
  assert (Hin : forall excluded i,
             In i (filter (fun i => negb (has_excluded_label excluded i)) issues)
             <-> In i issues /\ forall l, In l excluded -> ~ In l (labels i)).
  { intros excluded i. rewrite filter_In, negb_true_iff.
    split; intros [Hi Hno]; (split; [exact Hi |]).
    - intros l Hl Hli.
      assert (Hyes : has_excluded_label excluded i = true)
        by (apply has_excluded_label_iff; eauto).
      congruence.
    - destruct (has_excluded_label excluded i) eqn:Hex; [| reflexivity].
      apply has_excluded_label_iff in Hex as (l & Hl & Hli).
      destruct (Hno l Hl Hli). }
  unfold getIssues, try_catch, bind, call, logger, emit. rewrite Hlist.
  destruct exclude_labels as [[| x excluded] |]; cbn [excluded_of].
  - exists issues. eexists. split; [reflexivity |].
    split; [symmetry; apply Hall |].
    split; [| split; reflexivity].
    intros i. split; [intros Hi; split; [exact Hi | intros l []] |].
    intros [Hi _]. exact Hi.
  - eexists. eexists. split; [reflexivity |]. split; [reflexivity |].
    split; [apply Hin |]. split; [discriminate | reflexivity].
  - exists issues. eexists. split; [reflexivity |].
    split; [symmetry; apply Hall |].
    split; [| split; reflexivity].
    intros i. split; [intros Hi; split; [exact Hi | intros l []] |].
    intros [Hi _]. exact Hi.
Qed.

End GetIssues.

Lemma getIssues_keeps_witness :
  @octokit_paginate labelled 0%nat = (inr labelled_issues, 0%nat) /\
  fst (fst (@getIssues labelled (Some ["blocked"]) 0%nat)) =
  Ret [ {| number := 4; body := None; labels := ["friend"] |} ].
Proof.
  split; [reflexivity |].
  destruct (@getIssues_keeps labelled (Some ["blocked"]) 0%nat labelled_issues
              0%nat eq_refl) as (kept & t & Hrun & Hkept & _).
  rewrite Hrun, Hkept. reflexivity.
Defined.

(** ** parseFeed *)

Section ParseFeedPosts.

Context {RT : Runtime}.
Variable cfg : Config.

(** [parseFeed] resolves with no post, or with the posts of the document
    cheerio made of the body. *)
Lemma parseFeed_result feedUrl w :
  fst (fst (parseFeed cfg feedUrl w)) = Ret (VArr []) \/
  exists doc,
    fst (fst (parseFeed cfg feedUrl w)) = Ret (VArr (feed_posts cfg doc)).
Proof.
  destruct (axios_get feedUrl w) as [[e | [status data]] w1] eqn:Hget.
  - rewrite (parseFeed_rejected cfg _ _ _ _ Hget). left. reflexivity.
  - destruct (cheerio_load data) as [e | doc] eqn:Hload.
    + rewrite (parseFeed_unparsable cfg _ _ _ _ _ _ Hget Hload). left.
      reflexivity.
    + rewrite (parseFeed_parsed cfg _ _ _ _ _ _ Hget Hload). right.
      exists doc. reflexivity.
Qed.

Lemma flat_map_item_post_length isRss : forall items,
  (List.length (flat_map (item_post cfg isRss) items) <= List.length items)%nat.
Proof.
  induction items as [| el rest IH]; [reflexivity |].
  cbn [flat_map]. rewrite length_app. unfold item_post at 1.
  destruct (string_truthy (item_title el) && opt_truthy (item_link isRss el));
    cbn; lia.
Qed.

Lemma slice0_length {A} (l : list A) (e : Z) :
  0 <= e -> zlength (slice0 l e) <= e.
Proof.
  intros He. unfold slice0, zlength.
  destruct (e <? 0) eqn:Hneg; [apply Z.ltb_lt in Hneg; lia |].
  pose proof (firstn_le_length (Z.to_nat e) l). lia.
Qed.

(** X2: whatever the feed answers, [parseFeed] resolves with an array of at
    most [POSTS_COUNT] posts when [POSTS_COUNT] is not negative; with
    [POSTS_COUNT = 0] it resolves with no post at all. *)
Theorem parseFeed_posts_bounded feedUrl w :
  0 <= POSTS_COUNT cfg ->
  exists posts,
    fst (fst (parseFeed cfg feedUrl w)) = Ret (VArr posts) /\
    zlength posts <= POSTS_COUNT cfg.
Proof.
  intros Hcount.
  destruct (parseFeed_result feedUrl w) as [-> | (doc & ->)].
  - exists []. split; [reflexivity | exact Hcount].
  - exists (feed_posts cfg doc). split; [reflexivity |].
    unfold feed_posts.
    pose proof (flat_map_item_post_length (fst (detect_items doc))
                  (slice0 (snd (detect_items doc)) (POSTS_COUNT cfg))) as Hlen.
    pose proof (slice0_length (snd (detect_items doc)) (POSTS_COUNT cfg) Hcount)
      as Hslice.
    unfold zlength in *. lia.
Qed.

(** X3: every post [parseFeed] resolves with is an object of exactly the
    fields [title], [link] and [published], all three strings, with a
    title and a link that are not empty: an item without a title or a
    link yields no post. *)
Theorem parseFeed_posts_shape feedUrl w :
  exists posts,
    fst (fst (parseFeed cfg feedUrl w)) = Ret (VArr posts) /\
    Forall (fun p =>
              exists t l published,
                p = VObj [("title", VStr t); ("link", VStr l);
                          ("published", VStr published)] /\
                t <> "" /\ l <> "") posts.
Proof.
  destruct (parseFeed_result feedUrl w) as [-> | (doc & ->)].
  - exists []. split; [reflexivity | constructor].
  - exists (feed_posts cfg doc). split; [reflexivity |].
    unfold feed_posts. apply Forall_flat_map, Forall_forall. intros el _.
    unfold item_post.
    destruct (string_truthy (item_title el)) eqn:Ht; [| constructor].
    destruct (item_link (fst (detect_items doc)) el) as [l |] eqn:Hl;
      [| constructor].
    cbn [opt_truthy andb]. destruct (string_truthy l) eqn:Hlt; [| constructor].
    constructor; [| constructor].
    exists (item_title el), l,
      (item_formattedPublished cfg (fst (detect_items doc)) el).
    unfold string_truthy in Ht, Hlt.
    apply negb_true_iff in Ht, Hlt. apply String.eqb_neq in Ht, Hlt.
    split; [reflexivity | split; assumption].
Qed.

End ParseFeedPosts.

Lemma parseFeed_posts_bounded_witness :
  0 <= POSTS_COUNT defaults /\
  exists posts,
    fst (fst (@parseFeed live defaults (VStr "https://example.com/rss") 0%nat))
    = Ret (VArr posts) /\
    zlength posts <= POSTS_COUNT defaults.
Proof.
  split; [cbn; lia |].
  apply (@parseFeed_posts_bounded live defaults). cbn. lia.
Defined.

(** ** processIssue *)

Section ProcessIssueMore.

Context {RT : Runtime}.
Variable cfg : Config.

(** [withRetry] around [parseFeed] asks for the feed at most once and
    never pauses. *)
Lemma withRetry_parseFeed_fetch feedUrl retries :
  post (withRetry (parseFeed cfg feedUrl) retries)
    (fun o t =>
       ((exists posts, o = Ret (Some (VArr posts))) \/ o = Ret None) /\
       (count is_get t <= 1)%nat /\ count is_delay t = 0%nat).
Proof.
  intros w. destruct (Z_le_gt_dec retries 0) as [Hle | Hgt].
  - unfold withRetry, withRetry_delay.
    replace (Z.to_nat retries) with O by lia. cbn. auto.
  - pose proof (parseFeed_post cfg feedUrl w) as ((posts & Ho) & Hev & Hget).
    destruct (parseFeed cfg feedUrl w) as [[o w1] t1] eqn:Hparse.
    cbn [fst snd] in *. subst o.
    rewrite (withRetry_first_attempt _ retries _ _ _ _ ltac:(lia) Hparse).
    cbn [fst snd]. split; [left; eauto |]. split; [lia |].
    apply count_none. eapply Forall_impl; [| exact Hev].
    intros ev. unfold feed_event. destruct ev; cbn; congruence.
Qed.

Ltac no_block H :=
  rewrite parsed_block_eq in H;
  repeat match goal with
    | H' : body _ = _ |- _ => rewrite H' in H
    | H' : string_truthy _ = _ |- _ => rewrite H' in H
    | H' : match match_fence _ with _ => _ end = _ |- _ => rewrite H' in H
    | H' : JSON_parse _ = _ |- _ => rewrite H' in H
    end;
  try discriminate H.

Ltac counted :=
  unfold count in *; rewrite ?filter_app, ?length_app; cbn;
  try match goal with e : error |- _ => destruct e; cbn end;
  try lia.

(** [processIssue] always resolves with an object.  Its status is
    [active] exactly when the block declares a feed and the fetch returned
    at least one post; otherwise the status is [error] and [posts] is
    empty.  It asks for the feed at most once and never pauses. *)
Lemma processIssue_shape i :
  post (processIssue cfg i)
    (fun o t =>
       (exists fields,
           o = Ret (VObj fields) /\
           ((lookup "status" fields = VStr "active" /\
             (exists p ps, lookup "posts" fields = VArr (p :: ps)) /\
             truthy (lookup "feedUrl" fields) = true) \/
            (lookup "status" fields = VStr "error" /\
             lookup "posts" fields = VArr []))) /\
       (count is_get t <= 1)%nat /\
       count is_delay t = 0%nat /\
       (parsed_block i = None -> o = Ret error_result)).
Proof.
  unfold processIssue, process_json. wp.
  all: try (eapply post_conseq; [apply withRetry_parseFeed_fetch |];
            cbv beta; intros o t [[(posts & ->) | ->] [Hget Hdelay]]; wp).
  all: splits;
    [ eexists; split; [reflexivity |]
    | counted | counted | intros Hnone; try reflexivity; no_block Hnone ].
  all: try (right; split; reflexivity).
  all: try match goal with
         | H : get (VArr _) _ = inl _ |- _ => discriminate H
         | H : get VUndefined _ = inr _ |- _ => discriminate H
         end.
  cbn. destruct posts as [| p ps]; [right; split; reflexivity | left].
  split; [reflexivity | split; [eauto | assumption]].
Qed.

(** X4: whatever the issue and the world, [processIssue] resolves with an
    object whose status is [active] or [error]: [active] comes with a
    non-empty array of fetched posts and a truthy feed URL, [error] with
    an empty array of posts.  It never throws and never hangs. *)
Theorem processIssue_status i w :
  exists fields,
    fst (fst (processIssue cfg i w)) = Ret (VObj fields) /\
    ((lookup "status" fields = VStr "active" /\
      (exists p ps, lookup "posts" fields = VArr (p :: ps)) /\
      truthy (lookup "feedUrl" fields) = true) \/
     (lookup "status" fields = VStr "error" /\
      lookup "posts" fields = VArr [])).
Proof. exact (proj1 (processIssue_shape i w)). Qed.

(** X5: whatever [RETRY_TIMES] is, processing one issue calls [axios.get] at
    most once and never pauses between attempts: the failures of a fetch
    are caught inside [parseFeed], so [withRetry] sees none. *)
Theorem processIssue_fetches_once i w :
  (count is_get (snd (processIssue cfg i w)) <= 1)%nat /\
  count is_delay (snd (processIssue cfg i w)) = 0%nat.
Proof.
  destruct (processIssue_shape i w) as (_ & Hget & Hdelay & _).
  split; assumption.
Qed.

(** X6: an issue without a structured block (no body, an empty body, no JSON
    fence, or JSON that does not parse) is answered with the bare error
    result, which has neither [data] nor [newBody]; nothing is fetched
    and the world is left as it was. *)
Theorem processIssue_no_block i w :
  parsed_block i = None ->
  exists t,
    processIssue cfg i w = (Ret error_result, w, t) /\
    Forall (fun ev => is_log ev = true) t /\
    get error_result "data" = inr VUndefined /\
    get error_result "newBody" = inr VUndefined.
Proof.
  intros Hnone. rewrite parsed_block_eq in Hnone.
  unfold processIssue, process_json, try_catch, bind, logger, emit, lift.
  destruct (body i) as [b |].
  - destruct (string_truthy b).
    + destruct (match match_fence b with
                | Some m => match_object m
                | None => None
                end) as [json |].
      * destruct (JSON_parse json) as [e | d]; [| discriminate Hnone].
        destruct e; cbn; eexists; (split; [reflexivity |]);
          (split; [repeat constructor | split; reflexivity]).
      * cbn. eexists. split; [reflexivity |].
        split; [repeat constructor | split; reflexivity].
    + cbn. eexists. split; [reflexivity |].
      split; [repeat constructor | split; reflexivity].
  - cbn. eexists. split; [reflexivity |].
    split; [repeat constructor | split; reflexivity].
Qed.

(** X7: with [RETRY_TIMES <= 0] the loop of [withRetry] makes no attempt and
    resolves with [undefined]; reading [posts.length] then throws, and an
    issue whose block declares a feed is answered with the bare error
    result: the feed is never asked for and the block is dropped from the
    result. *)
Theorem processIssue_no_attempt i d w :
  parsed_block i = Some d ->
  truthy (field d "feed") = true ->
  RETRY_TIMES cfg <= 0 ->
  exists t,
    processIssue cfg i w = (Ret error_result, w, t) /\
    count is_get t = 0%nat /\
    Exists (fun ev => is_error_log ev = true) t.
Proof.
  intros Hblock Hfeed Hretry. rewrite parsed_block_eq in Hblock.
  unfold processIssue, process_json, try_catch, bind, logger, emit, lift.
  destruct (body i) as [b |]; [| discriminate Hblock].
  destruct (string_truthy b); [| discriminate Hblock].
  destruct (match match_fence b with
            | Some m => match_object m
            | None => None
            end) as [json |]; [| discriminate Hblock].
  destruct (JSON_parse json) as [e | d']; [discriminate Hblock |].
  injection Hblock as ->. unfold field in Hfeed.
  destruct (get d "feed") as [e | feedUrl] eqn:Hget; [discriminate Hfeed |].
  cbn -[truthy withRetry get ToString]. rewrite Hget.
  cbn -[truthy withRetry get ToString]. rewrite Hfeed.
  unfold ToString, withRetry, withRetry_delay.
  replace (Z.to_nat (RETRY_TIMES cfg)) with O by lia.
  destruct (ToPrimitive_throws feedUrl);
    cbn; eexists; (split; [reflexivity |]); (split; [reflexivity |]);
    repeat first [ apply Exists_cons_hd; reflexivity | apply Exists_cons_tl ].
Qed.

End ProcessIssueMore.

Lemma processIssue_no_block_witness :
  @parsed_block friends {| number := 1; body := None; labels := [] |} = None /\
  fst (fst (@processIssue friends defaults
              {| number := 1; body := None; labels := [] |} 0%nat)) =
  Ret error_result.
Proof.
  split; [reflexivity |].
  destruct (@processIssue_no_block friends defaults
              {| number := 1; body := None; labels := [] |} 0%nat eq_refl)
    as (t & Hrun & _).
  rewrite Hrun. reflexivity.
Defined.

Lemma processIssue_no_attempt_witness :
  @parsed_block live live_issue = Some live_data /\
  truthy (field live_data "feed") = true /\
  RETRY_TIMES no_retry <= 0 /\
  fst (@processIssue live no_retry live_issue 0%nat) = (Ret error_result, 0%nat).
Proof.
  split; [reflexivity |]. split; [reflexivity |]. split; [cbn; lia |].
  destruct (@processIssue_no_attempt live no_retry live_issue live_data 0%nat
              eq_refl eq_refl ltac:(cbn; lia)) as (t & Hrun & _).
  rewrite Hrun. reflexivity.
Defined.

(** ** The tasks and the loop of run *)

Section RunMore.

Context {RT : Runtime}.
Variable cfg : Config.

Lemma post_both {A} (m : M A) (P Q : outcome A -> list event -> Prop) :
  post m P -> post m Q -> post m (fun o t => P o t /\ Q o t).
Proof. intros HP HQ w. split; [apply HP | apply HQ]. Qed.

Lemma updated_app t1 t2 : updated (t1 ++ t2) = updated t1 ++ updated t2.
Proof.
  induction t1 as [| ev t1 IH]; [reflexivity |].
  destruct ev; cbn; rewrite IH; reflexivity.
Qed.

Lemma inner_events_update_nothing t :
  Forall inner_event t -> updated t = [].
Proof.
  induction 1 as [| ev t Hev _ IH]; [reflexivity |].
  destruct ev; cbn in Hev; try discriminate Hev; exact IH.
Qed.

(** What the merge adds: as many articles as the block embeds posts. *)
Lemma merged_balance d acc acc' :
  merged d acc = Ret acc' ->
  article_num acc' - zlength (allArticles acc') =
  article_num acc - zlength (allArticles acc).
Proof.
  unfold merged, block_articles.
  destruct (forEach_push _ _ (block_posts d) []) as [e | pushed] eqn:Hpush;
    [discriminate |].
  intros [= <-]. cbn. apply forEach_push_length in Hpush.
  rewrite zlength_app. cbn in Hpush. change (zlength []) with 0 in Hpush. lia.
Qed.

(** A task asks once for the update of its issue, with an [undefined]
    body when the issue has no structured block, and keeps the number of
    articles equal to the count it adds to. *)
Lemma task_updates i acc :
  post (task cfg i acc)
    (fun o t =>
       updated t = [number i] /\
       (parsed_block i = None ->
        exists ok, In (EvUpdate (number i) VUndefined ok) t) /\
       (forall acc',
           o = Ret acc' ->
           article_num acc' - zlength (allArticles acc') =
           article_num acc - zlength (allArticles acc))).
Proof.
  unfold task. wp_step. wp_step. wp_step.
  eapply post_conseq;
    [apply (post_both _ _ _ (processIssue_post cfg i) (processIssue_shape cfg i)) |].
  cbv beta. intros o t [[(fields & -> & _) Hev] (_ & _ & _ & Hnone)].
  pose proof (inner_events_update_nothing t Hev) as Hupd.
  cbn [truthy]. wp.
  - apply post_merge_articles. splits.
    + rewrite !updated_app, Hupd. reflexivity.
    + intros Hb. specialize (Hnone Hb). injection Hnone as ->.
      cbn in H. injection H as <-. exists true.
      rewrite !in_app_iff. cbn. tauto.
    + intros acc' Hacc. apply merged_balance in Hacc. exact Hacc.
  - splits.
    + rewrite !updated_app, Hupd. reflexivity.
    + intros Hb. specialize (Hnone Hb). injection Hnone as ->.
      cbn in H. injection H as <-. exists false.
      rewrite !in_app_iff. cbn. tauto.
    + discriminate.
  - discriminate.
Qed.

(** The loop of [run] from a fresh pool.  With a ceiling of at least one
    it never waits for ever.  When it completes, every issue was
    submitted, started and updated once, in the order of the list.  When
    it throws, it does so in the task of one issue, after the update of
    that issue was asked for: the issues before it were updated and those
    after it were never submitted. *)
Lemma for_issues_order : forall issues acc,
  post (for_issues cfg (ConcurrencyPool_new (CONCURRENCY_LIMIT cfg)) acc issues)
    (fun o t =>
       (1 <= CONCURRENCY_LIMIT cfg -> o <> Hang) /\
       (forall r,
           o = Ret r ->
           submitted t = map number issues /\
           started t = map number issues /\
           updated t = map number issues /\
           article_num (snd r) - zlength (allArticles (snd r)) =
           article_num acc - zlength (allArticles acc)) /\
       (forall e,
           o = Throw e ->
           exists done i rest,
             issues = done ++ i :: rest /\
             submitted t = map number (done ++ [i]) /\
             started t = map number (done ++ [i]) /\
             updated t = map number (done ++ [i]))).
Proof.
  induction issues as [| i rest IH]; intros acc.
  - cbn [for_issues]. wp. splits.
    + discriminate.
    + intros r [= <-]. cbn. splits; reflexivity.
    + discriminate.
  - cbn [for_issues]. unfold add.
    cbn [maxConcurrency running ConcurrencyPool_new].
    wp_step. wp_step. wp_step. wp_step.
    + apply Z.leb_le in Heqb. wp. splits; [lia | discriminate | discriminate].
    + apply Z.leb_gt in Heqb.
      wp_step. wp_step. wp_step. wp_step.
      eapply post_conseq;
        [apply (post_both _ _ _ (task_post cfg i acc) (task_updates i acc)) |].
      cbv beta.
      intros o t [(Hnh & _ & Hev & _) (Hupd & _ & Hbal)].
      destruct (task_events_quiet t Hev) as (Hts & Htst & _ & _).
      destruct o as [acc1 | e |]; [| | congruence].
      * unfold add_finally. cbn [queue acquired ConcurrencyPool_new]. wp.
        change (released (acquired (ConcurrencyPool_new (CONCURRENCY_LIMIT cfg))))
          with (ConcurrencyPool_new (CONCURRENCY_LIMIT cfg)). cbn [fst snd].
        eapply post_conseq; [apply IH |]. cbv beta.
        intros o' t' (Hh & Hr & Ht).
        cbn [app running acquired ConcurrencyPool_new].
        rewrite ?app_nil_r, <- ?app_assoc. cbn [app].
        splits.
        -- exact Hh.
        -- intros r ->. destruct (Hr r eq_refl) as (Hs & Hst & Hu & Hb).
           cbn. rewrite ?submitted_app, ?started_app, ?updated_app.
           cbn [submitted started updated].
           rewrite Hts, Htst, Hupd, Hs, Hst, Hu. cbn.
           splits; try reflexivity.
           rewrite Hb. apply Hbal. reflexivity.
        -- intros e ->.
           destruct (Ht e eq_refl) as (done & j & rest' & -> & Hs & Hst & Hu).
           exists (i :: done), j, rest'.
           cbn. rewrite ?submitted_app, ?started_app, ?updated_app.
           cbn [submitted started updated].
           rewrite Hts, Htst, Hupd, Hs, Hst, Hu. cbn.
           splits; reflexivity.
      * unfold add_finally. cbn [queue acquired ConcurrencyPool_new]. wp.
        cbn [app running acquired ConcurrencyPool_new].
        rewrite ?app_nil_r, <- ?app_assoc. cbn [app].
        splits.
        -- discriminate.
        -- discriminate.
        -- intros e' _. exists [], i, rest.
           cbn. rewrite ?submitted_app, ?started_app, ?updated_app.
           cbn [submitted started updated].
           rewrite Hts, Htst, Hupd. cbn. splits; reflexivity.
Qed.

(** The aggregation, for every list of issues. *)
Lemma run_aggregate_order issues :
  post (run_aggregate cfg issues)
    (fun o t =>
       (1 <= CONCURRENCY_LIMIT cfg -> o <> Hang) /\
       (forall r,
           o = Ret r ->
           submitted t = map number issues /\
           started t = map number issues /\
           updated t = map number issues /\
           report_article_num r = zlength (article_data r)) /\
       (forall e,
           o = Throw e ->
           exists done i rest,
             issues = done ++ i :: rest /\
             submitted t = map number (done ++ [i]) /\
             started t = map number (done ++ [i]) /\
             updated t = map number (done ++ [i]))).
Proof.
  unfold run_aggregate. wp_step. wp_step. wp_step.
  eapply post_conseq; [apply for_issues_order |]. cbv beta.
  intros o t (Hh & Hr & Ht).
  destruct o as [r | e |]; wp; cbn [app]; rewrite ?app_nil_r.
  - splits; [discriminate | | discriminate].
    intros r' [= <-]. destruct (Hr r eq_refl) as (Hs & Hst & Hu & Hb).
    cbn. rewrite ?submitted_app, ?started_app, ?updated_app.
    cbn [submitted started updated]. rewrite ?app_nil_r.
    splits; try assumption.
    pose proof (Permutation_length
                  (Array_sort_elements compare_created
                     (allArticles (snd r)))) as Hlen.
    cbn in Hb. unfold zlength in *. lia.
  - splits; [discriminate | discriminate |].
    intros e' _. destruct (Ht e eq_refl) as (done & i & rest & H).
    exists done, i, rest. exact H.
  - splits; [| discriminate | discriminate].
    intros HC _. exact (Hh HC eq_refl).
Qed.

(** X8: whatever the issue, the counters and the world, the task of an issue
    asks the tracker for exactly one update, that of this issue. *)
Theorem task_updates_once i acc w :
  updated (snd (task cfg i acc w)) = [number i].
Proof. exact (proj1 (task_updates i acc w)). Qed.

(** X9: the task of an issue without a structured block still asks for the
    update of the issue, and the body it sends is [undefined]: the result
    of [processIssue] has no [newBody] then. *)
Theorem task_update_without_block i acc w :
  parsed_block i = None ->
  exists ok, In (EvUpdate (number i) VUndefined ok) (snd (task cfg i acc w)).
Proof. exact (proj1 (proj2 (task_updates i acc w))). Qed.

(** X10: when the aggregation completes, every listed issue was handed to the
    pool, started and updated exactly once, in the order of the
    listing. *)
Theorem aggregate_in_listing_order issues w r w' t :
  run_aggregate cfg issues w = (Ret r, w', t) ->
  submitted t = map number issues /\
  started t = map number issues /\
  updated t = map number issues.
Proof.
  intros Hrun.
  destruct (post_run _ _ _ _ _ _ (run_aggregate_order issues) Hrun)
    as (_ & Hr & _).
  destruct (Hr r eq_refl) as (Hs & Hst & Hu & _). auto.
Qed.

(** X11: when the aggregation throws, it does so in the task of one issue,
    after the update of that issue was asked for: every issue listed
    before it was started and updated, in the order of the listing, and
    no issue listed after it was handed to the pool. *)
Theorem aggregate_stops_at_failure issues w e w' t :
  run_aggregate cfg issues w = (Throw e, w', t) ->
  exists done i rest,
    issues = done ++ i :: rest /\
    submitted t = map number (done ++ [i]) /\
    started t = map number (done ++ [i]) /\
    updated t = map number (done ++ [i]).
Proof.
  intros Hrun.
  destruct (post_run _ _ _ _ _ _ (run_aggregate_order issues) Hrun)
    as (_ & _ & Ht).
  exact (Ht e eq_refl).
Qed.

(** X12: in every report the aggregation builds, [article_num] is the length
    of [article_data], whatever the issues and the configuration. *)
Theorem article_num_is_length issues w r w' t :
  run_aggregate cfg issues w = (Ret r, w', t) ->
  report_article_num r = zlength (article_data r).
Proof.
  intros Hrun.
  destruct (post_run _ _ _ _ _ _ (run_aggregate_order issues) Hrun)
    as (_ & Hr & _).
  destruct (Hr r eq_refl) as (_ & _ & _ & Hn). exact Hn.
Qed.

(** ** run *)

(** X13: when the tracker refuses the listing of the issues, [run] logs the
    failure twice, in [getIssues] and in its own [catch] block, and exits
    with status 1: nothing is fetched, updated or written. *)
Theorem listing_failure_is_fatal w e w1 :
  octokit_paginate w = (inl e, w1) ->
  run cfg w =
  (Ret tt, w1,
   [EvLog "info" ">> 开始" [];
    EvListIssues false;
    EvLog "error" "获取issues失败" [];
    handleError_event e "Error processing issues" [];
    EvLog "error" "Error processing issues: ${error.message}"
      [VStr (error_message e)];
    EvExit 1]).
Proof.
  intros Hlist.
  unfold run, getIssues, try_catch, bind, call, logger, emit, throw,
    process_exit.
  rewrite Hlist. destruct e; reflexivity.
Qed.

(** X14: with a ceiling below one and at least one issue listed, [run] never
    settles: the first call of [add] joins the queue and nothing is left
    to wake it.  No task starts, so nothing is fetched, updated or
    written, and the process does not exit through [run]. *)
Theorem ceiling_below_one_blocks w i rest w1 :
  CONCURRENCY_LIMIT cfg <= 0 ->
  octokit_paginate w = (inr (i :: rest), w1) ->
  run cfg w =
  (Hang, w1,
   [EvLog "info" ">> 开始" [];
    EvListIssues true;
    EvLog "info"
      "一共有${issues.length}个打开的issues: ${issues.map(item => item.number).join(',')}"
      [VNum (zlength (i :: rest)); issue_numbers (i :: rest)];
    EvLog "info" "Fetched all issues, total count: ${allIssues.length}"
      [VNum (zlength (i :: rest))];
    EvSubmit (number i);
    EvEnqueue (number i)]).
Proof.
  intros HC Hlist.
  assert (Hget : getIssues None w =
                 (Ret (i :: rest), w1,
                  [EvListIssues true;
                   EvLog "info"
                     "一共有${issues.length}个打开的issues: ${issues.map(item => item.number).join(',')}"
                     [VNum (zlength (i :: rest)); issue_numbers (i :: rest)]])).
  { unfold getIssues, try_catch, bind, call, logger, emit. rewrite Hlist.
    reflexivity. }
  assert (Hfor : for_issues cfg (ConcurrencyPool_new (CONCURRENCY_LIMIT cfg))
                   no_counters (i :: rest) w1 =
                 (Hang, w1, [EvSubmit (number i); EvEnqueue (number i)])).
  { cbn [for_issues]. unfold add.
    cbn [maxConcurrency running ConcurrencyPool_new].
    replace (CONCURRENCY_LIMIT cfg <=? 0) with true
      by (symmetry; apply Z.leb_le; exact HC).
    reflexivity. }
  unfold run, try_catch, bind, run_aggregate, logger, emit.
  rewrite Hget. cbn -[for_issues zlength issue_numbers]. unfold bind at 1.
  rewrite Hfor.
  reflexivity.
Qed.

Lemma loop_events_write_nothing t :
  Forall loop_event t ->
  count is_write t = 0%nat /\ count is_exit_1 t = 0%nat.
Proof.
  intros H. split; apply count_none; (eapply Forall_impl; [| exact H]);
    intros ev; unfold loop_event; destruct ev; cbn; congruence.
Qed.

Lemma ends_with_cons (a : event) t suffix :
  (exists t0, t = t0 ++ suffix) -> exists t0, a :: t = t0 ++ suffix.
Proof. intros (t0 & ->). exists (a :: t0). reflexivity. Qed.

Lemma ends_with_app (t1 t : list event) suffix :
  (exists t0, t = t0 ++ suffix) -> exists t0, t1 ++ t = t0 ++ suffix.
Proof. intros (t0 & ->). exists (t1 ++ t0). apply app_assoc. Qed.

Ltac ends :=
  repeat first [ solve [exists []; reflexivity]
               | apply ends_with_cons
               | apply ends_with_app ].

Ltac count_events :=
  unfold count in *; cbn; rewrite ?filter_app, ?length_app; cbn; lia.

(** The two ways in which [run] ends. *)
Lemma run_settles :
  post (run cfg)
    (fun o t =>
       1 <= CONCURRENCY_LIMIT cfg ->
       o = Ret tt /\
       ((count is_write t = 0%nat /\ count is_exit_1 t = 1%nat /\
         exists t0, t = t0 ++ [EvExit 1]) \/
        (count is_write t = 1%nat /\ count is_exit_1 t = 0%nat /\
         exists content t0,
           t = t0 ++
               [EvWriteFile (DATAPATH cfg) content true;
                EvLog "info" "json written successfully to ${DATAPATH}"
                  [VStr (DATAPATH cfg)];
                EvLog "info" ">> 结束" []]))).
Proof.
  unfold run, getIssues, run_persist, process_exit.
  wp_step. wp_step. wp_step. wp_step. wp_step. wp_step. wp_step.
  - wp_step. wp_step. wp_step. wp_step.
    eapply post_conseq;
      [apply (post_both _ _ _ (run_aggregate_post cfg a)
                (run_aggregate_order a)) |].
    cbv beta. intros o t [(_ & Hl & _) (Hh & _ & _)].
    destruct (loop_events_write_nothing t Hl) as [Hw He].
    destruct o as [r | e |]; wp.
    all: intros HC; try (destruct (Hh HC eq_refl)).
    all: split; [reflexivity |].
    all: try match goal with e : error |- _ => destruct e end;
      cbn [handleError_event].
    all: cbn [app]; rewrite ?app_nil_r.
    all: first [ left; split; [count_events | split; [count_events | ends]]
               | right; split; [count_events | split; [count_events |]];
                 eexists; ends ].
  - wp. all: intros _; split; [reflexivity |].
    all: match goal with e : error |- _ => destruct e end;
      cbn [handleError_event].
    all: left; split; [reflexivity | split; [reflexivity | ends]].
Qed.

(** X15: with a ceiling of at least one, [run] always settles, without
    throwing, in one of two ways: it exits with status 1 as its last act
    and has written no report, or it has written the report once, at
    [DATAPATH], then logged that and the end of the run, and does not
    exit. *)
Theorem run_exits_or_writes w :
  1 <= CONCURRENCY_LIMIT cfg ->
  fst (fst (run cfg w)) = Ret tt /\
  ((count is_write (snd (run cfg w)) = 0%nat /\
    count is_exit_1 (snd (run cfg w)) = 1%nat /\
    exists t0, snd (run cfg w) = t0 ++ [EvExit 1]) \/
   (count is_write (snd (run cfg w)) = 1%nat /\
    count is_exit_1 (snd (run cfg w)) = 0%nat /\
    exists content t0,
      snd (run cfg w) =
      t0 ++
      [EvWriteFile (DATAPATH cfg) content true;
       EvLog "info" "json written successfully to ${DATAPATH}"
         [VStr (DATAPATH cfg)];
       EvLog "info" ">> 结束" []])).
Proof. exact (run_settles w). Qed.

(** X16: when the tracker lists no open issue and the file system accepts the
    directory and the file, [run] makes no task, whatever the ceiling,
    and writes a report whose four counts are 0 and whose article list is
    empty. *)
Theorem empty_listing_report w w1 w2 w3 :
  octokit_paginate w = (inr [], w1) ->
  fs_mkdirSync (path_dirname (dataPath cfg)) w1 = (inr tt, w2) ->
  fs_writeFileSync (DATAPATH cfg)
    (JSON_stringify (report_value (empty_report cfg w1))) w2 = (inr tt, w3) ->
  run cfg w =
  (Ret tt, w3,
   [EvLog "info" ">> 开始" [];
    EvListIssues true;
    EvLog "info"
      "一共有${issues.length}个打开的issues: ${issues.map(item => item.number).join(',')}"
      [VNum 0; VArr []];
    EvLog "info" "Fetched all issues, total count: ${allIssues.length}"
      [VNum 0];
    EvLog "info"
      "All issues processed, active: ${active_num}, errors: ${error_num}, articles: ${article_num}"
      [VNum 0; VNum 0; VNum 0];
    EvLog "info" "Last updated time: ${last_updated_time}"
      [VStr (formatDate (DateObject (Date_now w1)) (DATE_FORMAT cfg))];
    EvMkdir (path_dirname (dataPath cfg)) true;
    EvWriteFile (DATAPATH cfg)
      (JSON_stringify (report_value (empty_report cfg w1))) true;
    EvLog "info" "json written successfully to ${DATAPATH}"
      [VStr (DATAPATH cfg)];
    EvLog "info" ">> 结束" []]).
Proof.
  intros Hlist Hmk Hwr. unfold dataPath in *.
  assert (Hsort : Array_sort compare_created (allArticles no_counters) = []).
  { apply Permutation_nil. symmetry. apply Array_sort_elements. }
  unfold run, getIssues, run_aggregate, run_persist, try_catch, bind, call,
    logger, emit, now, process_exit.
  rewrite Hlist. cbn [for_issues ret fst snd app].
  rewrite Hmk, Hsort. cbn [snd].
  match goal with
  | |- context [fs_writeFileSync (DATAPATH cfg) ?c w2] =>
      change c with (JSON_stringify (report_value (empty_report cfg w1)))
  end.
  rewrite Hwr. reflexivity.
Qed.

(** ** The merge of the embedded posts *)

Lemma forEach_push_fields au av : forall posts pushed,
  forEach_push au av posts [] = inr pushed ->
  Forall (fun a => author a = au /\ avatar a = av) pushed /\
  map (fun a => (title a, created a, link a)) pushed =
  map (fun p => (field p "title", field p "published", field p "link")) posts.
Proof.
  induction posts as [| p rest IH]; intros pushed H.
  - injection H as <-. split; [constructor | reflexivity].
  - cbn [forEach_push] in H.
    destruct (post_article au av p) as [e | a] eqn:Ha; [discriminate |].
    rewrite forEach_push_app in H.
    destruct (forEach_push au av rest []) as [e | pushed'] eqn:Hrest;
      [discriminate |].
    injection H as <-. destruct (IH pushed' eq_refl) as [Hall Hmap].
    unfold post_article in Ha.
    destruct (get p "title") as [e | t] eqn:Ht;
      [destruct (get p "published"), (get p "link"); discriminate |].
    destruct (get p "published") as [e | c] eqn:Hc;
      [destruct (get p "link"); discriminate |].
    destruct (get p "link") as [e | l] eqn:Hl; [discriminate |].
    injection Ha as <-. cbn [app map title created link author avatar]. split.
    + constructor; [split; reflexivity | exact Hall].
    + rewrite Hmap. unfold field. rewrite Ht, Hc, Hl. reflexivity.
Qed.

(** X17: when the merge of the result of an issue returns, it has appended to
    the articles one article for each post embedded in the block, in the
    order of the posts: the title and the link are those of the post, the
    creation date is its [published] field, and the author and the avatar
    are the [name] and [avatar] fields of the block, or the empty string
    when they are falsy.  The [author] field of the block is not read. *)
Theorem merge_articles_fields fields acc w acc' w' t :
  merge_articles (VObj fields) acc w = (Ret acc', w', t) ->
  exists pushed,
    allArticles acc' = allArticles acc ++ pushed /\
    Forall (fun a =>
              author a = js_or (field (lookup "data" fields) "name") (VStr "") /\
              avatar a = js_or (field (lookup "data" fields) "avatar") (VStr ""))
      pushed /\
    map (fun a => (title a, created a, link a)) pushed =
    map (fun p => (field p "title", field p "published", field p "link"))
      (block_posts (lookup "data" fields)).
Proof.
  rewrite merge_articles_eq. unfold merged, block_articles.
  destruct (forEach_push _ _ (block_posts (lookup "data" fields)) [])
    as [e | pushed] eqn:Hpush; [discriminate |].
  intros [= <- _ _]. exists pushed. cbn. split; [reflexivity |].
  apply (forEach_push_fields _ _ _ _ Hpush).
Qed.

Lemma forEach_push_null au av : forall posts,
  In VNull posts -> exists e, forEach_push au av posts [] = inl e.
Proof.
  induction posts as [| p rest IH]; intros Hin; [destruct Hin |].
  cbn [forEach_push].
  destruct (post_article au av p) as [e | a] eqn:Ha; [eauto |].
  destruct Hin as [-> | Hin]; [discriminate Ha |].
  rewrite forEach_push_app. destruct (IH Hin) as (e & ->). eauto.
Qed.

Lemma embedded_articles_throw : forall issues i e,
  In i issues -> entry_articles i = inl e ->
  exists e', embedded_articles issues = inl e'.
Proof.
  induction issues as [| j rest IH]; intros i e Hin He; [destruct Hin |].
  cbn [embedded_articles]. destruct Hin as [-> | Hin].
  - rewrite He. eauto.
  - destruct (IH i e Hin He) as (e' & ->).
    destruct (entry_articles j); eauto.
Qed.

(** X18: one [null] among the posts embedded in the block of a listed
    issue aborts the whole run, when [processIssue] reaches its [return]
    statement with that block: reading the title of the post throws in
    the task, nothing catches it before the [catch] block of [run], which
    exits with status 1, and no report is written, not even attempted. *)
Theorem null_post_aborts_run w issues w1 i d :
  octokit_paginate w = (inr issues, w1) ->
  1 <= CONCURRENCY_LIMIT cfg ->
  In i issues ->
  parsed_block i = Some d ->
  returned cfg d = true ->
  In VNull (block_posts d) ->
  fst (fst (run cfg w)) = Ret tt /\
  (forall path content ok, ~ In (EvWriteFile path content ok) (snd (run cfg w))) /\
  exists t0, snd (run cfg w) = t0 ++ [EvExit 1].
Proof.
  intros Hlist HC Hin Hblock Hreturned Hnull.
  assert (Hentry : exists e, entry_articles i = inl e).
  { unfold entry_articles, block_articles. rewrite Hblock.
    apply forEach_push_null. exact Hnull. }
  destruct Hentry as (e & Hentry).
  assert (Hprocessed : In i (filter (processed cfg) issues)).
  { apply filter_In. split; [exact Hin |].
    unfold processed. rewrite Hblock. exact Hreturned. }
  destruct (embedded_articles_throw _ i e Hprocessed Hentry) as (e' & Hemb).
  assert (Hget : exists t0, getIssues None w = (Ret issues, w1, t0)).
  { unfold getIssues, try_catch, bind, call, logger, emit. rewrite Hlist.
    eexists. reflexivity. }
  destruct Hget as (t0 & Hget).
  assert (Hnowrite : forall path content ok,
             ~ In (EvWriteFile path content ok) (snd (run cfg w))).
  { intros path content ok Hw.
    destruct (run_writes_report cfg w path content ok Hw)
      as (issues' & w0 & t0' & r & w2 & t1 & Hget' & Hagg & _).
    rewrite Hget in Hget'. injection Hget' as <- <- <-.
    destruct (post_run _ _ _ _ _ _ (run_aggregate_post cfg issues) Hagg)
      as (Hr & _).
    destruct (Hr r eq_refl) as (_ & _ & _ & articles & _ & Hemb' & _).
    congruence. }
  destruct (run_settles w HC) as [Hret [(_ & _ & Hexit) | (_ & _ & Hwritten)]].
  - split; [exact Hret |]. split; [exact Hnowrite | exact Hexit].
  - destruct Hwritten as (content & t1 & Ht).
    destruct (Hnowrite (DATAPATH cfg) content true).
    rewrite Ht. apply in_app_iff. right. left. reflexivity.
Qed.

(** ** The path of the report *)

Lemma strip_slashes_relative : forall p,
  posix_isAbsolute (strip_slashes p) = false.
Proof.
  induction p as [| c p IH]; [reflexivity |].
  destruct (Ascii.eqb c "/"%char) eqn:Hc.
  - apply Ascii.eqb_eq in Hc. subst c. exact IH.
  - destruct c as [[] [] [] [] [] [] [] []]; try reflexivity.
    discriminate Hc.
Qed.

(** X19: the directory [run] makes before it writes the report is that of
    [DATAPATH] stripped of its leading slashes when [path.isAbsolute]
    holds of [DATAPATH], a path that does not begin with a slash, and
    that of [DATAPATH] itself otherwise; whereas the report is written at
    [DATAPATH] as it is given. *)
Theorem report_directory_stripped allData w :
  (path_isAbsolute (DATAPATH cfg) = true ->
   dataPath cfg = strip_slashes (DATAPATH cfg) /\
   posix_isAbsolute (dataPath cfg) = false) /\
  (path_isAbsolute (DATAPATH cfg) = false -> dataPath cfg = DATAPATH cfg) /\
  (forall p ok,
      In (EvMkdir p ok) (snd (run_persist cfg allData w)) ->
      p = path_dirname (dataPath cfg)) /\
  (forall p content ok,
      In (EvWriteFile p content ok) (snd (run_persist cfg allData w)) ->
      p = DATAPATH cfg /\ content = JSON_stringify (report_value allData)).
Proof.
  splits.
  - intros Habs. unfold dataPath. rewrite Habs.
    split; [reflexivity | apply strip_slashes_relative].
  - intros Hrel. unfold dataPath. rewrite Hrel. reflexivity.
  - intros p ok. unfold run_persist, bind, call, logger, emit.
    fold (dataPath cfg).
    destruct (fs_mkdirSync (path_dirname (dataPath cfg)) w) as [[e | []] w1];
      [| destruct (fs_writeFileSync _ _ w1) as [[e | []] w2]];
      cbn; intros Hin;
      repeat match goal with
        | H : _ \/ _ |- _ => destruct H as [H | H]
        | H : False |- _ => destruct H
        | H : _ = EvMkdir _ _ |- _ =>
            first [discriminate H | injection H as <- _; reflexivity]
        end.
  - intros p content ok. unfold run_persist, bind, call, logger, emit.
    destruct (fs_mkdirSync _ w) as [[e | []] w1];
      [| destruct (fs_writeFileSync _ _ w1) as [[e | []] w2]];
      cbn; intros Hin;
      repeat match goal with
        | H : _ \/ _ |- _ => destruct H as [H | H]
        | H : False |- _ => destruct H
        | H : _ = EvWriteFile _ _ _ |- _ =>
            first [discriminate H | injection H as <- <- _; split; reflexivity]
        end.
Qed.

End RunMore.

(** ** ConcurrencyPool *)

Section PoolMore.

Context {RT : Runtime}.

(** X20: a call of [add] that finds a free slot runs the task at once and
    settles as the task does: it returns what the task returns and throws
    what the task throws.  In both cases the [finally] block gives the
    slot back and wakes the first waiter, if any; when the task never
    settles the slot is kept. *)
Theorem add_settles_as_task {A} this id (fn : M A) w o w1 t :
  running this < maxConcurrency this ->
  fn w = (o, w1, t) ->
  add this id fn w =
  (match o with
   | Ret a =>
       Ret ({| maxConcurrency := maxConcurrency this;
               running := running this;
               queue := tl (queue this) |}, a)
   | Throw e => Throw e
   | Hang => Hang
   end,
   w1,
   [EvSubmit id; EvStart id (running this + 1)] ++ t ++
   match o with
   | Hang => []
   | _ => EvFinish id (running this) :: map EvWake (firstn 1 (queue this))
   end).
Proof.
  intros Hfree Hfn. unfold add, bind, emit, try_finally, add_finally.
  replace (maxConcurrency this <=? running this) with false
    by (symmetry; apply Z.leb_gt; exact Hfree).
  rewrite Hfn. unfold released, acquired. cbn [running queue maxConcurrency].
  replace (running this + 1 - 1) with (running this) by lia.
  destruct o as [a | e |]; destruct (queue this) as [| next q]; cbn;
    rewrite ?app_nil_r; reflexivity.
Qed.


(** [k] tasks submitted to a fresh pool of at least [k] slots all
    start. *)
Lemma interleave_fill (c : nat) : forall k : nat,
  (k <= c)%nat ->
  fst (interleave (fresh (Z.of_nat c))
         (map (fun n => Submit (Z.of_nat n)) (seq 1 k))) =
  {| pool_of := {| maxConcurrency := Z.of_nat c;
                   running := Z.of_nat k;
                   queue := [] |};
     woken := [] |}.
Proof.
  induction k as [| k IH]; intros Hk; [reflexivity |].
  rewrite seq_S, map_app, interleave_app. cbn [fst]. rewrite IH by lia.
  cbn [map interleave segment_step pool_of maxConcurrency running].
  replace (Z.of_nat c <=? Z.of_nat k) with false
    by (symmetry; apply Z.leb_gt; lia).
  cbn [fst]. unfold acquired. cbn [maxConcurrency running queue].
  f_equal. f_equal. lia.
Qed.

Lemma interleave_accounts : forall l s past,
  Permutation (submitted past)
    (started past ++ woken s ++ queue (pool_of s)) ->
  in_flight 0 past = running (pool_of s) ->
  Permutation (submitted (past ++ snd (interleave s l)))
    (started (past ++ snd (interleave s l)) ++
     woken (fst (interleave s l)) ++ queue (pool_of (fst (interleave s l)))) /\
  in_flight 0 (past ++ snd (interleave s l)) =
  running (pool_of (fst (interleave s l))).
Proof.
  induction l as [| a l IH]; intros s past Hperm Hrun.
  - cbn. rewrite app_nil_r. split; assumption.
  - cbn [interleave]. destruct (segment_step s a) as [s1 t1] eqn:Hstep.
    specialize (IH s1 (past ++ t1)).
    destruct (interleave s1 l) as [s2 t2]. cbn [fst snd] in *.
    rewrite app_assoc. apply IH; clear IH.
    + rewrite submitted_app, started_app.
      destruct a as [id | | id]; cbn in Hstep.
      * destruct (maxConcurrency (pool_of s) <=? running (pool_of s));
          injection Hstep as <- <-;
          cbn [submitted started app pool_of woken queue acquired];
          rewrite Hperm, ?app_nil_r, <- ?app_assoc; cbn [app];
          repeat apply Permutation_app_head.
        -- reflexivity.
        -- rewrite app_assoc. symmetry. apply Permutation_cons_append.
      * destruct (woken s) as [| id rest] eqn:Hw;
          injection Hstep as <- <-;
          cbn [submitted started app pool_of woken queue acquired];
          rewrite Hperm, ?Hw, ?app_nil_r, <- ?app_assoc; cbn [app];
          reflexivity.
      * injection Hstep as <- <-.
        cbn [submitted started app pool_of woken queue released].
        destruct (queue (pool_of s)) as [| x q] eqn:Hq;
          cbn [submitted started map app tl];
          rewrite Hperm, ?app_nil_r, <- ?app_assoc; reflexivity.
    + rewrite in_flight_app, Hrun.
      destruct a as [id | | id]; cbn in Hstep.
      * destruct (maxConcurrency (pool_of s) <=? running (pool_of s));
          injection Hstep as <- <-; reflexivity.
      * destruct (woken s) as [| id rest]; injection Hstep as <- <-;
          reflexivity.
      * injection Hstep as <- <-. cbn.
        destruct (queue (pool_of s)); reflexivity.
Qed.

(** X21: the ceiling is not an invariant of the pool itself.  For every
    ceiling [c >= 1], when the calls of [add] are not awaited one after
    the other, a task submitted between the end of a task and the moment
    the waiter it woke resumes takes the free slot, and the woken waiter
    then starts all the same: [c + 1] tasks are in their body at once. *)
Theorem pool_ceiling_overrun (c : nat) :
  (1 <= c)%nat ->
  fst (interleave (fresh (Z.of_nat c)) (overload c)) =
  {| pool_of := {| maxConcurrency := Z.of_nat c;
                   running := Z.of_nat c + 1;
                   queue := [] |};
     woken := [] |} /\
  in_flight 0 (snd (interleave (fresh (Z.of_nat c)) (overload c))) =
  Z.of_nat c + 1.
Proof.
  intros Hc.
  assert (Hstate : fst (interleave (fresh (Z.of_nat c)) (overload c)) =
                   {| pool_of := {| maxConcurrency := Z.of_nat c;
                                    running := Z.of_nat c + 1;
                                    queue := [] |};
                      woken := [] |}).
  { unfold overload. rewrite interleave_app. cbn [fst].
    rewrite (interleave_fill c c) by lia.
    cbn [interleave segment_step pool_of maxConcurrency running queue woken].
    replace (Z.of_nat c <=? Z.of_nat c) with true
      by (symmetry; apply Z.leb_le; lia).
    cbn [pool_of maxConcurrency running queue woken released acquired app
           firstn tl fst snd map].
    replace (Z.of_nat c <=? Z.of_nat c - 1) with false
      by (symmetry; apply Z.leb_gt; lia).
    cbn [pool_of maxConcurrency running queue woken released acquired app
           firstn tl fst snd map].
    unfold acquired, released. cbn [maxConcurrency running queue tl].
    f_equal. f_equal. lia. }
  split; [exact Hstate |].
  destruct (interleave_accounts (overload c) (fresh (Z.of_nat c)) []
              (perm_nil _) eq_refl) as [_ Hrun].
  cbn [app] in Hrun. rewrite Hrun, Hstate. reflexivity.
Qed.

(** X22: however the calls of [add] interleave, the pool loses no task and
    starts none twice: the tasks submitted so far are those that started,
    those that were woken and have yet to resume, and those still in the
    queue; and the pool's [running] is the number of tasks that started
    and have not finished. *)
Theorem pool_accounts (ceiling : Z) (l : list segment) :
  Permutation (submitted (snd (interleave (fresh ceiling) l)))
    (started (snd (interleave (fresh ceiling) l)) ++
     woken (fst (interleave (fresh ceiling) l)) ++
     queue (pool_of (fst (interleave (fresh ceiling) l)))) /\
  in_flight 0 (snd (interleave (fresh ceiling) l)) =
  running (pool_of (fst (interleave (fresh ceiling) l))).
Proof.
  apply (interleave_accounts l (fresh ceiling) []); reflexivity.
Qed.

End PoolMore.

(** ** The sort of the articles *)

Section SortMore.

Context {RT : Runtime}.
Variable cfg : Config.

Lemma fold_insert_sorted {A} (comparefn : A -> A -> option Z) :
  forall l reversed,
    neighbours (may_follow comparefn) (rev reversed ++ l) ->
    fold_left (fun reversed element => insert comparefn element reversed)
      l reversed = rev l ++ reversed.
Proof.
  induction l as [| a l IH]; intros reversed H; [reflexivity |].
  cbn [fold_left].
  assert (Hinsert : insert comparefn a reversed = a :: reversed).
  { destruct reversed as [| tmp before]; [reflexivity |].
    cbn [insert]. cbn [rev] in H. rewrite <- app_assoc in H.
    apply neighbours_adjacent in H. unfold may_follow in H. rewrite H.
    reflexivity. }
  rewrite Hinsert, IH.
  - cbn [rev]. rewrite <- app_assoc. reflexivity.
  - cbn [rev]. rewrite <- app_assoc. exact H.
Qed.

(** The stable sort leaves alone an array in which no element has to go
    after its successor. *)
Lemma stable_sort_sorted {A} (comparefn : A -> A -> option Z) l :
  neighbours (may_follow comparefn) l -> stable_sort comparefn l = l.
Proof.
  intros H. unfold stable_sort. rewrite fold_insert_sorted by exact H.
  rewrite app_nil_r. apply rev_involutive.
Qed.

(** The comparison of [run] is consistent on articles whose dates can all
    be read. *)
Lemma dated_consistent l : Forall dated l -> consistent compare_created l.
Proof.
  intros Hd a b c Ha Hb Hc. rewrite Forall_forall in Hd.
  pose proof (Hd a Ha) as Hta. pose proof (Hd b Hb) as Htb.
  pose proof (Hd c Hc) as Htc. unfold dated in Hta, Htb, Htc.
  unfold compare_created.
  destruct (Date_new (created a)) as [ta |]; [| congruence].
  destruct (Date_new (created b)) as [tb |]; [| congruence].
  destruct (Date_new (created c)) as [tc |]; [| congruence].
  exists (ta - ta), (tb - ta), (ta - tb), (tc - tb), (tc - ta).
  repeat split; lia.
Qed.

(** X23: when the comparison is consistent on the elements of an array
    that is already in order, that is, one in which no element has to go
    after its successor, the sort leaves the array as it is: elements that
    compare equal keep their places. *)
Theorem sorted_input_unchanged {A} (comparefn : A -> A -> option Z) l :
  consistent comparefn l ->
  neighbours (may_follow comparefn) l -> Array_sort comparefn l = l.
Proof.
  intros Hc H. rewrite (Array_sort_stable Hc).
  apply stable_sort_sorted. exact H.
Qed.

(** X24: when the date of every article can be read, sorting the articles
    a second time changes nothing. *)
Theorem Array_sort_idempotent (articles : list article) :
  Forall dated articles ->
  Array_sort compare_created (Array_sort compare_created articles) =
  Array_sort compare_created articles.
Proof.
  intros Hd.
  assert (Hsorted : Forall dated (Array_sort compare_created articles)).
  { apply Forall_forall. intros a Ha. rewrite Forall_forall in Hd. apply Hd.
    apply (Permutation_in a (Array_sort_elements compare_created articles)).
    exact Ha. }
  rewrite (Array_sort_stable (dated_consistent _ Hsorted)).
  apply stable_sort_sorted.
  rewrite (Array_sort_stable (dated_consistent _ Hd)).
  apply (stable_sort_neighbours _ compare_created compare_created_asym).
Qed.

Lemma not_older_trans a b c : not_older a b -> not_older b c -> not_older a c.
Proof.
  intros (ta & tb & Ha & Hb & Hab) (tb' & tc & Hb' & Hc & Hbc).
  rewrite Hb in Hb'. injection Hb' as <-.
  exists ta, tc. split; [exact Ha |]. split; [exact Hc | lia].
Qed.

Lemma dated_neighbours_sorted : forall l,
  Forall dated l ->
  neighbours (may_follow compare_created) l ->
  StronglySorted not_older l.
Proof.
  induction l as [| a l IH]; intros Hd Hn; [constructor |].
  inversion Hd as [| a' l' Ha Hl]; subst.
  specialize (IH Hl (neighbours_tail _ _ _ _ Hn)).
  constructor; [exact IH |].
  destruct l as [| b l]; [constructor |].
  assert (Hab : not_older a b).
  { destruct Hn as [Hab _]. inversion Hl as [| b' l' Hb _]; subst.
    unfold dated in Ha, Hb. unfold may_follow, compare_created, positive in Hab.
    destruct (Date_new (created a)) as [ta |] eqn:Hta; [| congruence].
    destruct (Date_new (created b)) as [tb |] eqn:Htb; [| congruence].
    exists ta, tb. split; [exact Hta |]. split; [exact Htb |].
    apply Z.ltb_ge in Hab. lia. }
  constructor; [exact Hab |].
  inversion IH as [| b' l' _ Hbl]; subst.
  eapply Forall_impl; [| exact Hbl].
  intros c Hbc. exact (not_older_trans _ _ _ Hab Hbc).
Qed.

(** X25: when the date of every article of a report can be read, the article
    list is in descending order of date throughout: every article is at
    least as recent as every article after it, not only its
    successor. *)
Theorem dated_articles_sorted issues w r w' t :
  run_aggregate cfg issues w = (Ret r, w', t) ->
  Forall dated (article_data r) ->
  StronglySorted not_older (article_data r).
Proof.
  intros Hrun Hd. apply dated_neighbours_sorted; [exact Hd |].
  destruct (post_run _ _ _ _ _ _ (run_aggregate_post cfg issues) Hrun)
    as (Hr & _).
  destruct (Hr r eq_refl) as (_ & _ & _ & articles & Hsort & _).
  rewrite Hsort in *.
  assert (Hdated : Forall dated articles).
  { apply Forall_forall. intros a Ha. rewrite Forall_forall in Hd. apply Hd.
    apply (Permutation_in a
             (Permutation_sym (Array_sort_elements compare_created articles))).
    exact Ha. }
  rewrite (Array_sort_stable (dated_consistent _ Hdated)).
  apply (stable_sort_neighbours _ compare_created compare_created_asym).
Qed.

End SortMore.

(** ** The requests of a run *)

Section Requests.

Context {RT : Runtime}.
Variable cfg : Config.

Ltac tally :=
  unfold count in *; cbn; rewrite ?filter_app, ?length_app; cbn;
  rewrite ?filter_app, ?length_app; cbn; lia.

Lemma task_fetches i acc :
  post (task cfg i acc)
    (fun o t => (count is_get t <= 1)%nat /\ count is_delay t = 0%nat).
Proof.
  unfold task. wp_step. wp_step. wp_step.
  eapply post_conseq; [apply (processIssue_shape cfg i) |].
  cbv beta. intros o t ((fields & -> & _) & Hget & Hdelay & _).
  cbn [truthy]. wp.
  - apply post_merge_articles. split; tally.
  - split; tally.
  - split; tally.
Qed.

Lemma for_issues_fetches : forall issues pool acc,
  post (for_issues cfg pool acc issues)
    (fun o t =>
       (count is_get t <= List.length issues)%nat /\
       count is_delay t = 0%nat).
Proof.
  induction issues as [| i rest IH]; intros pool acc.
  - cbn [for_issues]. wp. split; reflexivity.
  - cbn [for_issues]. unfold add.
    wp_step. wp_step. wp_step. wp_step.
    + wp. split; cbn; lia.
    + wp_step. wp_step. wp_step. wp_step.
      eapply post_conseq; [apply task_fetches |]. cbv beta.
      intros o t (Hget & Hdelay).
      destruct o as [acc1 | e |]; unfold add_finally; wp.
      all: try (eapply post_conseq; [apply IH |]; cbv beta;
                intros o' t' (Hget' & Hdelay')).
      all: cbn [List.length]; split; tally.
Qed.

(** X26: whatever the issues and the configuration, the aggregation asks for
    at most one feed per listed issue and never pauses between
    attempts. *)
Theorem aggregate_fetches issues w :
  (count is_get (snd (run_aggregate cfg issues w)) <= List.length issues)%nat /\
  count is_delay (snd (run_aggregate cfg issues w)) = 0%nat.
Proof.
  revert w. change (post (run_aggregate cfg issues)
                      (fun o t =>
                         (count is_get t <= List.length issues)%nat /\
                         count is_delay t = 0%nat)).
  unfold run_aggregate. wp_step. wp_step. wp_step.
  eapply post_conseq; [apply for_issues_fetches |]. cbv beta.
  intros o t (Hget & Hdelay).
  destruct o as [r | e |]; wp; split; tally.
Qed.

End Requests.

(** ** The body sent to the tracker *)

Section UpdateBody.

Context {RT : Runtime}.
Variable cfg : Config.

Lemma returned_feed d :
  returned cfg d = true ->
  exists f,
    get d "feed" = inr f /\
    (truthy f = false \/
     (ToPrimitive_throws f = false /\ 1 <= RETRY_TIMES cfg)).
Proof.
  unfold returned. destruct (get d "feed") as [e | f]; [discriminate |].
  intros H. exists f. split; [reflexivity |].
  apply orb_true_iff in H as [H | H].
  - left. apply negb_true_iff. exact H.
  - right. apply andb_true_iff in H as [H1 H2].
    split; [apply negb_true_iff; exact H1 | apply Z.leb_le; exact H2].
Qed.

Lemma processIssue_newBody i b json d :
  body i = Some b ->
  block_text i = Some json ->
  JSON_parse json = inr d ->
  returned cfg d = true ->
  post (processIssue cfg i)
    (fun o t =>
       exists fields,
         o = Ret (VObj fields) /\
         lookup "newBody" fields =
         VStr (String_replace b json (JSON_stringify d)) /\
         lookup "data" fields = d).
Proof.
  intros Hb Htext Hparse Hret.
  destruct (returned_feed d Hret) as (f & Hfeed & Hcond). clear Hret.
  unfold block_text in Htext. rewrite Hb in Htext.
  unfold processIssue. rewrite Hb.
  destruct (string_truthy b); [| discriminate Htext].
  rewrite Htext. unfold process_json. rewrite Hparse. wp.
  all: try (eapply post_conseq; [apply withRetry_parseFeed_post |];
            cbv beta; intros o t [[[(posts & ->) Hge] | (-> & Hle)] Ht]; wp).
  all: repeat match goal with
         | H : inr _ = inr _ |- _ => injection H as <-
         | H : inr _ = inl _ |- _ => discriminate H
         | H1 : get ?x "feed" = inr ?y, H2 : get ?x "feed" = inr ?z |- _ =>
             lazymatch y with
             | z => fail
             | _ => rewrite H1 in H2; injection H2 as <-
             end
         end.
  all: try solve
         [ destruct Hcond as [Hc | [Hc HR]];
           [ congruence
           | first
               [ lia
               | match goal with
                 | HS : ToString _ = inl _ |- _ =>
                     rewrite (ToString_throws _ _ HS) in Hc; discriminate Hc
                 end ] ] ].
  all: try match goal with
         | H : get ?x _ = inl _, Hf : get ?x "feed" = inr _ |- _ =>
             rewrite (get_throws _ _ _ H "feed") in Hf; discriminate Hf
         | H : get (VArr _) _ = inl _ |- _ => discriminate H
         end.
  all: eexists; split; [reflexivity |]; split; reflexivity.
Qed.

(** X27: when [processIssue] reaches its [return] statement with the
    block of an issue, that is, when the block declares no feed, or its
    feed converts to a string and [RETRY_TIMES] is at least 1, the body
    the task sends to the tracker is what [replace] returns for the body
    of the issue, the text of the block and the serialisation of the
    block as it was parsed: the posts fetched from the feed are not
    written back to the issue. *)
Theorem task_update_body i acc w b json d :
  body i = Some b ->
  block_text i = Some json ->
  JSON_parse json = inr d ->
  returned cfg d = true ->
  exists ok,
    In (EvUpdate (number i)
          (VStr (String_replace b json (JSON_stringify d))) ok)
      (snd (task cfg i acc w)).
Proof.
  intros Hb Htext Hparse Hret. revert w.
  change (post (task cfg i acc)
            (fun o t =>
               exists ok,
                 In (EvUpdate (number i)
                       (VStr (String_replace b json (JSON_stringify d))) ok)
                   t)).
  unfold task. wp_step. wp_step. wp_step.
  eapply post_conseq;
    [apply (processIssue_newBody i b json d Hb Htext Hparse Hret) |].
  cbv beta. intros o t (fields & -> & Hbody & _).
  cbn [truthy]. wp.
  - apply post_merge_articles. cbn in H. injection H as <-. rewrite Hbody.
    exists true. rewrite !in_app_iff. cbn. tauto.
  - cbn in H. injection H as <-. rewrite Hbody.
    exists false. rewrite !in_app_iff. cbn. tauto.
  - discriminate.
Qed.

End UpdateBody.

(** ** The two copies of index.js *)

Section Copies.

Context {RT : Runtime}.
Variable cfg : Config.

Lemma effects_app t1 t2 : effects (t1 ++ t2) = effects t1 ++ effects t2.
Proof. apply filter_app. Qed.

Lemma same_refl {A} (m : M A) : same m m.
Proof. intros w. auto. Qed.

Lemma same_bind {A B} (m1 m2 : M A) (f1 f2 : A -> M B) :
  same m1 m2 -> (forall a, same (f1 a) (f2 a)) ->
  same (bind m1 f1) (bind m2 f2).
Proof.
  intros Hm Hf w. specialize (Hm w). unfold bind.
  destruct (m1 w) as [[o1 w1] t1], (m2 w) as [[o2 w2] t2].
  cbn [fst snd] in Hm. destruct Hm as (<- & <- & Ht).
  destruct o1 as [a | e |]; cbn [fst snd]; auto.
  specialize (Hf a w1).
  destruct (f1 a w1) as [[o1' w1'] t1'], (f2 a w1) as [[o2' w2'] t2'].
  cbn [fst snd] in *. destruct Hf as (-> & -> & Ht').
  rewrite !effects_app, Ht, Ht'. auto.
Qed.

(** The same, when the continuations agree on the results the first
    program can return. *)
Lemma same_bind_post {A B} (m1 m2 : M A) (f1 f2 : A -> M B)
    (P : A -> Prop) :
  post m1 (fun o _ => match o with Ret a => P a | _ => True end) ->
  same m1 m2 -> (forall a, P a -> same (f1 a) (f2 a)) ->
  same (bind m1 f1) (bind m2 f2).
Proof.
  intros HP Hm Hf w. specialize (Hm w). specialize (HP w). unfold bind.
  destruct (m1 w) as [[o1 w1] t1], (m2 w) as [[o2 w2] t2].
  cbn [fst snd] in Hm, HP. destruct Hm as (<- & <- & Ht).
  destruct o1 as [a | e |]; cbn [fst snd]; auto.
  specialize (Hf a HP w1).
  destruct (f1 a w1) as [[o1' w1'] t1'], (f2 a w1) as [[o2' w2'] t2'].
  cbn [fst snd] in *. destruct Hf as (-> & -> & Ht').
  rewrite !effects_app, Ht, Ht'. auto.
Qed.

Lemma same_log_l {A} level template args (m1 m2 : M A) :
  same m1 m2 -> same (logger level template args ;; m1) m2.
Proof.
  intros Hm w. specialize (Hm w). unfold bind, logger, emit.
  destruct (m1 w) as [[o1 w1] t1]. exact Hm.
Qed.

Lemma same_log_r {A} level template args (m1 m2 : M A) :
  same m1 m2 -> same m1 (logger level template args ;; m2).
Proof.
  intros Hm w. specialize (Hm w). unfold bind, logger, emit.
  destruct (m2 w) as [[o2 w2] t2]. exact Hm.
Qed.

Lemma same_log level template args level' template' args' :
  same (logger level template args) (logger level' template' args').
Proof. intros w. cbn. auto. Qed.

Lemma same_handle_l {A} e context args (m1 m2 : M A) :
  same m1 m2 -> same (handleError e context args ;; m1) m2.
Proof.
  intros Hm w. specialize (Hm w). unfold bind. rewrite handleError_eq.
  destruct (m1 w) as [[o1 w1] t1]. destruct e; exact Hm.
Qed.

Lemma same_lift_l {A B} (r : error + A) (a : A) (f : A -> M B) (m2 : M B) :
  r = inr a -> same (f a) m2 -> same (bind (lift r) f) m2.
Proof.
  intros -> Hm w. specialize (Hm w). unfold bind, lift, ret.
  destruct (f a w) as [[o1 w1] t1]. exact Hm.
Qed.

Lemma same_try_catch {A} (m1 m2 : M A) (h1 h2 : error -> M A) :
  same m1 m2 -> (forall e, same (h1 e) (h2 e)) ->
  same (try_catch m1 h1) (try_catch m2 h2).
Proof.
  intros Hm Hh w. specialize (Hm w). unfold try_catch.
  destruct (m1 w) as [[o1 w1] t1], (m2 w) as [[o2 w2] t2].
  cbn [fst snd] in Hm. destruct Hm as (<- & <- & Ht).
  destruct o1 as [a | e |]; cbn [fst snd]; auto.
  specialize (Hh e w1).
  destruct (h1 e w1) as [[o1' w1'] t1'], (h2 e w1) as [[o2' w2'] t2'].
  cbn [fst snd] in *. destruct Hh as (-> & -> & Ht').
  rewrite !effects_app, Ht, Ht'. auto.
Qed.

Lemma same_try_finally {A} (m1 m2 : M A) (fin : M unit) :
  same m1 m2 -> same (try_finally m1 fin) (try_finally m2 fin).
Proof.
  intros Hm w. specialize (Hm w). unfold try_finally.
  destruct (m1 w) as [[o1 w1] t1], (m2 w) as [[o2 w2] t2].
  cbn [fst snd] in Hm. destruct Hm as (<- & <- & Ht).
  destruct o1 as [a | e |]; cbn [fst snd]; auto;
    destruct (fin w1) as [[o' w'] t']; cbn [fst snd];
    rewrite !effects_app, Ht; auto.
Qed.

Lemma same_add {A} pool id (fn1 fn2 : M A) :
  same fn1 fn2 -> same (add pool id fn1) (add pool id fn2).
Proof.
  intros Hfn. unfold add.
  apply same_bind; [apply same_refl | intros _].
  destruct (maxConcurrency pool <=? running pool); [apply same_refl |].
  apply same_bind; [apply same_refl | intros _].
  apply same_bind; [| intros a; apply same_refl].
  apply same_try_finally. exact Hfn.
Qed.

(** One step of the comparison, chosen by the shape of the two
    programs. *)
Ltac sim_step :=
  lazymatch goal with
  | |- same (bind (logger _ _ _) _) _ => apply same_log_l
  | |- same _ (bind (logger _ _ _) _) => apply same_log_r
  | |- same (bind (handleError _ _ _) _) (bind (handleError _ _ _) _) =>
      apply same_bind; [apply same_refl | intros]
  | |- same (bind (handleError _ _ _) _) _ => apply same_handle_l
  | |- same (logger _ _ _) (logger _ _ _) => apply same_log
  | |- same (bind _ _) (bind _ _) => apply same_bind; [| intros]
  | |- same (try_catch _ _) (try_catch _ _) =>
      apply same_try_catch; [| intros]
  | |- same (if ?b then _ else _) (if ?b then _ else _) => destruct b eqn:?
  | |- same (match ?x with _ => _ end) (match ?x with _ => _ end) =>
      destruct x eqn:?
  | |- same ?m ?m => apply same_refl
  end; cbn beta iota zeta.

Ltac sim := repeat sim_step.

Lemma parseFeed_same feedUrl :
  same (parseFeed cfg feedUrl) (Variant.parseFeed cfg feedUrl).
Proof. unfold parseFeed, Variant.parseFeed. sim. Qed.

Lemma same_withRetry_loop {A} (fn1 fn2 : M A) retries delay :
  same fn1 fn2 ->
  forall todo i,
    same (withRetry_loop fn1 retries delay todo i)
      (withRetry_loop fn2 retries delay todo i).
Proof.
  intros Hfn. induction todo as [| todo IH]; intros i; [apply same_refl |].
  cbn [withRetry_loop]. intros w. specialize (Hfn w).
  destruct (fn1 w) as [[o1 w1] t1], (fn2 w) as [[o2 w2] t2].
  cbn [fst snd] in Hfn. destruct Hfn as (<- & <- & Ht).
  destruct o1 as [a | e |]; cbn [fst snd]; auto.
  destruct (i =? retries - 1); cbn [fst snd]; auto.
  unfold bind, sleep, emit. specialize (IH (i + 1) w1).
  destruct (withRetry_loop fn1 retries delay todo (i + 1) w1)
    as [[o1' w1'] t1'],
    (withRetry_loop fn2 retries delay todo (i + 1) w1) as [[o2' w2'] t2'].
  cbn [fst snd] in *. destruct IH as (-> & -> & Ht').
  rewrite !effects_app. cbn [app]. unfold effects in *. cbn [filter is_effect].
  rewrite Ht, Ht'. auto.
Qed.

Lemma same_withRetry {A} (fn1 fn2 : M A) retries :
  same fn1 fn2 -> same (withRetry fn1 retries) (withRetry fn2 retries).
Proof.
  intros Hfn. unfold withRetry, withRetry_delay.
  apply same_withRetry_loop. exact Hfn.
Qed.

Hypothesis retries_positive : 1 <= RETRY_TIMES cfg.

Lemma fetched_is_array feedUrl :
  post (if truthy feedUrl then
          lift (ToString feedUrl) ;;
          logger "info" "Fetching feed data from ${feedUrl}" [feedUrl] ;;
          r <- withRetry (parseFeed cfg feedUrl) (RETRY_TIMES cfg) ;;
          ret (match r with Some p => p | None => VUndefined end,
               if has_posts match r with Some p => p | None => VUndefined end
               then "active" else "error")
        else ret (VArr [], "error"))
    (fun o _ =>
       match o with
       | Ret a => exists posts, fst a = VArr posts
       | _ => True
       end).
Proof.
  destruct (truthy feedUrl); [| apply post_ret; cbn; eauto].
  wp_step. wp_step; [| exact I]. wp_step. wp_step. wp_step.
  eapply post_conseq; [apply withRetry_parseFeed_post |].
  cbv beta. intros o t [[[(posts & ->) _] | (-> & Hle)] _]; [| lia].
  wp. cbn. eauto.
Qed.

Lemma processIssue_same i :
  same (processIssue cfg i) (Variant.processIssue cfg i).
Proof.
  unfold processIssue, Variant.processIssue.
  apply same_try_catch; [| intros; sim].
  apply same_log_l, same_log_r.
  destruct (body i) as [b |]; [| sim].
  destruct (string_truthy b); [| sim].
  destruct (match match_fence b with
            | Some m => match_object m
            | None => None
            end) as [json |]; [| sim].
  unfold process_json, Variant.process_json.
  apply same_log_l, same_log_r.
  apply same_bind; [apply same_refl | intros jsonData].
  apply same_log_l, same_log_r.
  apply same_bind; [apply same_refl | intros feedUrl].
  apply same_bind_post with (P := fun a => exists posts, fst a = VArr posts).
  - apply fetched_is_array.
  - destruct (truthy feedUrl); [| apply same_refl].
    apply same_bind; [apply same_refl | intros _].
    apply same_log_l, same_log_r.
    apply same_bind; [| intros; apply same_refl].
    apply same_withRetry, parseFeed_same.
  - intros [posts status] (items & Hposts). cbn [fst] in Hposts. subst posts.
    eapply same_lift_l; [reflexivity |].
    apply same_log_l, same_log_r, same_refl.
Qed.

Lemma task_same i acc : same (task cfg i acc) (Variant.task cfg i acc).
Proof.
  unfold task, Variant.task. apply same_log_l.
  apply same_bind; [apply processIssue_same | intros result].
  sim.
Qed.

Lemma for_issues_same : forall issues pool acc,
  same (for_issues cfg pool acc issues) (Variant.for_issues cfg pool acc issues).
Proof.
  induction issues as [| i rest IH]; intros pool acc; [apply same_refl |].
  cbn [for_issues Variant.for_issues].
  apply same_bind; [apply same_add, task_same | intros r; apply IH].
Qed.

Lemma run_aggregate_same issues :
  same (run_aggregate cfg issues) (Variant.run_aggregate cfg issues).
Proof.
  unfold run_aggregate, Variant.run_aggregate. apply same_log_l.
  apply same_bind; [apply for_issues_same | intros r].
  sim.
Qed.

Hypothesis report_at_all_json : DATAPATH cfg = "all.json".
(** The directory of [all.json] is there already: making it succeeds and
    changes nothing. *)
Hypothesis directory_made :
  forall w, fs_mkdirSync (path_dirname "all.json") w = (inr tt, w).

Lemma same_mkdir_l {A} (f : unit -> M A) (m2 : M A) :
  same (f tt) m2 ->
  same (bind (call (fs_mkdirSync (path_dirname "all.json"))
                (EvMkdir (path_dirname "all.json"))) f) m2.
Proof.
  intros Hm w. specialize (Hm w). unfold bind, call. rewrite directory_made.
  destruct (f tt w) as [[o1 w1] t1]. exact Hm.
Qed.

Lemma run_persist_same allData :
  same (run_persist cfg allData) (Variant.run_persist allData).
Proof.
  unfold run_persist, Variant.run_persist. rewrite report_at_all_json.
  change (strip_slashes "all.json") with "all.json".
  destruct (path_isAbsolute "all.json"); apply same_mkdir_l; sim.
Qed.

(** X28: with [RETRY_TIMES >= 1], [DATAPATH] set to [all.json] and the
    directory of [all.json] already there, the two copies of [index.js]
    behave alike: from every world their [run] settles in the same way, leaves
    the same world, and makes the same requests, the same updates with
    the same bodies, the same write of the same report and the same exit,
    in the same order.  They differ only in their log lines and in the
    directory the first copy makes. *)
Theorem copies_agree w :
  fst (fst (run cfg w)) = fst (fst (Variant.run cfg w)) /\
  snd (fst (run cfg w)) = snd (fst (Variant.run cfg w)) /\
  effects (snd (run cfg w)) = effects (snd (Variant.run cfg w)).
Proof.
  revert w. change (same (run cfg) (Variant.run cfg)).
  unfold run, Variant.run.
  apply same_try_catch; [| intros; sim].
  apply same_log_l, same_log_r.
  apply same_bind; [apply same_refl | intros allIssues].
  apply same_bind; [apply run_aggregate_same | intros allData].
  apply run_persist_same.
Qed.

End Copies.

Section CopiesApart.

Context {RT : Runtime}.
Variable cfg : Config.

(** X29: with [RETRY_TIMES <= 0] the two copies part: for an issue whose
    block declares a feed that converts to a string, the second copy,
    which does not read [posts.length], resolves with the full result,
    whose [data] is the block, whose [posts] is [undefined] and whose
    status is [error], without asking for the feed, whereas the first
    copy answers with the bare error result, in which the block is
    lost. *)
Theorem variant_keeps_block i d w :
  parsed_block i = Some d ->
  truthy (field d "feed") = true ->
  ToPrimitive_throws (field d "feed") = false ->
  RETRY_TIMES cfg <= 0 ->
  exists fields t,
    Variant.processIssue cfg i w = (Ret (VObj fields), w, t) /\
    lookup "data" fields = d /\
    lookup "posts" fields = VUndefined /\
    lookup "status" fields = VStr "error" /\
    count is_get t = 0%nat.
Proof.
  intros Hblock Hfeed Hconverts Hretry.
  rewrite parsed_block_eq in Hblock.
  unfold Variant.processIssue, Variant.process_json, try_catch, bind,
    logger, emit, lift.
  destruct (body i) as [b |]; [| discriminate Hblock].
  destruct (string_truthy b); [| discriminate Hblock].
  destruct (match match_fence b with
            | Some m => match_object m
            | None => None
            end) as [json |]; [| discriminate Hblock].
  destruct (JSON_parse json) as [e | d']; [discriminate Hblock |].
  injection Hblock as ->. unfold field in Hfeed, Hconverts.
  destruct (get d "feed") as [e | feedUrl] eqn:Hget; [discriminate Hfeed |].
  destruct (get_returns _ _ _ Hget "author") as (author & Hauthor).
  destruct (get_returns _ _ _ Hget "avatar") as (avatar & Havatar).
  cbn -[truthy withRetry get ToString]. rewrite Hget.
  cbn -[truthy withRetry get ToString]. rewrite Hfeed.
  unfold ToString. rewrite Hconverts.
  unfold withRetry, withRetry_delay.
  replace (Z.to_nat (RETRY_TIMES cfg)) with O by lia.
  cbn -[get]. rewrite Hauthor. cbn -[get]. rewrite Havatar. cbn.
  eexists. eexists. split; [reflexivity |]. repeat split.
Qed.

End CopiesApart.

(** ** The properties on the scenarios *)

Lemma task_update_without_block_witness :
  @parsed_block friends {| number := 1; body := None; labels := [] |} = None /\
  exists ok,
    In (EvUpdate 1 VUndefined ok)
      (snd (@task friends defaults {| number := 1; body := None; labels := [] |}
              no_counters 0%nat)).
Proof.
  split; [reflexivity |].
  apply (@task_update_without_block friends defaults
           {| number := 1; body := None; labels := [] |} no_counters 0%nat).
  reflexivity.
Defined.

Lemma aggregate_in_listing_order_witness :
  @run_aggregate friends defaults friend_issues 0%nat =
  (Ret friend_report,
   snd (fst (@run_aggregate friends defaults friend_issues 0%nat)),
   snd (@run_aggregate friends defaults friend_issues 0%nat)) /\
  updated (snd (@run_aggregate friends defaults friend_issues 0%nat)) = [2; 1].
Proof.
  split; [vm_compute; reflexivity |].
  exact (proj2 (proj2
                  (@aggregate_in_listing_order friends defaults friend_issues
                     0%nat friend_report _ _ ltac:(vm_compute; reflexivity)))).
Defined.

Lemma aggregate_stops_at_failure_witness :
  fst (fst (@run_aggregate refused defaults friend_issues 0%nat)) =
  Throw (RequestError "socket hang up") /\
  exists done i rest,
    friend_issues = done ++ i :: rest /\
    submitted (snd (@run_aggregate refused defaults friend_issues 0%nat)) =
    map number (done ++ [i]) /\
    started (snd (@run_aggregate refused defaults friend_issues 0%nat)) =
    map number (done ++ [i]) /\
    updated (snd (@run_aggregate refused defaults friend_issues 0%nat)) =
    map number (done ++ [i]).
Proof.
  split; [vm_compute; reflexivity |].
  apply (@aggregate_stops_at_failure refused defaults friend_issues 0%nat
           (RequestError "socket hang up")
           (snd (fst (@run_aggregate refused defaults friend_issues 0%nat)))).
  vm_compute. reflexivity.
Defined.

Lemma article_num_is_length_witness :
  @run_aggregate friends defaults friend_issues 0%nat =
  (Ret friend_report,
   snd (fst (@run_aggregate friends defaults friend_issues 0%nat)),
   snd (@run_aggregate friends defaults friend_issues 0%nat)) /\
  report_article_num friend_report = zlength (article_data friend_report).
Proof.
  split; [vm_compute; reflexivity |].
  apply (@article_num_is_length friends defaults friend_issues 0%nat
           friend_report
           (snd (fst (@run_aggregate friends defaults friend_issues 0%nat)))
           (snd (@run_aggregate friends defaults friend_issues 0%nat))).
  vm_compute. reflexivity.
Defined.

Lemma listing_failure_is_fatal_witness :
  @octokit_paginate unlisted 0%nat =
  (inl (RequestError "connect ETIMEDOUT"), 0%nat) /\
  fst (fst (@run unlisted defaults 0%nat)) = Ret tt /\
  existsb is_exit_1 (snd (@run unlisted defaults 0%nat)) = true.
Proof.
  split; [reflexivity |].
  rewrite (@listing_failure_is_fatal unlisted defaults 0%nat
             (RequestError "connect ETIMEDOUT") 0%nat eq_refl).
  split; reflexivity.
Defined.

Lemma ceiling_below_one_blocks_witness :
  CONCURRENCY_LIMIT no_slot <= 0 /\
  fst (fst (@run friends no_slot 0%nat)) = Hang /\
  started (snd (@run friends no_slot 0%nat)) = [].
Proof.
  split; [cbn; lia |].
  rewrite (@ceiling_below_one_blocks friends no_slot 0%nat
             {| number := 2; body := Some friend_body; labels := [] |}
             [ {| number := 1; body := None; labels := [] |} ] 0%nat
             ltac:(cbn; lia) eq_refl).
  split; reflexivity.
Defined.

Lemma run_exits_or_writes_witness :
  1 <= CONCURRENCY_LIMIT defaults /\
  fst (fst (@run friends defaults 0%nat)) = Ret tt.
Proof.
  split; [cbn; lia |].
  apply (@run_exits_or_writes friends defaults 0%nat). cbn. lia.
Defined.

Lemma empty_listing_report_witness :
  @octokit_paginate flaky 0%nat = (inr [], 0%nat) /\
  fst (fst (@run flaky defaults 0%nat)) = Ret tt /\
  existsb is_write (snd (@run flaky defaults 0%nat)) = true.
Proof.
  split; [reflexivity |].
  rewrite (@empty_listing_report flaky defaults 0%nat 0%nat 0%nat 0%nat
             eq_refl eq_refl eq_refl).
  split; reflexivity.
Defined.

Lemma merge_articles_fields_witness :
  exists acc',
    fst (fst (@merge_articles friends (VObj [("data", friend_data)])
                no_counters 0%nat)) = Ret acc' /\
    exists pushed,
      allArticles acc' = allArticles no_counters ++ pushed /\
      Forall (fun a => author a = VStr "Ann" /\ avatar a = VStr "") pushed.
Proof.
  eexists. split; [vm_compute; reflexivity |].
  destruct (@merge_articles_fields friends [("data", friend_data)] no_counters
              0%nat _ 0%nat [] ltac:(vm_compute; reflexivity))
    as (pushed & Hall & Hfields & _).
  exists pushed. split; [exact Hall | exact Hfields].
Defined.

Lemma null_post_aborts_run_witness :
  @octokit_paginate nulled 0%nat = (inr [pair_issue; nulled_issue], 0%nat) /\
  @parsed_block nulled nulled_issue = Some nulled_data /\
  returned defaults nulled_data = true /\
  In VNull (block_posts nulled_data) /\
  fst (fst (@run nulled defaults 0%nat)) = Ret tt /\
  exists t0, snd (@run nulled defaults 0%nat) = t0 ++ [EvExit 1].
Proof.
  split; [reflexivity |]. split; [vm_compute; reflexivity |].
  split; [reflexivity |]. split; [left; reflexivity |].
  destruct (@null_post_aborts_run nulled defaults 0%nat
              [pair_issue; nulled_issue] 0%nat nulled_issue nulled_data
              eq_refl ltac:(cbn; lia)
              ltac:(right; left; reflexivity)
              ltac:(vm_compute; reflexivity)
              ltac:(reflexivity)
              ltac:(left; reflexivity)) as (Hret & _ & Hexit).
  split; [exact Hret | exact Hexit].
Defined.

Lemma report_directory_stripped_witness :
  @path_isAbsolute friends "/srv/all.json" = true /\
  strip_slashes "/srv/all.json" = "srv/all.json" /\
  @dataPath friends
    {| RETRY_TIMES := 3; POSTS_COUNT := 2; DATAPATH := "/srv/all.json";
       DATE_FORMAT := "YYYY-MM-DD HH:mm:ss"; CONCURRENCY_LIMIT := 10 |} =
  "srv/all.json" /\
  @dataPath friends defaults = DATAPATH defaults.
Proof.
  split; [reflexivity |]. split; [reflexivity |].
  split.
  - apply (proj1 (@report_directory_stripped friends
                    {| RETRY_TIMES := 3; POSTS_COUNT := 2;
                       DATAPATH := "/srv/all.json";
                       DATE_FORMAT := "YYYY-MM-DD HH:mm:ss";
                       CONCURRENCY_LIMIT := 10 |} friend_report 0%nat)).
    reflexivity.
  - apply (@report_directory_stripped friends defaults friend_report 0%nat).
    reflexivity.
Defined.

Lemma add_settles_as_task_witness :
  running (ConcurrencyPool_new 2) < maxConcurrency (ConcurrencyPool_new 2) /\
  @add flaky _ (ConcurrencyPool_new 2) 1 fetch_once 0%nat =
  (Throw (RequestError "timeout of 5000ms exceeded"), 1%nat,
   [EvSubmit 1; EvStart 1 1; EvGet (VStr "https://example.com/rss") false;
    EvFinish 1 0]).
Proof.
  split; [cbn; lia |].
  apply (@add_settles_as_task flaky _ (ConcurrencyPool_new 2) 1 fetch_once
           0%nat (Throw (RequestError "timeout of 5000ms exceeded")) 1%nat
           [EvGet (VStr "https://example.com/rss") false]).
  - cbn. lia.
  - reflexivity.
Defined.

Lemma pool_ceiling_overrun_witness :
  (1 <= 1)%nat /\
  in_flight 0 (snd (interleave (fresh 1) (overload 1))) = 2.
Proof.
  split; [lia |].
  exact (proj2 (pool_ceiling_overrun 1 ltac:(lia))).
Defined.

Lemma sorted_input_unchanged_witness :
  consistent (@compare_created friends) [article_New; article_Old] /\
  neighbours (may_follow (@compare_created friends))
    [article_New; article_Old] /\
  @Array_sort friends _ (@compare_created friends) [article_New; article_Old] =
  [article_New; article_Old].
Proof.
  assert (Hc : consistent (@compare_created friends)
                 [article_New; article_Old]).
  { apply dated_consistent. repeat constructor; discriminate. }
  assert (H : neighbours (may_follow (@compare_created friends))
                [article_New; article_Old]).
  { cbn. repeat split. }
  split; [exact Hc |]. split; [exact H |].
  apply (@sorted_input_unchanged friends _ (@compare_created friends) _ Hc H).
Defined.

Lemma Array_sort_idempotent_witness :
  Forall (@dated friends) [article_Old; article_New] /\
  @Array_sort friends _ (@compare_created friends)
    (@Array_sort friends _ (@compare_created friends)
       [article_Old; article_New]) =
  @Array_sort friends _ (@compare_created friends) [article_Old; article_New].
Proof.
  assert (Hd : Forall (@dated friends) [article_Old; article_New]).
  { repeat constructor; discriminate. }
  split; [exact Hd |].
  apply (@Array_sort_idempotent friends _ Hd).
Defined.

Lemma dated_articles_sorted_witness :
  Forall (@dated pair)
    (article_data
       (match fst (fst (@run_aggregate pair defaults [pair_issue] 0%nat)) with
        | Ret r => r
        | _ => friend_report
        end)) /\
  map title
    (article_data
       (match fst (fst (@run_aggregate pair defaults [pair_issue] 0%nat)) with
        | Ret r => r
        | _ => friend_report
        end)) = [VStr "New"; VStr "Old"] /\
  StronglySorted (@not_older pair)
    (article_data
       (match fst (fst (@run_aggregate pair defaults [pair_issue] 0%nat)) with
        | Ret r => r
        | _ => friend_report
        end)).
Proof.
  assert (Hd : Forall (@dated pair)
                 (article_data
                    (match
                        fst (fst (@run_aggregate pair defaults [pair_issue]
                                    0%nat))
                      with
                      | Ret r => r
                      | _ => friend_report
                      end))).
  { vm_compute. repeat constructor; discriminate. }
  split; [exact Hd |]. split; [vm_compute; reflexivity |].
  apply (@dated_articles_sorted pair defaults [pair_issue] 0%nat _
           (snd (fst (@run_aggregate pair defaults [pair_issue] 0%nat)))
           (snd (@run_aggregate pair defaults [pair_issue] 0%nat)));
    [vm_compute; reflexivity | exact Hd].
Defined.

Lemma task_update_body_witness :
  body live_issue = Some live_body /\
  @block_text live live_issue = Some live_json /\
  @JSON_parse live live_json = inr live_data /\
  returned defaults live_data = true /\
  exists ok,
    In (EvUpdate 3
          (VStr (@String_replace live live_body live_json
                   (@JSON_stringify live live_data))) ok)
      (snd (@task live defaults live_issue no_counters 0%nat)).
Proof.
  split; [reflexivity |]. split; [vm_compute; reflexivity |].
  split; [vm_compute; reflexivity |]. split; [reflexivity |].
  apply (@task_update_body live defaults live_issue no_counters 0%nat
           live_body live_json live_data).
  - reflexivity.
  - vm_compute. reflexivity.
  - vm_compute. reflexivity.
  - reflexivity.
Defined.

Lemma copies_agree_witness :
  1 <= RETRY_TIMES defaults /\
  DATAPATH defaults = "all.json" /\
  effects (snd (@run friends defaults 0%nat)) =
  effects (snd (@Variant.run friends defaults 0%nat)).
Proof.
  split; [cbn; lia |]. split; [reflexivity |].
  exact (proj2 (proj2
                  (@copies_agree friends defaults ltac:(cbn; lia) eq_refl
                     (fun _ => eq_refl) 0%nat))).
Defined.

Lemma variant_keeps_block_witness :
  @parsed_block live live_issue = Some live_data /\
  truthy (field live_data "feed") = true /\
  ToPrimitive_throws (field live_data "feed") = false /\
  RETRY_TIMES no_retry <= 0 /\
  exists fields,
    fst (fst (@Variant.processIssue live no_retry live_issue 0%nat)) =
    Ret (VObj fields) /\
    lookup "data" fields = live_data.
Proof.
  split; [reflexivity |]. split; [reflexivity |]. split; [reflexivity |].
  split; [cbn; lia |].
  destruct (@variant_keeps_block live no_retry live_issue live_data 0%nat
              eq_refl eq_refl eq_refl ltac:(cbn; lia))
    as (fields & t & Hrun & Hdata & _).
  exists fields. rewrite Hrun. split; [reflexivity | exact Hdata].
Defined.
